(** * Harvest to Kimai transfer: the reconciliation and transfer engine

    A shallow embedding of
    - [Storage.storeHarvestEntries], [Storage.matchTasksWithActivities],
      [Storage.getAllPendingEntries], [Storage.markAsImported]
      (src/db/storage.js), and
    - [KimaiImporter.importTimeEntries], [KimaiImporter.transformEntry]
      (src/kimai/import.js, the revision that chains same-day entries
      through [dateEndTimeMap]),
    followed by the properties of the specification that concern them;
    then of
    - [Storage.getPendingEntries], [Storage.truncateTasks],
      [Storage.truncateKimaiTasks], [Storage.storeTasks],
      [Storage.storeKimaiActivities] (src/db/storage.js),
    - [HarvestExtractor.extractTimeEntries], [HarvestExtractor.extractTasks]
      (src/harvest/extract.js),
    - [HarvestApi.getTimeEntries], [HarvestApi.getTasks]
      (src/harvest/api.js),
    - [DateUtils.getCurrentMonth], [DateUtils.getYesterday],
      [DateUtils.formatDate] (src/utils/date.js), and
    - the revision of [KimaiImporter] before the end-time map,
    with further properties of the whole.

    Conventions of the embedding.
    - A JavaScript [Date] is its time value: milliseconds since the epoch,
      an integer [Z].  [toISOString] renders the time value and is left out.
    - The local time zone of the host is a [zone]: the offset of local
      time from UTC in milliseconds, as a function of the UTC time value
      and as a function of the local time value (ECMA-262 [LocalTZA]); it
      may change with daylight saving. A plain integer [tz : Z] stands
      for the zone whose offset is always [tz].
    - A calendar day written [YYYY-MM-DD] ([spent_date], the [date] column)
      is the number of that day counted from 1970-01-01; ECMAScript parses
      a date-only string as UTC midnight, so [new Date(date)] is
      [date * msPerDay].
    - A creation timestamp ([created_at], an ISO instant) is its time value.
    - A finite Number is the rational its binary64 value stands for;
      [hours] is such a rational, and the product [hours * 60] is rounded
      to the nearest Number before [Math.round] reads it.
    - A property of a Harvest object that the comparison [!==] reads is
      [undefined], [null] or a string; what is bound to a statement and
      stored is NULL or the string.
    - The table rows hold a calendar day in [date] and in [hours] a
      Number of hours that keeps the end of the entry within the range of
      time values; on such rows [transformEntry] returns ([toISOString]
      throws on an invalid date only).
    - What the outside answers is given to a function as an oracle indexed
      by the number of the statement or request: whether an INSERT or
      UPDATE fails, what Kimai answers, whether [markAsImported] is
      rejected, and the times at which the UPDATE statements that
      [matchTasksWithActivities] issues without serializing them finish.
    - Source and destination ids are integers ([id.toString()] is injective
      on them, so the TEXT columns holding them keep the integer).
    - Strings are sequences of code units below 256 (Latin-1). *)

From Stdlib Require Import ZArith QArith Qround String Ascii List Bool Lia.
From Stdlib Require Import Sorted Permutation DecimalString DecimalPos Lqa.
From Stdlib Require Import Qpower Qabs.
From stdpp Require Import gmap sorting.
Import ListNotations.

Local Open Scope Z_scope.

(** ** ECMAScript time values *)

Definition msPerSecond : Z := 1000.
Definition msPerMinute : Z := 60000.
Definition msPerHour : Z := 3600000.
Definition msPerDay : Z := 86400000.

(** [Day(t)] and the clock fields of a time value (ECMA-262, 21.4.1). *)
Definition Day (t : Z) : Z := t / msPerDay.
Definition HourFromTime (t : Z) : Z := (t / msPerHour) mod 24.
Definition MinFromTime (t : Z) : Z := (t / msPerMinute) mod 60.
Definition SecFromTime (t : Z) : Z := (t / msPerSecond) mod 60.
Definition msFromTime (t : Z) : Z := t mod msPerSecond.

Definition MakeTime (hour min sec ms : Z) : Z :=
  hour * msPerHour + min * msPerMinute + sec * msPerSecond + ms.

Definition MakeDate (day time : Z) : Z := day * msPerDay + time.

(** Civil date of a day number (proleptic Gregorian calendar): the triple
    (year, month 1..12, day of month). *)
Definition civil_from_days (d : Z) : Z * Z * Z :=
  let z := d + 719468 in
  let era := z / 146097 in
  let doe := z - era * 146097 in
  let yoe := (doe - doe / 1460 + doe / 36524 - doe / 146096) / 365 in
  let y := yoe + era * 400 in
  let doy := doe - (365 * yoe + yoe / 4 - yoe / 100) in
  let mp := (5 * doy + 2) / 153 in
  let dd := doy - (153 * mp + 2) / 5 + 1 in
  let m := if mp <? 10 then mp + 3 else mp - 9 in
  (if m <=? 2 then y + 1 else y, m, dd).

Definition YearFromDay (d : Z) : Z := fst (fst (civil_from_days d)).
Definition MonthFromDay (d : Z) : Z := snd (fst (civil_from_days d)) - 1.
Definition DateFromDay (d : Z) : Z := snd (civil_from_days d).

(** The time zone of the host (ECMA-262, 21.4.1.25-26), in milliseconds:
    [LocalTZA_utc t] is [LocalTZA(t, true)], the offset of local time from
    UTC in force at the instant [t]; [LocalTZA_local l] is
    [LocalTZA(l, false)], the offset by which the local time value [l] is
    read (at a change of the offset a local time that comes twice or not
    at all is read with the offset in force before the change). *)
Record zone := {
  LocalTZA_utc : Z -> Z;
  LocalTZA_local : Z -> Z
}.

(** A zone without daylight saving: the same offset at all times. An
    offset written where a zone is expected stands for that zone. *)
Definition fixed (offset : Z) : zone :=
  {| LocalTZA_utc := fun _ => offset; LocalTZA_local := fun _ => offset |}.
Coercion fixed : Z >-> zone.

(** A zone with one change of the offset, at the instant [change]. *)
Definition changing (before change after : Z) : zone :=
  {| LocalTZA_utc := fun t => if t <? change then before else after;
     LocalTZA_local :=
       fun l => if l <? change + Z.max before after then before else after |}.

Section LocalTime.

Variable tz : zone.

Definition LocalTime (t : Z) : Z := t + LocalTZA_utc tz t.
Definition UTC (t : Z) : Z := t - LocalTZA_local tz t.

(** [new Date(s)] for a date-only string [s]: UTC midnight of that day. *)
Definition Date_of_date (date : Z) : Z := date * msPerDay.

Definition getFullYear (t : Z) : Z := YearFromDay (Day (LocalTime t)).
Definition getMonth (t : Z) : Z := MonthFromDay (Day (LocalTime t)).
Definition getDate (t : Z) : Z := DateFromDay (Day (LocalTime t)).
Definition getMinutes (t : Z) : Z := MinFromTime (LocalTime t).

(** [d.setHours(hour, min, sec, ms)]: the clock of the local day is
    replaced, the local day is kept. *)
Definition setHours (t hour min sec ms : Z) : Z :=
  UTC (MakeDate (Day (LocalTime t)) (MakeTime hour min sec ms)).

(** [d.setMinutes(min)]: only the minutes field of local time changes. *)
Definition setMinutes (t min : Z) : Z :=
  let l := LocalTime t in
  UTC (MakeDate (Day l)
         (MakeTime (HourFromTime l) min (SecFromTime l) (msFromTime l))).

End LocalTime.

(** ** JavaScript numbers *)

(** A finite Number is the rational that the IEEE 754 binary64 value
    stands for. Infinity and NaN are left out: the hours of an entry are
    finite and their products stay far below 2^1024. *)

(** The exponent of the power of two at or below a positive rational. *)
Definition floor_log2 (q : Q) : Z :=
  let n := Qnum q in
  let d := Z.pos (Qden q) in
  let e := Z.log2 n - Z.log2 d in
  if (if 0 <=? e then d * 2 ^ e <=? n else d <=? n * 2 ^ (- e))
  then e else e - 1.

(** The nearest integer, a half going to the even neighbour. *)
Definition roundTiesToEven (q : Q) : Z :=
  let f := Qfloor q in
  match Qcompare (q - inject_Z f) (1 # 2) with
  | Lt => f
  | Gt => f + 1
  | Eq => if Z.even f then f else f + 1
  end.

(** The Number nearest to a rational: 53 significant bits, spacing 2^-1074
    below the normal range, ties to the even significand. This is how the
    result of every arithmetic operation on Numbers is rounded. *)
Definition to_Number (q : Q) : Q :=
  if Qeq_bool q 0 then 0%Q
  else
    let e := floor_log2 (Qabs q) in
    let p := Z.max (e - 52) (-1074) in
    (inject_Z (roundTiesToEven (q * Qpower 2 (- p))) * Qpower 2 p)%Q.

(** [x * y] on Numbers. *)
Definition Number_multiply (x y : Q) : Q := to_Number (x * y).

(** [Math.round]: the nearest integer, halves towards +infinity. *)
Definition Math_round (x : Q) : Z := Qfloor (x + (1 # 2))%Q.

(** ** JavaScript strings *)

(** Truthiness of a nullable string: [null] and [''] are falsy. *)
Definition truthy (o : option string) : bool :=
  match o with
  | None => false
  | Some s => negb (String.eqb s EmptyString)
  end.

(** [o || ''] *)
Definition or_empty (o : option string) : string :=
  match o with
  | Some s => if String.eqb s EmptyString then EmptyString else s
  | None => EmptyString
  end.

(** A property of an object of the API that holds text: the key is
    missing ([undefined]), or it holds [null] or a string. *)
Inductive property :=
| Undefined
| Null
| Text (s : string).

(** The value a statement stores for a bound parameter: NULL for
    [undefined] as for [null]. *)
Definition bound (v : property) : option string :=
  match v with
  | Text s => Some s
  | _ => None
  end.

(** Strict equality [===] of a column read from a table, which is [null]
    or a string, and a property: [null === undefined] is false. *)
Definition strict_eq (a : option string) (b : property) : bool :=
  match a, b with
  | None, Null => true
  | Some x, Text y => String.eqb x y
  | _, _ => false
  end.

(** White space and line terminators removed by [String.prototype.trim]. *)
Definition isWhiteSpace (c : ascii) : bool :=
  let n := nat_of_ascii c in
  (Nat.leb 9 n && Nat.leb n 13) || Nat.eqb n 32 || Nat.eqb n 160.

Fixpoint trimStart (s : string) : string :=
  match s with
  | EmptyString => EmptyString
  | String c s' => if isWhiteSpace c then trimStart s' else s
  end.

Fixpoint trimEnd (s : string) : string :=
  match s with
  | EmptyString => EmptyString
  | String c s' =>
      match trimEnd s' with
      | EmptyString => if isWhiteSpace c then EmptyString else String c EmptyString
      | r => String c r
      end
  end.

Definition trim (s : string) : string := trimEnd (trimStart s).

(** Lower-case mapping of one code unit: A-Z, and the Latin-1 capitals
    U+00C0-U+00DE except the multiplication sign U+00D7. *)
Definition lowerChar (c : ascii) : ascii :=
  let n := nat_of_ascii c in
  if (Nat.leb 65 n && Nat.leb n 90)
     || (Nat.leb 192 n && Nat.leb n 222 && negb (Nat.eqb n 215))
  then ascii_of_nat (n + 32) else c.

Fixpoint toLowerCase (s : string) : string :=
  match s with
  | EmptyString => EmptyString
  | String c s' => String (lowerChar c) (toLowerCase s')
  end.

(** [parseInt(s, 10)]: leading white space, an optional sign, then the
    longest run of decimal digits; [None] is NaN. *)
Definition digitValue (c : ascii) : option Z :=
  let n := nat_of_ascii c in
  if Nat.leb 48 n && Nat.leb n 57 then Some (Z.of_nat n - 48) else None.

Fixpoint parseDigits (s : string) (acc : option Z) : option Z :=
  match s with
  | EmptyString => acc
  | String c s' =>
      match digitValue c with
      | Some v => parseDigits s' (Some (10 * default 0 acc + v))
      | None => acc
      end
  end.

Definition parseInt (s : string) : option Z :=
  match trimStart s with
  | String "-"%char s' => Z.opp <$> parseDigits s' None
  | String "+"%char s' => parseDigits s' None
  | s' => parseDigits s' None
  end.

(** ** Data model *)

(** A time entry as the Harvest API returns it. [client], [project] and
    [task] hold [entry.client?.name] and so on: [None] when the nested
    object or its name is missing. [notes] and [created_at] are used
    through [||] only: [None] is a missing, [null] or empty value.
    [started_time] and [ended_time] are compared by [!==] and keep the
    three cases of a property. *)
Module Harvest.
Record entry := {
  id : Z;
  spent_date : Z;
  client : option string;
  project : option string;
  task : option string;
  notes : option string;
  hours : Q;
  started_time : property;
  ended_time : property;
  created_at : option Z
}.
End Harvest.

(** A row of table [time_entries]. *)
Module TimeEntry.
Record row := {
  id : Z;
  harvest_id : Z;
  kimai_id : option Z;
  date : Z;
  client : string;
  project : string;
  task : string;
  notes : string;
  hours : Q;
  started_time : option string;
  ended_time : option string;
  imported : Z;
  created_at : option Z
}.
End TimeEntry.

(** A row of table [tasks]. *)
Module Task.
Record row := {
  id : Z;
  harvest_id : Z;
  name : string;
  is_active : bool;
  kimai_project_id : option string;
  kimai_activity_id : option string;
  kimai_activity_name : option string
}.
End Task.

(** A row of table [tasks_kimai]. *)
Module KimaiActivity.
Record row := {
  id : Z;
  kimai_project_id : option string;
  kimai_activity_id : option string;
  task_name : string;
  parent_title : string
}.
End KimaiActivity.

(** A row of [getAllPendingEntries]: a time entry joined with the mapping
    columns of a task. *)
Module Pending.
Record entry := {
  te : TimeEntry.row;
  kimai_project_id : option string;
  kimai_activity_id : option string
}.
End Pending.

(** The object posted to Kimai. *)
Module Kimai.
Record entry := {
  begin : Z;
  end_ : Z;
  description : string;
  project : option Z;
  activity : option Z
}.
End Kimai.

(** ** Storage: reconciliation of fetched entries *)

(** [existingEntriesMap]: the selected rows are put into a [Map] one after
    the other, so a later row replaces an earlier one under the same key. *)
Fixpoint existingEntriesMap_get (rows : list TimeEntry.row) (harvestId : Z)
  : option TimeEntry.row :=
  match rows with
  | [] => None
  | r :: rows' =>
      match existingEntriesMap_get rows' harvestId with
      | Some r' => Some r'
      | None => if TimeEntry.harvest_id r =? harvestId then Some r else None
      end
  end.

(** [SELECT ... FROM time_entries WHERE harvest_id IN (harvestIds)] *)
Definition select_existing (harvestIds : list Z) (db : list TimeEntry.row)
  : list TimeEntry.row :=
  List.filter (fun r => existsb (Z.eqb (TimeEntry.harvest_id r)) harvestIds) db.

Definition hasChanged (existing : TimeEntry.row) (entry : Harvest.entry) : bool :=
  negb (TimeEntry.date existing =? Harvest.spent_date entry)
  || negb (String.eqb (TimeEntry.client existing) (or_empty (Harvest.client entry)))
  || negb (String.eqb (TimeEntry.project existing) (or_empty (Harvest.project entry)))
  || negb (String.eqb (TimeEntry.task existing) (or_empty (Harvest.task entry)))
  || negb (String.eqb (TimeEntry.notes existing) (or_empty (Harvest.notes entry)))
  || negb (Qeq_bool (TimeEntry.hours existing) (Harvest.hours entry))
  || negb (strict_eq (TimeEntry.started_time existing) (Harvest.started_time entry))
  || negb (strict_eq (TimeEntry.ended_time existing) (Harvest.ended_time entry)).

Inductive classification := IsNew | IsChanged | IsUnchanged.

Definition classify (existing : list TimeEntry.row) (entry : Harvest.entry)
  : classification :=
  match existingEntriesMap_get existing (Harvest.id entry) with
  | None => IsNew
  | Some r => if hasChanged r entry then IsChanged else IsUnchanged
  end.

Definition is_new (c : classification) : bool :=
  match c with IsNew => true | _ => false end.
Definition is_changed (c : classification) : bool :=
  match c with IsChanged => true | _ => false end.
Definition is_unchanged (c : classification) : bool :=
  match c with IsUnchanged => true | _ => false end.

(** The rowid SQLite gives to a row inserted without one. *)
Definition next_rowid (db : list TimeEntry.row) : Z :=
  1 + fold_right (fun r acc => Z.max (TimeEntry.id r) acc) 0 db.

Definition has_harvest_id (db : list TimeEntry.row) (harvestId : Z) : bool :=
  existsb (fun r => TimeEntry.harvest_id r =? harvestId) db.

(** The row written by the INSERT statement; [kimai_id] is not listed and
    stays NULL, [imported] takes its DEFAULT 0. *)
Definition inserted_row (now : Z) (db : list TimeEntry.row) (entry : Harvest.entry)
  : TimeEntry.row :=
  {| TimeEntry.id := next_rowid db;
     TimeEntry.harvest_id := Harvest.id entry;
     TimeEntry.kimai_id := None;
     TimeEntry.date := Harvest.spent_date entry;
     TimeEntry.client := or_empty (Harvest.client entry);
     TimeEntry.project := or_empty (Harvest.project entry);
     TimeEntry.task := or_empty (Harvest.task entry);
     TimeEntry.notes := or_empty (Harvest.notes entry);
     TimeEntry.hours := Harvest.hours entry;
     TimeEntry.started_time := bound (Harvest.started_time entry);
     TimeEntry.ended_time := bound (Harvest.ended_time entry);
     TimeEntry.imported := 0;
     TimeEntry.created_at :=
       Some (match Harvest.created_at entry with Some c => c | None => now end) |}.

(** The effect of the UPDATE statement on one row. *)
Definition updated_row (entry : Harvest.entry) (r : TimeEntry.row) : TimeEntry.row :=
  if TimeEntry.harvest_id r =? Harvest.id entry then
    {| TimeEntry.id := TimeEntry.id r;
       TimeEntry.harvest_id := TimeEntry.harvest_id r;
       TimeEntry.kimai_id := TimeEntry.kimai_id r;
       TimeEntry.date := Harvest.spent_date entry;
       TimeEntry.client := or_empty (Harvest.client entry);
       TimeEntry.project := or_empty (Harvest.project entry);
       TimeEntry.task := or_empty (Harvest.task entry);
       TimeEntry.notes := or_empty (Harvest.notes entry);
       TimeEntry.hours := Harvest.hours entry;
       TimeEntry.started_time := bound (Harvest.started_time entry);
       TimeEntry.ended_time := bound (Harvest.ended_time entry);
       TimeEntry.imported := TimeEntry.imported r;
       TimeEntry.created_at := TimeEntry.created_at r |}
  else r.

(** One prepared statement run per entry. [io k] tells whether the [k]-th
    statement of the call fails for a reason outside the table (disk, lock);
    an INSERT also fails on the UNIQUE constraint of [harvest_id]. The
    callback counts the row as done or as an error. *)
Record phase := {
  rows : list TimeEntry.row;
  doneCount : nat;
  errorCount : nat
}.

Fixpoint insertPhase (io : nat -> bool) (now : Z) (k : nat)
  (newEntries : list Harvest.entry) (st : phase) : phase :=
  match newEntries with
  | [] => st
  | entry :: rest =>
      if io k || has_harvest_id (rows st) (Harvest.id entry) then
        insertPhase io now (S k) rest
          {| rows := rows st; doneCount := doneCount st;
             errorCount := S (errorCount st) |}
      else
        insertPhase io now (S k) rest
          {| rows := rows st ++ [inserted_row now (rows st) entry];
             doneCount := S (doneCount st); errorCount := errorCount st |}
  end.

Fixpoint updatePhase (io : nat -> bool) (k : nat)
  (updatedEntries : list Harvest.entry) (st : phase) : phase :=
  match updatedEntries with
  | [] => st
  | entry :: rest =>
      if io k then
        updatePhase io (S k) rest
          {| rows := rows st; doneCount := doneCount st;
             errorCount := S (errorCount st) |}
      else
        updatePhase io (S k) rest
          {| rows := List.map (updated_row entry) (rows st);
             doneCount := S (doneCount st); errorCount := errorCount st |}
  end.

(** The value the promise resolves with. *)
Record counts := {
  inserted : nat;
  updated : nat;
  unchanged : nat
}.

(** The outcome of a call: the resolved value, the two error counters the
    call logs, and the table afterwards. *)
Record stored := {
  resolved : counts;
  insertErrorCount : nat;
  updateErrorCount : nat;
  time_entries : list TimeEntry.row
}.

Definition storeHarvestEntries (io : nat -> bool) (now : Z)
  (entries : list Harvest.entry) (db : list TimeEntry.row) : stored :=
  if Nat.eqb (length entries) 0 then
    {| resolved := {| inserted := 0; updated := 0; unchanged := 0 |};
       insertErrorCount := 0; updateErrorCount := 0; time_entries := db |}
  else
    let harvestIds := List.map Harvest.id entries in
    let existingEntries := select_existing harvestIds db in
    let newEntries :=
      List.filter (fun e => is_new (classify existingEntries e)) entries in
    let updatedEntries :=
      List.filter (fun e => is_changed (classify existingEntries e)) entries in
    let unchangedEntries :=
      List.filter (fun e => is_unchanged (classify existingEntries e)) entries in
    let ins :=
      if Nat.ltb 0 (length newEntries) then
        insertPhase io now 0 newEntries
          {| rows := db; doneCount := 0; errorCount := 0 |}
      else {| rows := db; doneCount := 0; errorCount := 0 |} in
    let upd :=
      if Nat.ltb 0 (length updatedEntries) then
        updatePhase io (length newEntries) updatedEntries
          {| rows := rows ins; doneCount := 0; errorCount := 0 |}
      else {| rows := rows ins; doneCount := 0; errorCount := 0 |} in
    {| resolved :=
         if Nat.ltb 0 (length updatedEntries) then
           {| inserted := doneCount ins; updated := doneCount upd;
              unchanged := length unchangedEntries |}
         else if Nat.ltb 0 (length newEntries) then
           {| inserted := doneCount ins; updated := 0;
              unchanged := length unchangedEntries |}
         else
           {| inserted := 0; updated := 0;
              unchanged := length unchangedEntries |};
       insertErrorCount := errorCount ins;
       updateErrorCount := errorCount upd;
       time_entries := rows upd |}.

(** [markAsImported(harvestId, kimaiId)]:
    [UPDATE time_entries SET imported = 1, kimai_id = ? WHERE harvest_id = ?] *)
Definition markAsImported (harvestId kimaiId : Z) (db : list TimeEntry.row)
  : list TimeEntry.row :=
  List.map (fun r =>
    if TimeEntry.harvest_id r =? harvestId then
      {| TimeEntry.id := TimeEntry.id r;
         TimeEntry.harvest_id := TimeEntry.harvest_id r;
         TimeEntry.kimai_id := Some kimaiId;
         TimeEntry.date := TimeEntry.date r;
         TimeEntry.client := TimeEntry.client r;
         TimeEntry.project := TimeEntry.project r;
         TimeEntry.task := TimeEntry.task r;
         TimeEntry.notes := TimeEntry.notes r;
         TimeEntry.hours := TimeEntry.hours r;
         TimeEntry.started_time := TimeEntry.started_time r;
         TimeEntry.ended_time := TimeEntry.ended_time r;
         TimeEntry.imported := 1;
         TimeEntry.created_at := TimeEntry.created_at r |}
    else r) db.

(** [getAllPendingEntries]:
    [SELECT te.*, t.kimai_project_id, t.kimai_activity_id
     FROM time_entries te LEFT JOIN tasks t ON te.task = t.name
     WHERE te.imported = 0] *)
Definition left_join (tasks : list Task.row) (r : TimeEntry.row)
  : list Pending.entry :=
  match List.filter (fun t => String.eqb (TimeEntry.task r) (Task.name t)) tasks with
  | [] => [ {| Pending.te := r; Pending.kimai_project_id := None;
               Pending.kimai_activity_id := None |} ]
  | ts => List.map (fun t =>
            {| Pending.te := r;
               Pending.kimai_project_id := Task.kimai_project_id t;
               Pending.kimai_activity_id := Task.kimai_activity_id t |}) ts
  end.

Definition getAllPendingEntries (db : list TimeEntry.row) (tasks : list Task.row)
  : list Pending.entry :=
  List.filter (fun p => TimeEntry.imported (Pending.te p) =? 0)
    (List.flat_map (left_join tasks) db).

(** ** Storage: matching tasks with activities *)

(** [task.name.trim().toLowerCase() === activity.task_name.trim().toLowerCase()] *)
Definition same_name (activity : KimaiActivity.row) (task : Task.row) : bool :=
  String.eqb (toLowerCase (trim (Task.name task)))
             (toLowerCase (trim (KimaiActivity.task_name activity))).

(** [UPDATE tasks SET kimai_project_id = ?, kimai_activity_id = ?,
     kimai_activity_name = ? WHERE id = ?] on one row. *)
Definition update_task (activity : KimaiActivity.row) (taskId : Z) (t : Task.row)
  : Task.row :=
  if Task.id t =? taskId then
    {| Task.id := Task.id t;
       Task.harvest_id := Task.harvest_id t;
       Task.name := Task.name t;
       Task.is_active := Task.is_active t;
       Task.kimai_project_id := KimaiActivity.kimai_project_id activity;
       Task.kimai_activity_id := KimaiActivity.kimai_activity_id activity;
       Task.kimai_activity_name := Some (KimaiActivity.task_name activity) |}
  else t.

(** [matchedCount] and [unmatchedCount] are JavaScript numbers that the
    update callbacks increment and decrement; they are integers here. *)
Record matching := {
  tasks_table : list Task.row;
  matched : Z;
  unmatched : Z
}.

(** The loop over [kimaiActivities]; [harvestTasks] is the array selected
    before the loop. For each activity that finds a task the loop issues
    one UPDATE, with the activity and the row id of the task, and pushes
    its promise to [updatePromises]; the result is the list of the
    statements issued, in the order of the loop. *)
Fixpoint matchLoop (harvestTasks : list Task.row)
  (kimaiActivities : list KimaiActivity.row) : list (KimaiActivity.row * Z) :=
  match kimaiActivities with
  | [] => []
  | activity :: rest =>
      match List.find (same_name activity) harvestTasks with
      | Some matchingTask =>
          (activity, Task.id matchingTask) :: matchLoop harvestTasks rest
      | None => matchLoop harvestTasks rest
      end
  end.

(** The statements are issued with [db.run] outside [db.serialize] and
    nothing awaits one before the next is issued: the database runs them
    as its workers take them, and each takes effect when it finishes.
    [finishes k] is the time at which the statement issued as number [k]
    finishes; the statements take effect in the order of these times, and
    of two that finish at the same time the one issued first is first.
    [place] puts a numbered statement into a list ordered that way. *)
Fixpoint place {A} (finishes : nat -> nat) (s : nat * A) (l : list (nat * A))
  : list (nat * A) :=
  match l with
  | [] => [s]
  | s' :: rest =>
      if Nat.leb (finishes (fst s)) (finishes (fst s')) then s :: l
      else s' :: place finishes s rest
  end.

Definition completion_order {A} (finishes : nat -> nat) (issued : list A) : list A :=
  List.map snd
    (fold_right (place finishes) [] (combine (seq 0 (length issued)) issued)).

(** One UPDATE and its callback: the statement changes the table, the
    callback counts one match. The statement writes three columns without
    constraint and is taken to succeed. *)
Definition runUpdate (st : matching) (u : KimaiActivity.row * Z) : matching :=
  {| tasks_table := List.map (update_task (fst u) (snd u)) (tasks_table st);
     matched := matched st + 1;
     unmatched := unmatched st - 1 |}.

(** [Promise.all(updatePromises)] resolves when every callback has run;
    the counters are read then. *)
Definition matchTasksWithActivities (finishes : nat -> nat)
  (kimaiActivities : list KimaiActivity.row) (tasks : list Task.row) : matching :=
  if Nat.eqb (length kimaiActivities) 0 then
    {| tasks_table := tasks; matched := 0; unmatched := 0 |}
  else
    let harvestTasks := tasks in
    if Nat.eqb (length harvestTasks) 0 then
      {| tasks_table := tasks; matched := 0; unmatched := 0 |}
    else
      let updatePromises := matchLoop harvestTasks kimaiActivities in
      fold_left runUpdate (completion_order finishes updatePromises)
        {| tasks_table := tasks; matched := 0;
           unmatched := Z.of_nat (length harvestTasks) |}.

(** ** The importer *)

Section Importer.

Variable tz : zone.

(** The three comparisons of [transformEntry] on local calendar fields. *)
Definition sameDate (createdAtDate dateObj : Z) : bool :=
  (getFullYear tz createdAtDate =? getFullYear tz dateObj)
  && (getMonth tz createdAtDate =? getMonth tz dateObj)
  && (getDate tz createdAtDate =? getDate tz dateObj).

(** [transformEntry(entry, dateEndTimeMap)]: the entry for Kimai and the
    map after the [set]. *)
Definition transformEntry (entry : Pending.entry) (dateEndTimeMap : gmap Z Z)
  : Kimai.entry * gmap Z Z :=
  let entryDate := TimeEntry.date (Pending.te entry) in
  let beginTime :=
    match TimeEntry.created_at (Pending.te entry) with
    | Some createdAtDate =>
        let dateObj := Date_of_date entryDate in
        if sameDate createdAtDate dateObj then createdAtDate
        else
          match dateEndTimeMap !! entryDate with
          | Some lastEnd => lastEnd
          | None => setHours tz (Date_of_date entryDate) 9 0 0 0
          end
    | None =>
        match dateEndTimeMap !! entryDate with
        | Some lastEnd => lastEnd
        | None => setHours tz (Date_of_date entryDate) 9 0 0 0
        end
    end in
  let endTime :=
    setMinutes tz beginTime
      (getMinutes tz beginTime
       + Math_round (Number_multiply (TimeEntry.hours (Pending.te entry)) 60)) in
  ({| Kimai.begin := beginTime;
      Kimai.end_ := endTime;
      Kimai.description := TimeEntry.notes (Pending.te entry);
      Kimai.project := parseInt (default EmptyString (Pending.kimai_project_id entry));
      Kimai.activity := parseInt (default EmptyString (Pending.kimai_activity_id
          entry)) |},
   <[entryDate := endTime]> dateEndTimeMap).

(** [!entry.kimai_project_id || !entry.kimai_activity_id] *)
Definition missing_mapping (entry : Pending.entry) : bool :=
  negb (truthy (Pending.kimai_project_id entry))
  || negb (truthy (Pending.kimai_activity_id entry)).

(** What the loop does with an entry, as its log lines tell. *)
Inductive event :=
| Skipped (entry : Pending.entry)
| Imported (entry : Pending.entry) (kimaiEntry : Kimai.entry) (kimaiId : Z)
| Failed (entry : Pending.entry) (kimaiEntry : Kimai.entry).

(** The state of a run of [importTimeEntries]. *)
Record run := {
  db : list TimeEntry.row;
  dateEndTimeMap : gmap Z Z;
  imported : nat;
  failed : nat;
  calls : nat;
  log : list event
}.

(** [api.createTimesheet]: the answer of Kimai to the [n]-th request of the
    run, the id of the created timesheet or [None] when the call throws. *)
Variable createTimesheet : nat -> Kimai.entry -> option Z.

(** [storage.markAsImported] after the [n]-th request: [true] when the
    UPDATE fails and the promise is rejected; the table is then as it
    was. *)
Variable mark_fails : nat -> bool.

(** The body of the [for] loop. Whatever is thrown inside the [try], by
    [createTimesheet] or by [markAsImported], is caught, logged as a
    failure and counted in [failed]; [imported] is counted after the row
    is marked. *)
Definition importStep (st : run) (entry : Pending.entry) : run :=
  if missing_mapping entry then
    {| db := db st; dateEndTimeMap := dateEndTimeMap st;
       imported := imported st; failed := failed st; calls := calls st;
       log := log st ++ [Skipped entry] |}
  else
    let '(kimaiEntry, map') := transformEntry entry (dateEndTimeMap st) in
    match createTimesheet (calls st) kimaiEntry with
    | Some kimaiId =>
        if mark_fails (calls st) then
          {| db := db st; dateEndTimeMap := map';
             imported := imported st; failed := S (failed st);
             calls := S (calls st);
             log := log st ++ [Failed entry kimaiEntry] |}
        else
          {| db := markAsImported (TimeEntry.harvest_id (Pending.te entry)) kimaiId
                     (db st);
             dateEndTimeMap := map';
             imported := S (imported st); failed := failed st;
             calls := S (calls st);
             log := log st ++ [Imported entry kimaiEntry kimaiId] |}
    | None =>
        {| db := db st; dateEndTimeMap := map';
           imported := imported st; failed := S (failed st);
           calls := S (calls st);
           log := log st ++ [Failed entry kimaiEntry] |}
    end.

Definition importLoop (st : run) (entries : list Pending.entry) : run :=
  fold_left importStep entries st.

(** [entries.sort((a, b) => new Date(a.date) - new Date(b.date))]: the
    stable sort by the time value of the date. *)
Fixpoint insert_by_date (e : Pending.entry) (sorted : list Pending.entry)
  : list Pending.entry :=
  match sorted with
  | [] => [e]
  | x :: rest =>
      if Date_of_date (TimeEntry.date (Pending.te e))
         - Date_of_date (TimeEntry.date (Pending.te x)) <=? 0
      then e :: x :: rest
      else x :: insert_by_date e rest
  end.

Definition sort_by_date (entries : list Pending.entry) : list Pending.entry :=
  fold_right insert_by_date [] entries.

Definition importTimeEntries (time_entries0 : list TimeEntry.row)
  (tasks : list Task.row) : run :=
  let start :=
    {| db := time_entries0; dateEndTimeMap := ∅; imported := 0; failed := 0;
       calls := 0; log := [] |} in
  let entries := getAllPendingEntries time_entries0 tasks in
  if Nat.eqb (length entries) 0 then start
  else importLoop start (sort_by_date entries).

End Importer.

(** ** Vocabulary of the specification *)

(** The invariant of a time entry: [imported = 1] implies that the
    destination id is set. *)
Definition row_ok (r : TimeEntry.row) : bool :=
  negb (TimeEntry.imported r =? 1)
  || match TimeEntry.kimai_id r with Some _ => true | None => false end.

Definition imported_has_kimai_id (db : list TimeEntry.row) : bool :=
  forallb row_ok db.

(** The columns a reconciliation must not touch. *)
Definition same_import_status (r r' : TimeEntry.row) : Prop :=
  TimeEntry.id r' = TimeEntry.id r
  /\ TimeEntry.harvest_id r' = TimeEntry.harvest_id r
  /\ TimeEntry.imported r' = TimeEntry.imported r
  /\ TimeEntry.kimai_id r' = TimeEntry.kimai_id r
  /\ TimeEntry.created_at r' = TimeEntry.created_at r.

(** A row holds an entry: the source id and the eight fields a
    reconciliation writes. *)
Definition stored_as (e : Harvest.entry) (r : TimeEntry.row) : Prop :=
  TimeEntry.harvest_id r = Harvest.id e
  /\ TimeEntry.date r = Harvest.spent_date e
  /\ TimeEntry.client r = or_empty (Harvest.client e)
  /\ TimeEntry.project r = or_empty (Harvest.project e)
  /\ TimeEntry.task r = or_empty (Harvest.task e)
  /\ TimeEntry.notes r = or_empty (Harvest.notes e)
  /\ (TimeEntry.hours r == Harvest.hours e)%Q
  /\ TimeEntry.started_time r = bound (Harvest.started_time e)
  /\ TimeEntry.ended_time r = bound (Harvest.ended_time e).

(** The entry carries [started_time] and [ended_time], as [null] or as a
    value. *)
Definition times_given (entry : Harvest.entry) : bool :=
  match Harvest.started_time entry, Harvest.ended_time entry with
  | Undefined, _ => false
  | _, Undefined => false
  | _, _ => true
  end.

(** The entry an event of the import log is about. *)
Definition event_entry (ev : event) : Pending.entry :=
  match ev with
  | Skipped e => e
  | Imported e _ _ => e
  | Failed e _ => e
  end.

(** The object submitted to Kimai, if the event is a submission. *)
Definition submitted (ev : event) : option Kimai.entry :=
  match ev with
  | Skipped _ => None
  | Imported _ k _ => Some k
  | Failed _ k => Some k
  end.

(** The normal form under which names are compared: trimmed, lower case. *)
Definition normalized (s : string) : string := toLowerCase (trim s).


(** A task row with the mapping columns taken from an activity. *)
Definition with_mapping (activity : KimaiActivity.row) (t : Task.row) : Task.row :=
  {| Task.id := Task.id t;
     Task.harvest_id := Task.harvest_id t;
     Task.name := Task.name t;
     Task.is_active := Task.is_active t;
     Task.kimai_project_id := KimaiActivity.kimai_project_id activity;
     Task.kimai_activity_id := KimaiActivity.kimai_activity_id activity;
     Task.kimai_activity_name := Some (KimaiActivity.task_name activity) |}.

(** The row ids the matching step updates, one for each activity that
    finds a task, in the order of the activities. *)
Definition selected_ids (kimaiActivities : list KimaiActivity.row)
  (tasks : list Task.row) : list Z :=
  List.flat_map (fun a => match List.find (same_name a) tasks with
                          | Some t => [Task.id t]
                          | None => []
                          end) kimaiActivities.

(** The activity finds a task, and the activities whose statements have
    run, in the order in which the statements took effect. *)
Definition finds (tasks : list Task.row) (activity : KimaiActivity.row) : bool :=
  match List.find (same_name activity) tasks with Some _ => true | None => false end.

Definition executed (finishes : nat -> nat) (kimaiActivities : list KimaiActivity.row)
  (tasks : list Task.row) : list KimaiActivity.row :=
  List.map fst (completion_order finishes (matchLoop tasks kimaiActivities)).

(** The place of a statement number in a list of numbers, and the order
    of two numbered statements by their completion times. *)
Fixpoint position (order : list nat) (k : nat) : nat :=
  match order with
  | [] => 0
  | k' :: rest => if Nat.eqb k k' then 0 else S (position rest k)
  end.

Definition earlier {A} (finishes : nat -> nat) (a b : nat * A) : Prop :=
  (finishes (fst a) < finishes (fst b))%nat.

(** Two schedules: every statement finishes before the next is done, and
    the statements finish in the reverse of the order of issue. *)
Definition in_order (k : nat) : nat := k.
Definition in_reverse (k : nat) : nat := 100 - k.

(** The number of task rows updated with a mapping. *)
Definition tasks_updated (kimaiActivities : list KimaiActivity.row)
  (tasks : list Task.row) : nat :=
  length (List.filter
            (fun t => existsb (Z.eqb (Task.id t)) (selected_ids kimaiActivities tasks))
            tasks).

(** What the loop over the activities does to one row of the table. *)
Definition row_after (harvestTasks : list Task.row)
  (kimaiActivities : list KimaiActivity.row) (t : Task.row) : Task.row :=
  fold_left (fun t a => match List.find (same_name a) harvestTasks with
                        | Some m => update_task a (Task.id m) t
                        | None => t
                        end) kimaiActivities t.

(** The calendar date (year, month, day of the month) of a time value, in
    the local time of the host. *)
Definition calendar_date (tz : zone) (t : Z) : Z * Z * Z :=
  (getFullYear tz t, getMonth tz t, getDate tz t).

(** The calendar date a day number stands for. *)
Definition own_date (date : Z) : Z * Z * Z :=
  (YearFromDay date, MonthFromDay date, DateFromDay date).

Definition date_eqb (a b : Z * Z * Z) : bool :=
  (fst (fst a) =? fst (fst b)) && (snd (fst a) =? snd (fst b)) && (snd a =? snd b).

(** The entry has a creation timestamp whose calendar date is the date of
    the entry. *)
Definition has_same_date_created_at (tz : zone) (entry : Pending.entry) : bool :=
  match TimeEntry.created_at (Pending.te entry) with
  | Some c => date_eqb (calendar_date tz c)
                       (own_date (TimeEntry.date (Pending.te entry)))
  | None => false
  end.

(** The test [transformEntry] makes before it uses [created_at]. *)
Definition takes_created_at (tz : zone) (entry : Pending.entry) : bool :=
  match TimeEntry.created_at (Pending.te entry) with
  | Some c => sameDate tz c (Date_of_date (TimeEntry.date (Pending.te entry)))
  | None => false
  end.

(** The duration of an entry in whole minutes. *)
Definition rounded_minutes (entry : Pending.entry) : Z :=
  Math_round (Number_multiply (TimeEntry.hours (Pending.te entry)) 60).

(** 09:00:00.000 local time on a day. *)
Definition nine_local (tz : zone) (date : Z) : Z :=
  UTC tz (MakeDate date (MakeTime 9 0 0 0)).

(** The begin time by the three rules of the specification. *)
Definition policy_begin (tz : zone) (entry : Pending.entry) (ends : gmap Z Z) : Z :=
  let date := TimeEntry.date (Pending.te entry) in
  if has_same_date_created_at tz entry then
    default 0 (TimeEntry.created_at (Pending.te entry))
  else
    match ends !! date with
    | Some lastEnd => lastEnd
    | None => nine_local tz date
    end.


(** ** Sample data *)

(** 2025-03-10 and 2025-03-11 as day numbers. *)
Definition day_2025_03_10 : Z := 20157.
Definition day_2025_03_11 : Z := 20158.

(** UTC-05:00, a zone west of Greenwich. *)
Definition tz_west : Z := -5 * msPerHour.

(** A stored entry of 1.5 hours on 2025-03-10, created at
    2025-03-10T14:00:00Z, for task Development. *)
Definition row_10 (harvestId imported : Z) (kimaiId : option Z)
  (created : option Z) (notes : string) (hours : Q) : TimeEntry.row :=
  {| TimeEntry.id := harvestId;
     TimeEntry.harvest_id := harvestId;
     TimeEntry.kimai_id := kimaiId;
     TimeEntry.date := day_2025_03_10;
     TimeEntry.client := "Acme";
     TimeEntry.project := "Website";
     TimeEntry.task := "Development";
     TimeEntry.notes := notes;
     TimeEntry.hours := hours;
     TimeEntry.started_time := None;
     TimeEntry.ended_time := None;
     TimeEntry.imported := imported;
     TimeEntry.created_at := created |}.

Definition at_14_00Z : Z := day_2025_03_10 * msPerDay + 14 * msPerHour.

(** A stored entry of 2 hours on 2025-03-11 without creation timestamp. *)
Definition row_11 : TimeEntry.row :=
  {| TimeEntry.id := 9;
     TimeEntry.harvest_id := 9;
     TimeEntry.kimai_id := None;
     TimeEntry.date := day_2025_03_11;
     TimeEntry.client := "Acme";
     TimeEntry.project := "Website";
     TimeEntry.task := "Development";
     TimeEntry.notes := "";
     TimeEntry.hours := 2;
     TimeEntry.started_time := None;
     TimeEntry.ended_time := None;
     TimeEntry.imported := 0;
     TimeEntry.created_at := None |}.


Definition mapped (r : TimeEntry.row) : Pending.entry :=
  {| Pending.te := r;
     Pending.kimai_project_id := Some "3"%string;
     Pending.kimai_activity_id := Some "12"%string |}.

Definition task_development (project activity : option string) : Task.row :=
  {| Task.id := 1; Task.harvest_id := 900; Task.name := "Development";
     Task.is_active := true;
     Task.kimai_project_id := project;
     Task.kimai_activity_id := activity;
     Task.kimai_activity_name := activity |}.

Definition activity_development (kimaiActivityId : string) (name : string)
  : KimaiActivity.row :=
  {| KimaiActivity.id := 1;
     KimaiActivity.kimai_project_id := Some "3"%string;
     KimaiActivity.kimai_activity_id := Some kimaiActivityId;
     KimaiActivity.task_name := name;
     KimaiActivity.parent_title := EmptyString |}.

Definition harvest_entry (id : Z) (notes : string) : Harvest.entry :=
  {| Harvest.id := id;
     Harvest.spent_date := day_2025_03_10;
     Harvest.client := Some "Acme"%string;
     Harvest.project := Some "Website"%string;
     Harvest.task := Some "Development"%string;
     Harvest.notes := Some notes;
     Harvest.hours := 3 # 2;
     Harvest.started_time := Null;
     Harvest.ended_time := Null;
     Harvest.created_at := Some at_14_00Z |}.

(** The same entry from an object that has no key [started_time] and no
    key [ended_time]. *)
Definition harvest_entry_without_times (id : Z) (notes : string) : Harvest.entry :=
  {| Harvest.id := id;
     Harvest.spent_date := day_2025_03_10;
     Harvest.client := Some "Acme"%string;
     Harvest.project := Some "Website"%string;
     Harvest.task := Some "Development"%string;
     Harvest.notes := Some notes;
     Harvest.hours := 3 # 2;
     Harvest.started_time := Undefined;
     Harvest.ended_time := Undefined;
     Harvest.created_at := Some at_14_00Z |}.

(** Kimai answers every request with a fresh id; or refuses the first. *)
Definition kimai_accepts (n : nat) (_ : Kimai.entry) : option Z :=
  Some (500 + Z.of_nat n).
Definition kimai_refuses_first (n : nat) (_ : Kimai.entry) : option Z :=
  match n with O => None | S _ => Some (500 + Z.of_nat n) end.
Definition no_io_error (_ : nat) : bool := false.

(** The first UPDATE of [markAsImported] is rejected, the others succeed. *)
Definition marking_fails_first (n : nat) : bool :=
  match n with O => true | S _ => false end.

(** The task catalog with Development mapped to project 3, activity 12. *)
Definition tasks_mapped : list Task.row :=
  [task_development (Some "3"%string) (Some "12"%string)].


(** Two pending entries of 2025-03-10 without creation timestamp. *)
Definition db_chained : list TimeEntry.row :=
  [row_10 1 0 None None "a" 2; row_10 2 0 None None "b" 1].

(** Three pending entries of 2025-03-10 without creation timestamp. *)
Definition db_three_chained : list TimeEntry.row :=
  [row_10 1 0 None None "a" 2; row_10 2 0 None None "b" 1;
   row_10 3 0 None None "c" 1].

(** The task catalog with Development left without mapping. *)
Definition tasks_unmapped : list Task.row := [task_development None None].

(** An entry already imported as Kimai timesheet 501. *)
Definition db_imported : list TimeEntry.row :=
  [row_10 7 1 (Some 501) (Some at_14_00Z) "old" (3 # 2)].

(** A batch with two different source ids, and a batch that carries the
    source id 7 twice with different notes. *)
Definition batch_distinct : list Harvest.entry :=
  [harvest_entry 7 "a"; harvest_entry 8 "b"].
Definition batch_same_id : list Harvest.entry :=
  [harvest_entry 7 "a"; harvest_entry 7 "b"].

(** Two tasks with the same normalized name, and activities for them. *)
Definition tasks_two : list Task.row :=
  [ {| Task.id := 1; Task.harvest_id := 900; Task.name := " Development";
       Task.is_active := true; Task.kimai_project_id := None;
       Task.kimai_activity_id := None; Task.kimai_activity_name := None |};
    {| Task.id := 2; Task.harvest_id := 901; Task.name := "DEVELOPMENT";
       Task.is_active := true; Task.kimai_project_id := None;
       Task.kimai_activity_id := None; Task.kimai_activity_name := None |} ].
Definition activities_one : list KimaiActivity.row :=
  [activity_development "12" "development "].
Definition activities_twice : list KimaiActivity.row :=
  [activity_development "12" "development "; activity_development "13" "Development"].

(** A catalog with a task for design reviews next to Development, and an
    activity for each. *)
Definition tasks_design : list Task.row :=
  [ task_development None None;
    {| Task.id := 2; Task.harvest_id := 901; Task.name := " Design Review ";
       Task.is_active := true; Task.kimai_project_id := None;
       Task.kimai_activity_id := None; Task.kimai_activity_name := None |} ].
Definition activities_design : list KimaiActivity.row :=
  [ activity_development "12" "development ";
    {| KimaiActivity.id := 2;
       KimaiActivity.kimai_project_id := Some "3"%string;
       KimaiActivity.kimai_activity_id := Some "14"%string;
       KimaiActivity.task_name := "design review";
       KimaiActivity.parent_title := EmptyString |} ].

(** * The rest of the storage and of the extraction *)

(** [getPendingEntries(from, to)]:
    [SELECT * FROM time_entries WHERE imported = 0 AND date >= ? AND date <= ?].
    Dates written [YYYY-MM-DD] compare as text the way their days do. *)
Definition getPendingEntries (from to : Z) (db : list TimeEntry.row)
  : list TimeEntry.row :=
  List.filter (fun r => (TimeEntry.imported r =? 0)
                        && (from <=? TimeEntry.date r)
                        && (TimeEntry.date r <=? to)) db.

(** [truncateTasks] and [truncateKimaiTasks]: [DELETE FROM] the table. *)
Definition truncateTasks (tasks : list Task.row) : list Task.row := [].
Definition truncateKimaiTasks (tasks_kimai : list KimaiActivity.row)
  : list KimaiActivity.row := [].

(** A task as the Harvest API returns it; [id] is [None] when the object
    has none. *)
Module HarvestTask.
Record task := {
  id : option Z;
  name : string;
  is_active : bool
}.
End HarvestTask.

(** [!x.id] for a numeric id: a missing id and the id 0 are falsy. *)
Definition falsy_id (o : option Z) : bool :=
  match o with
  | None => true
  | Some z => z =? 0
  end.

Definition next_task_rowid (tasks : list Task.row) : Z :=
  1 + fold_right (fun r acc => Z.max (Task.id r) acc) 0 tasks.

(** [INSERT OR REPLACE INTO tasks (harvest_id, name, is_active,
     kimai_project_id, kimai_activity_id, kimai_activity_name, ...)
     VALUES (?, ?, ?, NULL, NULL, NULL, ...)]: a row that holds the same
    [harvest_id] (UNIQUE) is deleted, the new row gets a fresh rowid. *)
Definition insert_or_replace_task (tasks : list Task.row) (harvestId : Z)
  (name : string) (is_active : bool) : list Task.row :=
  List.filter (fun r => negb (Task.harvest_id r =? harvestId)) tasks
  ++ [ {| Task.id := next_task_rowid tasks;
          Task.harvest_id := harvestId;
          Task.name := name;
          Task.is_active := is_active;
          Task.kimai_project_id := None;
          Task.kimai_activity_id := None;
          Task.kimai_activity_name := None |} ].

(** The table and the two counters [storeTasks] and
    [storeKimaiActivities] log; [statements] numbers the statements run. *)
Record storing (row : Type) := {
  stored_rows : list row;
  insertedCount : nat;
  errorCount' : nat;
  statements : nat
}.
Arguments stored_rows {row}.
Arguments insertedCount {row}.
Arguments errorCount' {row}.
Arguments statements {row}.

(** The [forEach] of [storeTasks]: a task without id is skipped, the others
    run the statement; [io k] tells whether the [k]-th statement fails. *)
Definition storeTask (io : nat -> bool) (st : storing Task.row)
  (task : HarvestTask.task) : storing Task.row :=
  if falsy_id (HarvestTask.id task) then st
  else if io (statements st) then
    {| stored_rows := stored_rows st; insertedCount := insertedCount st;
       errorCount' := S (errorCount' st); statements := S (statements st) |}
  else
    {| stored_rows :=
         insert_or_replace_task (stored_rows st)
           (default 0 (HarvestTask.id task)) (HarvestTask.name task)
           (HarvestTask.is_active task);
       insertedCount := S (insertedCount st);
       errorCount' := errorCount' st; statements := S (statements st) |}.

Definition storeTasks (io : nat -> bool) (tasks : list HarvestTask.task)
  (table : list Task.row) : storing Task.row :=
  let start := {| stored_rows := table; insertedCount := 0; errorCount' := 0;
                  statements := 0 |} in
  if Nat.eqb (length tasks) 0 then start
  else fold_left (storeTask io) tasks start.

(** An activity as the Kimai API returns it. *)
Module KimaiApiActivity.
Record activity := {
  id : option Z;
  name : string;
  parentTitle : option string;
  project : option Z
}.
End KimaiApiActivity.

(** [n.toString()] for an integer of the safe range (below 2^53 in
    magnitude), where JavaScript prints every digit. *)
Definition toString (z : Z) : string := NilZero.string_of_int (Z.to_int z).

(** [activity.parentTitle ? `${activity.parentTitle}: ${activity.name}`
     : activity.name] *)
Definition taskName (activity : KimaiApiActivity.activity) : string :=
  if truthy (KimaiApiActivity.parentTitle activity) then
    (default EmptyString (KimaiApiActivity.parentTitle activity)
     ++ ": " ++ KimaiApiActivity.name activity)%string
  else KimaiApiActivity.name activity.

Definition next_activity_rowid (tasks_kimai : list KimaiActivity.row) : Z :=
  1 + fold_right (fun r acc => Z.max (KimaiActivity.id r) acc) 0 tasks_kimai.

(** The row of the [INSERT OR REPLACE INTO tasks_kimai]: the table has no
    key but its rowid, which the statement does not give, so the statement
    always adds a row. *)
Definition activity_row (tasks_kimai : list KimaiActivity.row)
  (activity : KimaiApiActivity.activity) : KimaiActivity.row :=
  {| KimaiActivity.id := next_activity_rowid tasks_kimai;
     KimaiActivity.kimai_project_id :=
       option_map toString (KimaiApiActivity.project activity);
     KimaiActivity.kimai_activity_id :=
       Some (toString (default 0 (KimaiApiActivity.id activity)));
     KimaiActivity.task_name := taskName activity;
     KimaiActivity.parent_title := or_empty (KimaiApiActivity.parentTitle activity) |}.

Definition storeKimaiActivity (io : nat -> bool) (st : storing KimaiActivity.row)
  (activity : KimaiApiActivity.activity) : storing KimaiActivity.row :=
  if falsy_id (KimaiApiActivity.id activity) then st
  else if io (statements st) then
    {| stored_rows := stored_rows st; insertedCount := insertedCount st;
       errorCount' := S (errorCount' st); statements := S (statements st) |}
  else
    {| stored_rows := stored_rows st ++ [activity_row (stored_rows st) activity];
       insertedCount := S (insertedCount st);
       errorCount' := errorCount' st; statements := S (statements st) |}.

Definition storeKimaiActivities (io : nat -> bool)
  (activities : list KimaiApiActivity.activity)
  (table : list KimaiActivity.row) : storing KimaiActivity.row :=
  let start := {| stored_rows := table; insertedCount := 0; errorCount' := 0;
                  statements := 0 |} in
  if Nat.eqb (length activities) 0 then start
  else fold_left (storeKimaiActivity io) activities start.

(** [HarvestExtractor.extractTasks]: the value it returns and the two
    tables afterwards. [tasks] and [activities] are what the two APIs
    answered. *)
Module Extracted.
Record result := {
  harvestTasks : nat;
  kimaiActivities : nat;
  matched : Z;
  tasks : list Task.row;
  tasks_kimai : list KimaiActivity.row
}.
End Extracted.

Definition extractTasks (io io' : nat -> bool) (finishes : nat -> nat)
  (tasks : list HarvestTask.task) (activities : list KimaiApiActivity.activity)
  (tasks0 : list Task.row) (tasks_kimai0 : list KimaiActivity.row)
  : Extracted.result :=
  if Nat.eqb (length tasks) 0 then
    {| Extracted.harvestTasks := 0; Extracted.kimaiActivities := 0;
       Extracted.matched := 0;
       Extracted.tasks := tasks0; Extracted.tasks_kimai := tasks_kimai0 |}
  else
    let tasks1 := stored_rows (storeTasks io tasks (truncateTasks tasks0)) in
    if Nat.eqb (length activities) 0 then
      {| Extracted.harvestTasks := length tasks; Extracted.kimaiActivities := 0;
         Extracted.matched := 0;
         Extracted.tasks := tasks1; Extracted.tasks_kimai := tasks_kimai0 |}
    else
      let tasks_kimai1 :=
        stored_rows (storeKimaiActivities io' activities
                       (truncateKimaiTasks tasks_kimai0)) in
      let matchResult := matchTasksWithActivities finishes tasks_kimai1 tasks1 in
      {| Extracted.harvestTasks := length tasks;
         Extracted.kimaiActivities := length activities;
         Extracted.matched := matched matchResult;
         Extracted.tasks := tasks_table matchResult;
         Extracted.tasks_kimai := tasks_kimai1 |}.

(** The columns of a time entry that an import run must not touch. *)
Definition same_entry_data (r r' : TimeEntry.row) : Prop :=
  TimeEntry.id r' = TimeEntry.id r
  /\ TimeEntry.harvest_id r' = TimeEntry.harvest_id r
  /\ TimeEntry.date r' = TimeEntry.date r
  /\ TimeEntry.client r' = TimeEntry.client r
  /\ TimeEntry.project r' = TimeEntry.project r
  /\ TimeEntry.task r' = TimeEntry.task r
  /\ TimeEntry.notes r' = TimeEntry.notes r
  /\ TimeEntry.hours r' = TimeEntry.hours r
  /\ TimeEntry.started_time r' = TimeEntry.started_time r
  /\ TimeEntry.ended_time r' = TimeEntry.ended_time r
  /\ TimeEntry.created_at r' = TimeEntry.created_at r.

(** A row after an import run: the same row, or the same entry marked as
    imported with a Kimai id. *)
Definition same_or_marked (r r' : TimeEntry.row) : Prop :=
  same_entry_data r r'
  /\ (r' = r \/ (TimeEntry.imported r' = 1 /\ TimeEntry.kimai_id r' <> None)).

Definition is_imported_event (ev : event) : bool :=
  match ev with Imported _ _ _ => true | _ => false end.
Definition is_failed_event (ev : event) : bool :=
  match ev with Failed _ _ => true | _ => false end.

(** All rows of a source id are marked as imported. *)
(** The events of the entries that were submitted, in the order of the
    requests, and the objects sent, each with the number of its request. *)
Definition is_submission (ev : event) : bool :=
  match ev with Skipped _ => false | _ => true end.

Definition requests (l : list event) : list (nat * Kimai.entry) :=
  let sent := List.flat_map (fun ev => match submitted ev with
                                       | Some k => [k]
                                       | None => []
                                       end) l in
  combine (seq 0 (length sent)) sent.

(** Request [n] for the object [k] was answered with an id and the row was
    marked with it. *)
Definition accepted_and_marked (createTimesheet : nat -> Kimai.entry -> option Z)
  (mark_fails : nat -> bool) (request : nat * Kimai.entry) : bool :=
  match createTimesheet (fst request) (snd request) with
  | Some _ => negb (mark_fails (fst request))
  | None => false
  end.

(** The event logged for the entry of request [n] tells the answers: it is
    [Imported] with the id Kimai answered when the row was marked, and
    [Failed] when Kimai refused the request or the row could not be
    marked. *)
Definition answered (createTimesheet : nat -> Kimai.entry -> option Z)
  (mark_fails : nat -> bool) (n : nat) (ev : event) : Prop :=
  match ev with
  | Skipped _ => False
  | Imported _ k kimaiId => createTimesheet n k = Some kimaiId /\ mark_fails n = false
  | Failed _ k =>
      createTimesheet n k = None
      \/ (createTimesheet n k <> None /\ mark_fails n = true)
  end.

Definition marked (harvestId : Z) (db : list TimeEntry.row) : Prop :=
  forall row, In row db -> TimeEntry.harvest_id row = harvestId ->
              TimeEntry.imported row = 1 /\ TimeEntry.kimai_id row <> None.

(** The last activity of the list that selects the task row with a given
    id, if there is one. *)
Fixpoint last_selecting (harvestTasks : list Task.row)
  (kimaiActivities : list KimaiActivity.row) (taskId : Z)
  : option KimaiActivity.row :=
  match kimaiActivities with
  | [] => None
  | a :: rest =>
      match last_selecting harvestTasks rest taskId with
      | Some a' => Some a'
      | None =>
          match List.find (same_name a) harvestTasks with
          | Some m => if Task.id m =? taskId then Some a else None
          | None => None
          end
      end
  end.

(** A task row carries no mapping. *)
Definition unmapped (t : Task.row) : Prop :=
  Task.kimai_project_id t = None
  /\ Task.kimai_activity_id t = None
  /\ Task.kimai_activity_name t = None.

(** A task row written by [storeTasks] for a task of the batch: no mapping,
    and the source id (not 0), name and active flag of the task. *)
Definition fresh_task_row (tasks : list HarvestTask.task) (r : Task.row) : Prop :=
  unmapped r
  /\ exists t, In t tasks /\ HarvestTask.id t = Some (Task.harvest_id r)
               /\ Task.harvest_id r <> 0
               /\ Task.name r = HarvestTask.name t
               /\ Task.is_active r = HarvestTask.is_active t.

(** The state of table [tasks] that [storeTasks] keeps: unique source ids,
    unique row ids, and every row old or fresh. *)
Definition tasks_stored (tasks : list HarvestTask.task) (table0 rows : list Task.row)
  : Prop :=
  List.NoDup (List.map Task.harvest_id rows)
  /\ List.NoDup (List.map Task.id rows)
  /\ forall r, In r rows -> In r table0 \/ fresh_task_row tasks r.

(** Sample catalogs as the two APIs return them: a task without id and a
    task with id 0 among the tasks; an activity with a parent title, one
    without, one without project, one without id. *)
Definition fetched_tasks : list HarvestTask.task :=
  [ {| HarvestTask.id := Some 900; HarvestTask.name := " Review";
       HarvestTask.is_active := true |};
    {| HarvestTask.id := None; HarvestTask.name := "Lost";
       HarvestTask.is_active := true |};
    {| HarvestTask.id := Some 0; HarvestTask.name := "Zero";
       HarvestTask.is_active := false |};
    {| HarvestTask.id := Some 901; HarvestTask.name := "website: review";
       HarvestTask.is_active := false |} ].

Definition fetched_activities : list KimaiApiActivity.activity :=
  [ {| KimaiApiActivity.id := Some 12; KimaiApiActivity.name := "Review";
       KimaiApiActivity.parentTitle := Some "Website"%string;
       KimaiApiActivity.project := Some 3 |};
    {| KimaiApiActivity.id := Some 13; KimaiApiActivity.name := "review ";
       KimaiApiActivity.parentTitle := None;
       KimaiApiActivity.project := None |};
    {| KimaiApiActivity.id := None; KimaiApiActivity.name := "Review";
       KimaiApiActivity.parentTitle := None;
       KimaiApiActivity.project := Some 4 |} ].

(** The task is stored: it has an id that is not falsy. *)
Definition has_id (task : HarvestTask.task) : bool :=
  negb (falsy_id (HarvestTask.id task)).
Definition activity_has_id (activity : KimaiApiActivity.activity) : bool :=
  negb (falsy_id (KimaiApiActivity.id activity)).

(** The rows of a list of tasks, without mapping, numbered from a row id. *)
Fixpoint numbered (rowid : Z) (tasks : list HarvestTask.task) : list Task.row :=
  match tasks with
  | [] => []
  | t :: rest =>
      {| Task.id := rowid;
         Task.harvest_id := default 0 (HarvestTask.id t);
         Task.name := HarvestTask.name t;
         Task.is_active := HarvestTask.is_active t;
         Task.kimai_project_id := None;
         Task.kimai_activity_id := None;
         Task.kimai_activity_name := None |} :: numbered (rowid + 1) rest
  end.

(** The rows of a list of activities, numbered from a row id. *)
Fixpoint activity_rows (rowid : Z) (activities : list KimaiApiActivity.activity)
  : list KimaiActivity.row :=
  match activities with
  | [] => []
  | activity :: rest =>
      {| KimaiActivity.id := rowid;
         KimaiActivity.kimai_project_id :=
           option_map toString (KimaiApiActivity.project activity);
         KimaiActivity.kimai_activity_id :=
           Some (toString (default 0 (KimaiApiActivity.id activity)));
         KimaiActivity.task_name := taskName activity;
         KimaiActivity.parent_title :=
           or_empty (KimaiApiActivity.parentTitle activity) |}
      :: activity_rows (rowid + 1) rest
  end.

(** A row of [tasks_kimai] written for an activity of the batch. *)
Definition row_of_activity (activities : list KimaiApiActivity.activity)
  (a : KimaiActivity.row) : Prop :=
  exists activity,
    In activity activities
    /\ activity_has_id activity = true
    /\ KimaiActivity.kimai_project_id a
       = option_map toString (KimaiApiActivity.project activity)
    /\ KimaiActivity.kimai_activity_id a
       = Some (toString (default 0 (KimaiApiActivity.id activity)))
    /\ KimaiActivity.task_name a = taskName activity
    /\ KimaiActivity.parent_title a = or_empty (KimaiApiActivity.parentTitle activity).

(** A row of [tasks] that holds a task of the batch. *)
Definition stored_task (tasks : list HarvestTask.task) (r : Task.row) : Prop :=
  exists t, In t tasks /\ HarvestTask.id t = Some (Task.harvest_id r)
            /\ Task.harvest_id r <> 0
            /\ Task.name r = HarvestTask.name t
            /\ Task.is_active r = HarvestTask.is_active t.

(** A row of [tasks] mapped to an activity of the batch that has the same
    normalized name: it carries the ids and the display name of that
    activity. *)
Definition mapped_by_name (activities : list KimaiApiActivity.activity)
  (r : Task.row) : Prop :=
  exists activity,
    In activity activities
    /\ activity_has_id activity = true
    /\ normalized (Task.name r) = normalized (taskName activity)
    /\ Task.kimai_project_id r
       = option_map toString (KimaiApiActivity.project activity)
    /\ Task.kimai_activity_id r
       = Some (toString (default 0 (KimaiApiActivity.id activity)))
    /\ Task.kimai_activity_name r = Some (taskName activity).

(** * Date ranges of the extraction *)

(** Day number of a civil date (year, month 1..12, day of month), the
    inverse of [civil_from_days]. *)
Definition days_from_civil (y m d : Z) : Z :=
  let y' := if m <=? 2 then y - 1 else y in
  let era := y' / 400 in
  let yoe := y' - era * 400 in
  let mp := if m <=? 2 then m + 9 else m - 3 in
  let doy := (153 * mp + 2) / 5 + d - 1 in
  let doe := yoe * 365 + yoe / 4 - yoe / 100 + doy in
  era * 146097 + doe - 719468.

(** [MakeDay(year, month, date)] (ECMA-262, 21.4.1): [month] counts from 0
    and may run over the year, [date] is any integer. *)
Definition MakeDay (year month date : Z) : Z :=
  let ym := year + month / 12 in
  let mn := month mod 12 in
  days_from_civil ym (mn + 1) 1 + date - 1.

Definition TimeWithinDay (t : Z) : Z := t mod msPerDay.

Section LocalDate.

Variable tz : zone.

(** [new Date(year, month, date)]: midnight of local time; a year from 0
    to 99 stands for 1900 + year. *)
Definition Date_of_fields (year month date : Z) : Z :=
  let yr := if (0 <=? year) && (year <=? 99) then 1900 + year else year in
  UTC tz (MakeDate (MakeDay yr month date) (MakeTime 0 0 0 0)).

(** [d.setDate(date)]: the day of the month of local time is replaced,
    the month, the year and the clock are kept. *)
Definition setDate (t date : Z) : Z :=
  let l := LocalTime tz t in
  UTC tz (MakeDate (MakeDay (YearFromDay (Day l)) (MonthFromDay (Day l)) date)
            (TimeWithinDay l)).

End LocalDate.

(** [DateUtils]. A date [YYYY-MM-DD] is the number of its day, as in the
    tables; [now] is the time value [new Date()] reads from the clock. *)
Module DateUtils.

Record range := { from : Z; to : Z }.

(** [date.toISOString().split('T')[0]]: the calendar date of the time
    value in UTC. *)
Definition formatDate (date : Z) : Z := Day date.

Section Clock.

Variable tz : zone.
Variable now : Z.

Definition getCurrentMonth : range :=
  let from := Date_of_fields tz (getFullYear tz now) (getMonth tz now) 1 in
  let to := Date_of_fields tz (getFullYear tz now) (getMonth tz now + 1) 0 in
  {| from := formatDate from; to := formatDate to |}.

Definition getYesterday : range :=
  let yesterday := setDate tz now (getDate tz now - 1) in
  let dateStr := formatDate yesterday in
  {| from := dateStr; to := dateStr |}.

End Clock.

End DateUtils.

(** Zones with daylight saving, around one change of the offset: London
    and Berlin at the end of March 2025 (2025-03-30T01:00Z), New York on
    2025-03-09T07:00Z and on 2025-11-02T06:00Z. *)
Definition london_2025 : zone :=
  changing 0 (days_from_civil 2025 3 30 * msPerDay + 1 * msPerHour) msPerHour.
Definition berlin_2025 : zone :=
  changing msPerHour (days_from_civil 2025 3 30 * msPerDay + 1 * msPerHour)
    (2 * msPerHour).
Definition new_york_spring_2025 : zone :=
  changing (-5 * msPerHour) (days_from_civil 2025 3 9 * msPerDay + 7 * msPerHour)
    (-4 * msPerHour).
Definition new_york_autumn_2025 : zone :=
  changing (-4 * msPerHour) (days_from_civil 2025 11 2 * msPerDay + 6 * msPerHour)
    (-5 * msPerHour).

(** A pending entry of a number of hours on a date, without creation
    timestamp. *)
Definition row_on (date : Z) (hours : Q) : TimeEntry.row :=
  {| TimeEntry.id := 1; TimeEntry.harvest_id := 1; TimeEntry.kimai_id := None;
     TimeEntry.date := date;
     TimeEntry.client := "Acme"; TimeEntry.project := "Website";
     TimeEntry.task := "Development"; TimeEntry.notes := "";
     TimeEntry.hours := hours;
     TimeEntry.started_time := None; TimeEntry.ended_time := None;
     TimeEntry.imported := 0; TimeEntry.created_at := None |}.

(** The month after a month (year, month 1..12). *)
Definition next_month (ym : Z * Z) : Z * Z :=
  let '(y, m) := ym in if m =? 12 then (y + 1, 1) else (y, m + 1).

(** The parts of a day number in the computation of [civil_from_days]:
    the era of 400 years, the year of the era, the month counted from
    March and the day of the month. *)
Definition month_of (mp : Z) : Z := if mp <? 10 then mp + 3 else mp - 9.
Definition year_of (era yoe mp : Z) : Z :=
  if month_of mp <=? 2 then yoe + era * 400 + 1 else yoe + era * 400.
Definition year_start (yoe : Z) : Z := 365 * yoe + yoe / 4 - yoe / 100.
Definition month_start (mp : Z) : Z := (153 * mp + 2) / 5.
Definition day_at (era yoe mp dd : Z) : Z :=
  era * 146097 + (year_start yoe + (month_start mp + dd - 1)) - 719468.
Definition parts_ok (yoe mp dd : Z) : Prop :=
  0 <= yoe <= 399 /\ 0 <= mp <= 11 /\ 1 <= dd
  /\ month_start mp + dd - 1 < month_start (mp + 1)
  /\ year_start yoe + (month_start mp + dd - 1)
     < year_start (yoe + 1) + (yoe + 1) / 400.

(** * Fetching from Harvest *)

(** How an asynchronous call ends: with a value, with an exception, or not
    within the number of requests the fuel allows. *)
Inductive outcome (R : Type) : Type :=
| Returned (r : R)
| Thrown
| Unfinished.
Arguments Returned {R} r.
Arguments Thrown {R}.
Arguments Unfinished {R}.

Module HarvestApi.

(** A page of a listing: [response.data.time_entries] or
    [response.data.tasks], and whether [response.data.links.next] is
    truthy. *)
Record response (A : Type) := { items : list A; next : bool }.
Arguments items {A}.
Arguments next {A}.

(** The [do ... while (response.data.links.next)] loop of [getTimeEntries]
    and [getTasks]; [get page] is the answer to the request for a page,
    [None] when the request throws. *)
Fixpoint pages {A : Type} (get : Z -> option (response A)) (fuel : nat)
  (all : list A) (page : Z) : outcome (list A) :=
  match fuel with
  | O => Unfinished
  | S fuel' =>
      match get page with
      | None => Thrown
      | Some response =>
          let all' := all ++ items response in
          if next response then pages get fuel' all' (page + 1)
          else Returned all'
      end
  end.

Definition getTimeEntries
  (client_get : Z -> Z -> Z -> option (response Harvest.entry))
  (fuel : nat) (from to : Z) : outcome (list Harvest.entry) :=
  pages (client_get from to) fuel [] 1.

Definition getTasks (client_get : Z -> option (response HarvestTask.task))
  (fuel : nat) : outcome (list HarvestTask.task) :=
  pages client_get fuel [] 1.

End HarvestApi.

(** [HarvestExtractor.extractTimeEntries(from, to)]: what the call returns
    and table [time_entries] afterwards. *)
Definition extractTimeEntries
  (client_get : Z -> Z -> Z -> option (HarvestApi.response Harvest.entry))
  (fuel : nat) (io : nat -> bool) (now from to : Z) (db : list TimeEntry.row)
  : outcome nat * list TimeEntry.row :=
  match HarvestApi.getTimeEntries client_get fuel from to with
  | Returned entries =>
      let result := storeHarvestEntries io now entries db in
      (Returned (length entries), time_entries result)
  | Thrown => (Thrown, db)
  | Unfinished => (Unfinished, db)
  end.

(** A Harvest that serves two pages of one entry each, and one whose
    second page fails. *)
Definition harvest_two_pages (from to page : Z)
  : option (HarvestApi.response Harvest.entry) :=
  if page =? 1 then
    Some {| HarvestApi.items := [harvest_entry 7 "a"]; HarvestApi.next := true |}
  else if page =? 2 then
    Some {| HarvestApi.items := [harvest_entry 8 "b"]; HarvestApi.next := false |}
  else None.
Definition harvest_fails_on_page_2 (from to page : Z)
  : option (HarvestApi.response Harvest.entry) :=
  if page =? 1 then
    Some {| HarvestApi.items := [harvest_entry 7 "a"]; HarvestApi.next := true |}
  else None.

(** The number of rows of [tasks] with a given name. *)
Definition tasks_named (tasks : list Task.row) (name : string) : nat :=
  length (List.filter (fun t => String.eqb name (Task.name t)) tasks).

(** Two mapped tasks with the same name and different source ids. *)
Definition tasks_same_name : list Task.row :=
  [ {| Task.id := 1; Task.harvest_id := 900; Task.name := "Development";
       Task.is_active := true; Task.kimai_project_id := Some "3"%string;
       Task.kimai_activity_id := Some "12"%string;
       Task.kimai_activity_name := Some "Development"%string |};
    {| Task.id := 2; Task.harvest_id := 901; Task.name := "Development";
       Task.is_active := true; Task.kimai_project_id := Some "4"%string;
       Task.kimai_activity_id := Some "13"%string;
       Task.kimai_activity_name := Some "Development"%string |} ].

(** * The importer before the end-time map *)

(** The revision of [KimaiImporter] in [src/kimai/import.js] that begins
    an entry at its creation timestamp or at nine: [transformEntry(entry)]
    has no map, [importTimeEntries] does not sort. *)
Module Rev2.

Section Importer.

Variable tz : zone.

Definition transformEntry (entry : Pending.entry) : Kimai.entry :=
  let beginTime :=
    match TimeEntry.created_at (Pending.te entry) with
    | Some createdAtDate =>
        let entryDate := Date_of_date (TimeEntry.date (Pending.te entry)) in
        if sameDate tz createdAtDate entryDate then createdAtDate
        else setHours tz (Date_of_date (TimeEntry.date (Pending.te entry))) 9 0 0 0
    | None =>
        setHours tz (Date_of_date (TimeEntry.date (Pending.te entry))) 9 0 0 0
    end in
  let endTime :=
    setMinutes tz beginTime
      (getMinutes tz beginTime
       + Math_round (Number_multiply (TimeEntry.hours (Pending.te entry)) 60)) in
  {| Kimai.begin := beginTime;
     Kimai.end_ := endTime;
     Kimai.description := TimeEntry.notes (Pending.te entry);
     Kimai.project := parseInt (default EmptyString (Pending.kimai_project_id entry));
     Kimai.activity := parseInt (default EmptyString (Pending.kimai_activity_id
         entry)) |}.

Record run := {
  db : list TimeEntry.row;
  imported : nat;
  failed : nat;
  calls : nat;
  log : list event
}.

Variable createTimesheet : nat -> Kimai.entry -> option Z.
Variable mark_fails : nat -> bool.

Definition importStep (st : run) (entry : Pending.entry) : run :=
  if missing_mapping entry then
    {| db := db st; imported := imported st; failed := failed st;
       calls := calls st; log := log st ++ [Skipped entry] |}
  else
    let kimaiEntry := transformEntry entry in
    match createTimesheet (calls st) kimaiEntry with
    | Some kimaiId =>
        if mark_fails (calls st) then
          {| db := db st; imported := imported st; failed := S (failed st);
             calls := S (calls st);
             log := log st ++ [Failed entry kimaiEntry] |}
        else
          {| db := markAsImported (TimeEntry.harvest_id (Pending.te entry)) kimaiId
                     (db st);
             imported := S (imported st); failed := failed st;
             calls := S (calls st);
             log := log st ++ [Imported entry kimaiEntry kimaiId] |}
    | None =>
        {| db := db st; imported := imported st; failed := S (failed st);
           calls := S (calls st);
           log := log st ++ [Failed entry kimaiEntry] |}
    end.

Definition importLoop (st : run) (entries : list Pending.entry) : run :=
  fold_left importStep entries st.

Definition importTimeEntries (time_entries0 : list TimeEntry.row)
  (tasks : list Task.row) : run :=
  let start :=
    {| db := time_entries0; imported := 0; failed := 0; calls := 0; log := [] |} in
  let entries := getAllPendingEntries time_entries0 tasks in
  if Nat.eqb (length entries) 0 then start
  else importLoop start entries.

End Importer.

End Rev2.

(** The run of the newest revision without its map. *)
Definition without_map (r : run) : Rev2.run :=
  {| Rev2.db := db r; Rev2.imported := imported r; Rev2.failed := failed r;
     Rev2.calls := calls r; Rev2.log := log r |}.

(** The dates of a list of pending entries go up strictly. *)
Definition dates_increase (entries : list Pending.entry) : Prop :=
  StronglySorted
    (fun a b => TimeEntry.date (Pending.te a) < TimeEntry.date (Pending.te b))
    entries.

(** * Properties *)

(** ** Time values *)

Example civil_from_days_samples :
  civil_from_days 0 = (1970, 1, 1)
  /\ civil_from_days (-1) = (1969, 12, 31)
  /\ civil_from_days 11016 = (2000, 2, 29)
  /\ civil_from_days day_2025_03_10 = (2025, 3, 10)
  /\ civil_from_days day_2025_03_11 = (2025, 3, 11).
Proof. repeat split. Qed.

Lemma local_clock_fields (l : Z) :
  MakeDate (Day l)
    (MakeTime (HourFromTime l) (MinFromTime l) (SecFromTime l) (msFromTime l)) = l.
Proof.
  unfold MakeDate, MakeTime, Day, HourFromTime, MinFromTime, SecFromTime,
    msFromTime, msPerDay, msPerHour, msPerMinute, msPerSecond.
  pose proof (Z.div_mod l 1000 ltac:(lia)) as H1.
  pose proof (Z.mod_pos_bound l 1000 ltac:(lia)) as B1.
  pose proof (Z.div_mod (l / 1000) 60 ltac:(lia)) as H2.
  pose proof (Z.div_mod (l / 60000) 60 ltac:(lia)) as H3.
  pose proof (Z.div_mod (l / 3600000) 24 ltac:(lia)) as H4.
  replace (l / 60000) with (l / 1000 / 60) in *
    by (rewrite Z.div_div by lia; reflexivity).
  replace (l / 3600000) with (l / 1000 / 60 / 60) in *
    by (rewrite !Z.div_div by lia; reflexivity).
  replace (l / 86400000) with (l / 1000 / 60 / 60 / 24)
    by (rewrite !Z.div_div by lia; reflexivity).
  pose proof (Z.div_mod (l / 1000 / 60 / 60) 24 ltac:(lia)) as H5.
  lia.
Qed.

(** The offsets of a zone without daylight saving. *)
Lemma LocalTime_fixed (tz t : Z) : LocalTime tz t = t + tz.
Proof. reflexivity. Qed.

Lemma UTC_fixed (tz l : Z) : UTC tz l = l - tz.
Proof. reflexivity. Qed.

(** [d.setMinutes(d.getMinutes() + n)] moves the local time by [n]
    minutes; the time value moves by as much, and by the difference of the
    offset at the time value and the offset by which the new local time is
    read. *)
Lemma setMinutes_getMinutes_local (tz : zone) (t n : Z) :
  setMinutes tz t (getMinutes tz t + n)
  = t + n * msPerMinute
    + (LocalTZA_utc tz t - LocalTZA_local tz (LocalTime tz t + n * msPerMinute)).
Proof.
  unfold setMinutes, getMinutes. cbv zeta.
  pose proof (local_clock_fields (LocalTime tz t)) as H.
  replace (MakeDate (Day (LocalTime tz t))
             (MakeTime (HourFromTime (LocalTime tz t))
                (MinFromTime (LocalTime tz t) + n)
                (SecFromTime (LocalTime tz t)) (msFromTime (LocalTime tz t))))
    with (LocalTime tz t + n * msPerMinute)
    by (unfold MakeDate, MakeTime in *; lia).
  unfold UTC. unfold LocalTime at 1. lia.
Qed.


(** East of Greenwich (and in UTC) the local day of the UTC midnight of a
    day is that day. *)
Lemma Day_local_midnight (tz date : Z) :
  0 <= tz < msPerDay -> Day (LocalTime tz (Date_of_date date)) = date.
Proof.
  rewrite LocalTime_fixed. unfold Day, Date_of_date, msPerDay. intros H.
  symmetry. apply (Z.div_unique _ _ _ tz); lia.
Qed.

(** West of Greenwich it is the day before. *)
Lemma Day_local_midnight_west (tz date : Z) :
  - msPerDay <= tz < 0 -> Day (LocalTime tz (Date_of_date date)) = date - 1.
Proof.
  rewrite LocalTime_fixed. unfold Day, Date_of_date, msPerDay. intros H.
  symmetry. apply (Z.div_unique _ _ _ (tz + 86400000)); lia.
Qed.

(** ** Reconciliation: counts *)





(** ** Reconciliation: the columns it leaves alone *)

Lemma same_import_status_refl r : same_import_status r r.
Proof. repeat split. Qed.

Lemma updated_row_status entry r : same_import_status r (updated_row entry r).
Proof.
  unfold updated_row. destruct (TimeEntry.harvest_id r =? Harvest.id entry);
    repeat split.
Qed.

Lemma same_import_status_trans r1 r2 r3 :
  same_import_status r1 r2 -> same_import_status r2 r3 -> same_import_status r1 r3.
Proof. unfold same_import_status. intuition congruence. Qed.

Lemma has_harvest_id_app l1 l2 h :
  has_harvest_id (l1 ++ l2) h = has_harvest_id l1 h || has_harvest_id l2 h.
Proof. unfold has_harvest_id. apply existsb_app. Qed.

(** The insert phase only appends rows; each appended row is pending, has
    no destination id, and its source id was not in the table before. *)
Lemma insertPhase_rows io now (newEntries : list Harvest.entry) :
  forall k st, exists added,
    rows (insertPhase io now k newEntries st) = rows st ++ added
    /\ Forall (fun r => TimeEntry.imported r = 0
                        /\ TimeEntry.kimai_id r = None
                        /\ has_harvest_id (rows st) (TimeEntry.harvest_id r) = false)
              added.
Proof.
  induction newEntries as [|e l IH]; intros k st; simpl.
  - exists []. split; [symmetry; apply app_nil_r | constructor].
  - destruct (io k || has_harvest_id (rows st) (Harvest.id e)) eqn:E.
    + destruct (IH (S k) {| rows := rows st; doneCount := doneCount st;
                            errorCount := S (errorCount st) |}) as (added & Hr & Ha).
      exists added. split; assumption.
    + apply orb_false_iff in E as [_ E].
      destruct (IH (S k) {| rows := rows st ++ [inserted_row now (rows st) e];
                            doneCount := S (doneCount st);
                            errorCount := errorCount st |}) as (added & Hr & Ha).
      exists (inserted_row now (rows st) e :: added). simpl in *. split.
      * rewrite Hr, <- app_assoc. reflexivity.
      * constructor; [repeat split; assumption|].
        eapply List.Forall_impl; [|exact Ha]. intros r (H1 & H2 & H3).
        rewrite has_harvest_id_app in H3. apply orb_false_iff in H3 as [H3 _].
        repeat split; assumption.
Qed.

(** The update phase keeps the table row by row. *)
Lemma updatePhase_rows io (updatedEntries : list Harvest.entry) :
  forall k st,
    Forall2 same_import_status (rows st) (rows (updatePhase io k updatedEntries st)).
Proof.
  induction updatedEntries as [|e l IH]; intros k st; simpl.
  - induction (rows st); constructor;
      [apply same_import_status_refl | assumption].
  - destruct (io k).
    + apply (IH (S k) {| rows := rows st; doneCount := doneCount st;
                         errorCount := S (errorCount st) |}).
    + specialize (IH (S k) {| rows := List.map (updated_row e) (rows st);
                              doneCount := S (doneCount st);
                              errorCount := errorCount st |}).
      simpl in IH.
      eapply Forall2_trans; [apply same_import_status_trans| |exact IH].
      clear IH. induction (rows st) as [|r rs IHr]; simpl; constructor.
      * apply updated_row_status.
      * exact IHr.
Qed.

Lemma Forall2_In_r {A B} (P : A -> B -> Prop) l k y :
  Forall2 P l k -> In y k -> exists x, In x l /\ P x y.
Proof.
  induction 1 as [|x y' l k Hxy _ IH]; simpl; [tauto|].
  intros [<-|Hy]; [exists x; auto|].
  destruct (IH Hy) as (x' & Hx' & HP). exists x'. auto.
Qed.

(** The table after a reconciliation: the old rows, kept in place with
    their import status, followed by the rows inserted. *)
Lemma storeHarvestEntries_rows io now entries db :
  exists kept added,
    time_entries (storeHarvestEntries io now entries db) = kept ++ added
    /\ Forall2 same_import_status db kept
    /\ Forall (fun r => TimeEntry.imported r = 0
                        /\ TimeEntry.kimai_id r = None
                        /\ has_harvest_id db (TimeEntry.harvest_id r) = false)
              added.
Proof.
  assert (Hrefl : forall l, Forall2 same_import_status l l).
  { induction l; constructor; [apply same_import_status_refl | assumption]. }
  unfold storeHarvestEntries.
  destruct (Nat.eqb (length entries) 0).
  { exists db, []. simpl. rewrite app_nil_r. repeat split; [apply Hrefl | constructor]. }
  set (existing := select_existing _ db).
  set (news := List.filter (fun e => is_new (classify existing e)) entries).
  set (upds := List.filter (fun e => is_changed (classify existing e)) entries).
  set (start := {| rows := db; doneCount := 0; errorCount := 0 |}).
  set (ins := if Nat.ltb 0 (length news) then insertPhase io now 0 news start else start).
  assert (Hins : exists added, rows ins = db ++ added
            /\ Forall (fun r => TimeEntry.imported r = 0
                                /\ TimeEntry.kimai_id r = None
                                /\ has_harvest_id db (TimeEntry.harvest_id r) = false)
                      added).
  { subst ins. destruct (Nat.ltb 0 (length news)).
    - apply (insertPhase_rows io now news 0 start).
    - exists []. simpl. rewrite app_nil_r. split; [reflexivity | constructor]. }
  destruct Hins as (added & Hrows & Hadded).
  set (ustart := {| rows := rows ins; doneCount := 0; errorCount := 0 |}).
  assert (Hupd : Forall2 same_import_status (rows ins)
                   (rows (if Nat.ltb 0 (length upds)
                          then updatePhase io (length news) upds ustart else ustart))).
  { destruct (Nat.ltb 0 (length upds)).
    - apply (updatePhase_rows io upds (length news) ustart).
    - apply Hrefl. }
  simpl. rewrite Hrows in Hupd.
  apply Forall2_app_inv_l in Hupd as (kept & added' & Hk & Ha & Heq).
  exists kept, added'. split; [|split]; [| exact Hk |].
  - fold ustart. rewrite <- Heq. reflexivity.
  - clear - Hadded Ha. induction Ha as [|x y l k (H1 & H2 & H3 & H4 & H5) _ IH];
      [constructor|].
    inversion Hadded as [|? ? (Hi & Hk & Hh) Hrest]; subst.
    constructor; [|apply IH; exact Hrest].
    rewrite H3, H4, H2. repeat split; assumption.
Qed.

(** ** The importer: what a run logs and what it writes *)

Lemma markAsImported_ok harvestId kimaiId db :
  imported_has_kimai_id db = true ->
  imported_has_kimai_id (markAsImported harvestId kimaiId db) = true.
Proof.
  unfold imported_has_kimai_id, markAsImported.
  induction db as [|r db IH]; simpl; [reflexivity|].
  intros H. apply andb_true_iff in H as [Hr Hdb].
  rewrite (IH Hdb), andb_true_r.
  destruct (TimeEntry.harvest_id r =? harvestId); [reflexivity | exact Hr].
Qed.

Lemma In_insert_by_date x e l :
  In x (insert_by_date e l) <-> x = e \/ In x l.
Proof.
  induction l as [|y l IH]; simpl; [intuition|].
  destruct (_ <=? 0); simpl; [intuition|].
  rewrite IH. intuition.
Qed.

Lemma In_sort_by_date x l : In x (sort_by_date l) <-> In x l.
Proof.
  induction l as [|e l IH]; simpl; [reflexivity|].
  rewrite In_insert_by_date, IH. intuition.
Qed.

Lemma In_left_join tasks r p : In p (left_join tasks r) -> Pending.te p = r.
Proof.
  unfold left_join.
  destruct (List.filter _ tasks) as [|t ts]; simpl.
  - intros [<-|[]]. reflexivity.
  - intros [<-|H]; [reflexivity|].
    apply in_map_iff in H as (t' & <- & _). reflexivity.
Qed.

(** Pending entries are rows of the table that are not imported. *)
Lemma In_getAllPendingEntries db tasks p :
  In p (getAllPendingEntries db tasks) ->
  In (Pending.te p) db /\ TimeEntry.imported (Pending.te p) = 0.
Proof.
  unfold getAllPendingEntries. intros H.
  apply filter_In in H as [H Hi]. apply Z.eqb_eq in Hi. split; [|exact Hi].
  apply in_flat_map in H as (r & Hr & Hp).
  apply In_left_join in Hp. rewrite Hp. exact Hr.
Qed.

Section ImporterFacts.

Variable tz : zone.
Variable createTimesheet : nat -> Kimai.entry -> option Z.
Variable mark_fails : nat -> bool.

Lemma importStep_log st e :
  exists ev, log (importStep tz createTimesheet mark_fails st e) = log st ++ [ev] /\
      event_entry ev = e.
Proof.
  unfold importStep. destruct (missing_mapping e).
  - eexists. split; reflexivity.
  - destruct (transformEntry tz e (dateEndTimeMap st)) as [k m'].
    destruct (createTimesheet (calls st) k); [destruct (mark_fails (calls st))|];
      eexists; split; reflexivity.
Qed.

(** Every entry of the loop leaves exactly one event, in order. *)
Lemma importLoop_log entries :
  forall st, exists evs,
    log (importLoop tz createTimesheet mark_fails st entries) = log st ++ evs /\
        List.map event_entry evs = entries.
Proof.
  induction entries as [|e l IH]; intros st; simpl.
  - exists []. split; [symmetry; apply app_nil_r | reflexivity].
  - destruct (importStep_log st e) as (ev & Hev & He).
    destruct (IH (importStep tz createTimesheet mark_fails st e)) as (evs & Hl & Hm).
    exists (ev :: evs). split.
    + unfold importLoop in *. simpl. rewrite Hl, Hev, <- app_assoc.
      reflexivity.
    + simpl. rewrite He, Hm. reflexivity.
Qed.

Lemma importStep_ok st e :
  imported_has_kimai_id (db st) = true ->
  imported_has_kimai_id (db (importStep tz createTimesheet mark_fails st e)) = true.
Proof.
  intros H. unfold importStep. destruct (missing_mapping e); [exact H|].
  destruct (transformEntry tz e (dateEndTimeMap st)) as [k m'].
  destruct (createTimesheet (calls st) k); [destruct (mark_fails (calls st))|]; simpl;
      try exact H.
  apply markAsImported_ok. exact H.
Qed.

Lemma importLoop_ok entries :
  forall st, imported_has_kimai_id (db st) = true ->
             imported_has_kimai_id (db (importLoop tz createTimesheet mark_fails st
                 entries)) = true.
Proof.
  induction entries as [|e l IH]; intros st H; simpl; [exact H|].
  apply IH. apply importStep_ok. exact H.
Qed.

(** The events of a whole run are about pending entries of the table. *)
Lemma importTimeEntries_log db0 tasks ev :
  In ev (log (importTimeEntries tz createTimesheet mark_fails db0 tasks)) ->
  In (event_entry ev) (getAllPendingEntries db0 tasks).
Proof.
  unfold importTimeEntries.
  destruct (Nat.eqb (length (getAllPendingEntries db0 tasks)) 0); [intros []|].
  match goal with |- In ev (log (importLoop _ _ _ ?s ?l)) -> _ =>
    destruct (importLoop_log l s) as (evs & Hl & Hm) end.
  rewrite Hl. simpl. intros H.
  apply In_sort_by_date. rewrite <- Hm. apply in_map. exact H.
Qed.

End ImporterFacts.

(** ** C9 and C4: the import status of stored entries *)

Lemma same_import_status_ok r r' :
  same_import_status r r' -> row_ok r' = row_ok r.
Proof. intros (_ & _ & Hi & Hk & _). unfold row_ok. rewrite Hi, Hk. reflexivity. Qed.

Lemma storeHarvestEntries_ok io now entries db :
  imported_has_kimai_id db = true ->
  imported_has_kimai_id (time_entries (storeHarvestEntries io now entries db)) = true.
Proof.
  intros H.
  destruct (storeHarvestEntries_rows io now entries db) as (kept & added & -> & Hk & Ha).
  unfold imported_has_kimai_id in *. rewrite forallb_app. apply andb_true_iff. split.
  - clear Ha. induction Hk as [|r r' l k Hs _ IH]; [reflexivity|].
    simpl in *. apply andb_true_iff in H as [Hr Hl].
    rewrite (same_import_status_ok _ _ Hs), Hr. apply IH. exact Hl.
  - clear - Ha. induction Ha as [|r l (Hi & _) _ IH]; [reflexivity|].
    simpl. rewrite IH, andb_true_r. unfold row_ok. rewrite Hi. reflexivity.
Qed.

(** C9. Every operation on table [time_entries] keeps the invariant that
    an imported row has its Kimai id: a reconciliation (rows are inserted
    with [imported = 0] and no Kimai id, an update keeps both columns),
    [markAsImported] (it sets [imported = 1] together with the Kimai id),
    and a whole import run. *)
Theorem imported_implies_kimai_id_is_invariant
  (db0 : list TimeEntry.row) (H : imported_has_kimai_id db0 = true) :
  (forall io now entries,
      imported_has_kimai_id
        (time_entries (storeHarvestEntries io now entries db0)) = true)
  /\ (forall harvestId kimaiId,
        imported_has_kimai_id (markAsImported harvestId kimaiId db0) = true
        /\ forall r, In r (markAsImported harvestId kimaiId db0) ->
                     TimeEntry.harvest_id r = harvestId ->
                     TimeEntry.imported r = 1
                     /\ TimeEntry.kimai_id r = Some kimaiId)
  /\ (forall tz createTimesheet mark_fails tasks,
        imported_has_kimai_id
          (db (importTimeEntries tz createTimesheet mark_fails db0 tasks)) = true)
  /\ (forall now rows entry,
        TimeEntry.imported (inserted_row now rows entry) = 0
        /\ TimeEntry.kimai_id (inserted_row now rows entry) = None)
  /\ (forall entry r,
        TimeEntry.imported (updated_row entry r) = TimeEntry.imported r
        /\ TimeEntry.kimai_id (updated_row entry r) = TimeEntry.kimai_id r).
Proof.
  split; [|split; [|split; [|split]]].
  - intros. apply storeHarvestEntries_ok. exact H.
  - intros harvestId kimaiId. split; [apply markAsImported_ok; exact H|].
    intros r Hr Hh. unfold markAsImported in Hr.
    apply in_map_iff in Hr as (r0 & Hr0 & _).
    destruct (TimeEntry.harvest_id r0 =? harvestId) eqn:E.
    + subst r. split; reflexivity.
    + subst r. apply Z.eqb_neq in E. contradiction.
  - intros tz createTimesheet mark_fails tasks. unfold importTimeEntries.
    destruct (Nat.eqb _ 0); [exact H|]. apply importLoop_ok. exact H.
  - intros. split; reflexivity.
  - intros entry r. destruct (updated_row_status entry r) as (_ & _ & Hi & Hk & _).
    split; assumption.
Qed.

(** C4. A reconciliation keeps every stored row in place with its row id,
    source id, [imported] flag, Kimai id and creation timestamp: an update
    writes only the compared columns. Hence a source id whose rows are all
    imported stays out of the pending entries, and the import run that
    follows logs nothing for it: neither a submission nor a skip. *)
Theorem reconciliation_keeps_import_status
  (io : nat -> bool) (now : Z) (entries : list Harvest.entry)
  (db0 : list TimeEntry.row) :
  let db1 := time_entries (storeHarvestEntries io now entries db0) in
  (forall (i : nat) r, db0 !! i = Some r ->
      exists r', db1 !! i = Some r' /\ same_import_status r r')
  /\ (forall tz createTimesheet mark_fails tasks harvestId,
        In harvestId (List.map TimeEntry.harvest_id db0) ->
        (forall r, In r db0 -> TimeEntry.harvest_id r = harvestId ->
                   TimeEntry.imported r = 1) ->
        forall ev, In ev (log (importTimeEntries tz createTimesheet mark_fails db1
            tasks)) ->
                   TimeEntry.harvest_id (Pending.te (event_entry ev)) <> harvestId).
Proof.
  cbv zeta.
  destruct (storeHarvestEntries_rows io now entries db0) as (kept & added & -> & Hk & Ha).
  split.
  - intros i r Hi.
    destruct (Forall2_lookup_l _ _ _ _ _ Hk Hi) as (r' & Hr' & Hs).
    exists r'. split; [|exact Hs]. apply lookup_app_l_Some. exact Hr'.
  - intros tz createTimesheet mark_fails tasks harvestId Hin Hall ev Hev Heq.
    apply importTimeEntries_log in Hev.
    apply In_getAllPendingEntries in Hev as [Hrow Hpending].
    apply in_app_or in Hrow as [Hrow|Hrow].
    + destruct (Forall2_In_r _ _ _ _ Hk Hrow) as (r & Hr & (_ & Hh & Hi & _)).
      rewrite Heq in Hh. rewrite Hpending in Hi.
      specialize (Hall r Hr (eq_sym Hh)). congruence.
    + rewrite List.Forall_forall in Ha. destruct (Ha _ Hrow) as (_ & _ & Hfresh).
      rewrite Heq in Hfresh. unfold has_harvest_id in Hfresh.
      apply in_map_iff in Hin as (r & Hr & Hr').
      assert (existsb (fun r => TimeEntry.harvest_id r =? harvestId) db0 = true).
      { apply existsb_exists. exists r. split; [exact Hr' | apply Z.eqb_eq; exact Hr]. }
      congruence.
Qed.

(** ** Reconciliation: looking up the stored row of a source id *)

Lemma get_harvest_id db h r :
  existingEntriesMap_get db h = Some r -> TimeEntry.harvest_id r = h.
Proof.
  induction db as [|x db IH]; simpl; [discriminate|].
  destruct (existingEntriesMap_get db h) as [r'|].
  - intros [= <-]. apply IH. reflexivity.
  - destruct (TimeEntry.harvest_id x =? h) eqn:E; [|discriminate].
    intros [= <-]. apply Z.eqb_eq. exact E.
Qed.

Lemma get_app l1 l2 h :
  existingEntriesMap_get (l1 ++ l2) h
  = match existingEntriesMap_get l2 h with
    | Some r => Some r
    | None => existingEntriesMap_get l1 h
    end.
Proof.
  induction l1 as [|x l1 IH]; simpl.
  - destruct (existingEntriesMap_get l2 h); reflexivity.
  - rewrite IH. destruct (existingEntriesMap_get l2 h); reflexivity.
Qed.

(** The map built from the selected rows answers as the whole table does,
    for the ids that were selected. *)
Lemma get_select_existing ids db h :
  In h ids ->
  existingEntriesMap_get (select_existing ids db) h = existingEntriesMap_get db h.
Proof.
  intros Hin. unfold select_existing.
  induction db as [|x db IH]; simpl; [reflexivity|].
  destruct (existsb (Z.eqb (TimeEntry.harvest_id x)) ids) eqn:E; simpl; rewrite IH.
  - reflexivity.
  - destruct (existingEntriesMap_get db h); [reflexivity|].
    destruct (TimeEntry.harvest_id x =? h) eqn:E'; [|reflexivity].
    apply Z.eqb_eq in E'. exfalso.
    assert (existsb (Z.eqb (TimeEntry.harvest_id x)) ids = true); [|congruence].
    apply existsb_exists. exists h. split; [exact Hin | apply Z.eqb_eq; exact E'].
Qed.

Lemma get_map (f : TimeEntry.row -> TimeEntry.row) db h :
  (forall r, TimeEntry.harvest_id (f r) = TimeEntry.harvest_id r) ->
  existingEntriesMap_get (List.map f db) h = option_map f (existingEntriesMap_get db h).
Proof.
  intros Hf. induction db as [|x db IH]; simpl; [reflexivity|].
  rewrite IH, Hf. destruct (existingEntriesMap_get db h); simpl; [reflexivity|].
  destruct (TimeEntry.harvest_id x =? h); reflexivity.
Qed.

Lemma updated_row_harvest_id entry r :
  TimeEntry.harvest_id (updated_row entry r) = TimeEntry.harvest_id r.
Proof. apply updated_row_status. Qed.

Lemma updated_row_other entry r :
  TimeEntry.harvest_id r <> Harvest.id entry -> updated_row entry r = r.
Proof.
  intros H. unfold updated_row. apply Z.eqb_neq in H. rewrite H. reflexivity.
Qed.

Lemma get_updated_other entry db h :
  h <> Harvest.id entry ->
  existingEntriesMap_get (List.map (updated_row entry) db) h
  = existingEntriesMap_get db h.
Proof.
  intros Hne. rewrite get_map by apply updated_row_harvest_id.
  destruct (existingEntriesMap_get db h) as [r|] eqn:E; simpl; [|reflexivity].
  apply get_harvest_id in E. rewrite updated_row_other; [reflexivity | congruence].
Qed.

Lemma strict_eq_bound v : v <> Undefined -> strict_eq (bound v) v = true.
Proof. destruct v; simpl; [congruence | reflexivity | intros _; apply
    String.eqb_refl]. Qed.

Lemma Qeq_bool_refl q : Qeq_bool q q = true.
Proof. apply Qeq_bool_iff. reflexivity. Qed.

Lemma times_given_spec entry :
  times_given entry = true ->
  Harvest.started_time entry <> Undefined /\ Harvest.ended_time entry <> Undefined.
Proof.
  unfold times_given.
  destruct (Harvest.started_time entry), (Harvest.ended_time entry);
    intros H; split; congruence.
Qed.

Lemma strict_eq_eq a b : strict_eq a b = true -> a = bound b.
Proof.
  destruct a, b; simpl; try discriminate; [|reflexivity].
  intros H. apply String.eqb_eq in H. congruence.
Qed.

(** After its UPDATE, and after its INSERT, a row holds the entry. *)
Lemma stored_as_updated_row entry r :
  TimeEntry.harvest_id r = Harvest.id entry -> stored_as entry (updated_row entry r).
Proof.
  intros H. unfold updated_row. pose proof H as H'. apply Z.eqb_eq in H'.
  rewrite H'. unfold stored_as. simpl. repeat split; try assumption; reflexivity.
Qed.

Lemma stored_as_inserted_row now rows entry :
  stored_as entry (inserted_row now rows entry).
Proof. unfold stored_as. simpl. repeat split; reflexivity. Qed.

(** A row that holds an entry compares equal to it when the entry carries
    its times; a row that compares equal holds the entry. *)
Lemma hasChanged_stored_as entry r :
  times_given entry = true -> stored_as entry r -> hasChanged r entry = false.
Proof.
  intros Ht (_ & H1 & H2 & H3 & H4 & H5 & H6 & H7 & H8).
  apply times_given_spec in Ht as [Hs He].
  unfold hasChanged. rewrite H1, H2, H3, H4, H5, H7, H8.
  rewrite Z.eqb_refl, !String.eqb_refl, !strict_eq_bound by assumption.
  apply Qeq_bool_iff in H6. rewrite H6. reflexivity.
Qed.

Lemma stored_as_unchanged entry r :
  TimeEntry.harvest_id r = Harvest.id entry ->
  hasChanged r entry = false -> stored_as entry r.
Proof.
  intros Hid Eh. unfold hasChanged in Eh. repeat rewrite orb_false_iff in Eh.
  destruct Eh as (((((((E1 & E2) & E3) & E4) & E5) & E6) & E7) & E8).
  apply negb_false_iff in E1, E2, E3, E4, E5, E6, E7, E8.
  apply Z.eqb_eq in E1. apply String.eqb_eq in E2, E3, E4, E5.
  apply Qeq_bool_iff in E6. apply strict_eq_eq in E7, E8.
  unfold stored_as. repeat split; assumption.
Qed.

(** An entry without [started_time] or without [ended_time] compares
    changed with every row. *)
Lemma hasChanged_without_times r entry :
  times_given entry = false -> hasChanged r entry = true.
Proof.
  unfold times_given, hasChanged. intros H.
  destruct (Harvest.started_time entry) eqn:Es.
  - destruct (TimeEntry.started_time r); simpl; rewrite !orb_true_r; reflexivity.
  - destruct (Harvest.ended_time entry) eqn:Ee; try discriminate.
    destruct (TimeEntry.ended_time r); simpl; rewrite !orb_true_r; reflexivity.
  - destruct (Harvest.ended_time entry) eqn:Ee; try discriminate.
    destruct (TimeEntry.ended_time r); simpl; rewrite !orb_true_r; reflexivity.
Qed.

(** ** Reconciliation: a run without row errors settles its batch *)

Lemma classify_ext db db' entry :
  existingEntriesMap_get db' (Harvest.id entry)
  = existingEntriesMap_get db (Harvest.id entry) ->
  classify db' entry = classify db entry.
Proof. unfold classify. intros ->. reflexivity. Qed.

Lemma errorCount_insertPhase io now l :
  forall k st, (errorCount st <= errorCount (insertPhase io now k l st))%nat.
Proof.
  induction l as [|e l IH]; intros k st; simpl; [lia|].
  destruct (io k || has_harvest_id (rows st) (Harvest.id e));
    etransitivity; [| apply IH | | apply IH]; simpl; lia.
Qed.

Lemma errorCount_updatePhase io l :
  forall k st, (errorCount st <= errorCount (updatePhase io k l st))%nat.
Proof.
  induction l as [|e l IH]; intros k st; simpl; [lia|].
  destruct (io k); etransitivity; [| apply IH | | apply IH]; simpl; lia.
Qed.

Lemma insertPhase_settles io now l :
  forall k st,
    errorCount (insertPhase io now k l st) = errorCount st ->
    List.NoDup (List.map Harvest.id l) ->
    (forall e, In e l ->
       exists r, existingEntriesMap_get (rows (insertPhase io now k l st))
                   (Harvest.id e) = Some r
                 /\ stored_as e r)
    /\ (forall h, ~ In h (List.map Harvest.id l) ->
          existingEntriesMap_get (rows (insertPhase io now k l st)) h
          = existingEntriesMap_get (rows st) h).
Proof.
  induction l as [|e l IH]; intros k st Herr Hnd; simpl in *.
  - split; [intros e [] | reflexivity].
  - inversion Hnd as [|? ? Hnotin Hnd']; subst.
    destruct (io k || has_harvest_id (rows st) (Harvest.id e)) eqn:E.
    + pose proof (errorCount_insertPhase io now l (S k)
        {| rows := rows st; doneCount := doneCount st;
           errorCount := S (errorCount st) |}) as Hm.
      simpl in Hm. lia.
    + set (st' := {| rows := rows st ++ [inserted_row now (rows st) e];
                     doneCount := S (doneCount st);
                     errorCount := errorCount st |}) in *.
      destruct (IH (S k) st' Herr Hnd') as [IH1 IH2].
      assert (Hget : existingEntriesMap_get (rows st') (Harvest.id e)
                     = Some (inserted_row now (rows st) e)).
      { simpl. rewrite get_app. simpl. rewrite Z.eqb_refl. reflexivity. }
      split.
      * intros e' [<-|He']; [|apply IH1; exact He'].
        exists (inserted_row now (rows st) e).
        rewrite (IH2 _ Hnotin), Hget. split; [reflexivity|].
        apply stored_as_inserted_row.
      * intros h Hh. rewrite IH2 by tauto. simpl. rewrite get_app. simpl.
        destruct (Harvest.id e =? h) eqn:E'; [|reflexivity].
        apply Z.eqb_eq in E'. tauto.
Qed.

Lemma updatePhase_settles io l :
  forall k st,
    errorCount (updatePhase io k l st) = errorCount st ->
    List.NoDup (List.map Harvest.id l) ->
    (forall e, In e l ->
       existingEntriesMap_get (rows st) (Harvest.id e) <> None) ->
    (forall e, In e l ->
       exists r, existingEntriesMap_get (rows (updatePhase io k l st))
                   (Harvest.id e) = Some r
                 /\ stored_as e r)
    /\ (forall h, ~ In h (List.map Harvest.id l) ->
          existingEntriesMap_get (rows (updatePhase io k l st)) h
          = existingEntriesMap_get (rows st) h).
Proof.
  induction l as [|e l IH]; intros k st Herr Hnd Hsome; simpl in *.
  - split; [intros e [] | reflexivity].
  - inversion Hnd as [|? ? Hnotin Hnd']; subst.
    destruct (io k) eqn:E.
    + pose proof (errorCount_updatePhase io l (S k)
        {| rows := rows st; doneCount := doneCount st;
           errorCount := S (errorCount st) |}) as Hm.
      simpl in Hm. lia.
    + set (st' := {| rows := List.map (updated_row e) (rows st);
                     doneCount := S (doneCount st);
                     errorCount := errorCount st |}) in *.
      assert (Hsome' : forall e', In e' l ->
                existingEntriesMap_get (rows st') (Harvest.id e') <> None).
      { intros e' He'. simpl. rewrite get_map by apply updated_row_harvest_id.
        specialize (Hsome e' (or_intror He')).
        destruct (existingEntriesMap_get (rows st) (Harvest.id e')); simpl; congruence. }
      destruct (IH (S k) st' Herr Hnd' Hsome') as [IH1 IH2].
      split.
      * intros e' [<-|He']; [|apply IH1; exact He'].
        rewrite (IH2 _ Hnotin). simpl.
        rewrite get_map by apply updated_row_harvest_id.
        specialize (Hsome e (or_introl eq_refl)).
        destruct (existingEntriesMap_get (rows st) (Harvest.id e)) as [r|] eqn:Er;
          [|congruence].
        simpl. exists (updated_row e r). split; [reflexivity|].
        apply stored_as_updated_row. eapply get_harvest_id; exact Er.
      * intros h Hh. rewrite IH2 by tauto. simpl.
        apply get_updated_other. intros ->. tauto.
Qed.

Lemma insertPhase_guard io now k l st :
  (if Nat.ltb 0 (length l) then insertPhase io now k l st else st)
  = insertPhase io now k l st.
Proof. destruct l; reflexivity. Qed.

Lemma updatePhase_guard io k l st :
  (if Nat.ltb 0 (length l) then updatePhase io k l st else st)
  = updatePhase io k l st.
Proof. destruct l; reflexivity. Qed.

Lemma NoDup_map_filter {A B} (f : A -> B) (p : A -> bool) l :
  List.NoDup (List.map f l) -> List.NoDup (List.map f (List.filter p l)).
Proof.
  induction l as [|x l IH]; simpl; [intros; constructor|].
  intros H. inversion H as [|? ? Hx Hl]; subst.
  destruct (p x); simpl; [|apply IH; exact Hl].
  constructor; [|apply IH; exact Hl].
  intros Hin. apply Hx. apply in_map_iff in Hin as (y & Hy & Hin).
  apply filter_In in Hin as [Hin _]. apply in_map_iff. exists y. auto.
Qed.

Lemma NoDup_map_inj {A B} (f : A -> B) l x y :
  List.NoDup (List.map f l) -> In x l -> In y l -> f x = f y -> x = y.
Proof.
  induction l as [|a l IH]; simpl; [tauto|].
  intros H. inversion H as [|? ? Ha Hl]; subst.
  intros [->|Hx] [->|Hy] Heq; auto.
  - exfalso. apply Ha. rewrite Heq. apply in_map. exact Hy.
  - exfalso. apply Ha. rewrite <- Heq. apply in_map. exact Hx.
Qed.

Lemma classify_select_existing entries db e :
  In e entries ->
  classify (select_existing (List.map Harvest.id entries) db) e = classify db e.
Proof.
  intros He. apply classify_ext, get_select_existing, in_map. exact He.
Qed.

(** The batch filters of [storeHarvestEntries], read against the table. *)
Lemma filter_classify (q : classification -> bool) entries db :
  List.filter (fun e => q (classify (select_existing (List.map Harvest.id entries) db) e))
    entries
  = List.filter (fun e => q (classify db e)) entries.
Proof.
  apply filter_ext_in. intros e He. rewrite classify_select_existing by exact He.
  reflexivity.
Qed.

(** After a call whose rows all succeeded, on a batch with pairwise
    distinct source ids, every entry of the batch is held by the row of
    its source id. *)
Lemma storeHarvestEntries_holds io now entries db :
  List.NoDup (List.map Harvest.id entries) ->
  insertErrorCount (storeHarvestEntries io now entries db) = 0%nat ->
  updateErrorCount (storeHarvestEntries io now entries db) = 0%nat ->
  forall e, In e entries ->
    exists r,
      existingEntriesMap_get (time_entries (storeHarvestEntries io now entries db))
        (Harvest.id e) = Some r
      /\ stored_as e r.
Proof.
  intros Hnd. unfold storeHarvestEntries.
  destruct (Nat.eqb (length entries) 0) eqn:Elen.
  { destruct entries; [intros _ _ e [] | discriminate]. }
  rewrite !filter_classify. rewrite insertPhase_guard, updatePhase_guard.
  set (news := List.filter (fun e => is_new (classify db e)) entries).
  set (upds := List.filter (fun e => is_changed (classify db e)) entries).
  set (ins := insertPhase io now 0 news _).
  set (upd := updatePhase io (length news) upds _).
  simpl. intros Hie Hue.
  assert (Hnews : forall e, In e news <-> In e entries /\ classify db e = IsNew).
  { intros e. unfold news. rewrite filter_In.
    destruct (classify db e); simpl; intuition congruence. }
  assert (Hupds : forall e, In e upds <-> In e entries /\ classify db e = IsChanged).
  { intros e. unfold upds. rewrite filter_In.
    destruct (classify db e); simpl; intuition congruence. }
  destruct (insertPhase_settles io now news 0
              {| rows := db; doneCount := 0; errorCount := 0 |})
    as [Hi1 Hi2]; [exact Hie | apply NoDup_map_filter; exact Hnd |].
  fold ins in Hi1, Hi2. simpl in Hi2.
  assert (Hnew_id : forall e, In (Harvest.id e) (List.map Harvest.id news) ->
                              existingEntriesMap_get db (Harvest.id e) = None).
  { intros e Hin. apply in_map_iff in Hin as (e' & Heq & He').
    apply Hnews in He' as [_ Hc]. unfold classify in Hc. rewrite Heq in Hc.
    destruct (existingEntriesMap_get db (Harvest.id e)) as [r|]; [|reflexivity].
    destruct (hasChanged r e'); discriminate. }
  destruct (updatePhase_settles io upds (length news)
              {| rows := rows ins; doneCount := 0; errorCount := 0 |})
    as [Hu1 Hu2]; [exact Hue | apply NoDup_map_filter; exact Hnd | |].
  { intros e He. simpl. apply Hupds in He as [He Hc].
    rewrite Hi2.
    - unfold classify in Hc.
      destruct (existingEntriesMap_get db (Harvest.id e)); discriminate.
    - intros Hin. apply Hnew_id in Hin. unfold classify in Hc. rewrite Hin in Hc.
      discriminate. }
  fold upd in Hu1, Hu2. simpl in Hu2.
  intros e He. destruct (classify db e) eqn:Hc.
  - assert (Hin : In e news) by (apply Hnews; auto).
    destruct (Hi1 e Hin) as (r & Hr & Hs). exists r. split; [|exact Hs].
    rewrite <- Hr. apply Hu2.
    intros Hu. apply in_map_iff in Hu as (e' & Heq & He').
    apply Hupds in He' as [_ Hc']. unfold classify in Hc, Hc'. rewrite Heq in Hc'.
    destruct (existingEntriesMap_get db (Harvest.id e)) as [r'|]; [|discriminate].
    destruct (hasChanged r' e); discriminate.
  - apply Hu1. apply Hupds. auto.
  - unfold classify in Hc.
    destruct (existingEntriesMap_get db (Harvest.id e)) as [r|] eqn:Er;
      [|discriminate].
    destruct (hasChanged r e) eqn:Eh; [discriminate|].
    exists r. split.
    + rewrite Hu2, Hi2; [exact Er | |].
      * intros Hin. apply Hnew_id in Hin. congruence.
      * intros Hu. apply in_map_iff in Hu as (e' & Heq & He').
        apply Hupds in He' as [He' Hc'].
        assert (e' = e) by (eapply NoDup_map_inj; eauto). subst e'.
        unfold classify in Hc'. rewrite Er, Eh in Hc'. discriminate.
    + apply stored_as_unchanged; [eapply get_harvest_id; exact Er | exact Eh].
Qed.

(** When the entries carry their times, every entry then compares equal
    to its stored row. *)
Lemma storeHarvestEntries_settles io now entries db :
  List.NoDup (List.map Harvest.id entries) ->
  (forall e, In e entries -> times_given e = true) ->
  insertErrorCount (storeHarvestEntries io now entries db) = 0%nat ->
  updateErrorCount (storeHarvestEntries io now entries db) = 0%nat ->
  forall e, In e entries ->
    classify (time_entries (storeHarvestEntries io now entries db)) e = IsUnchanged.
Proof.
  intros Hnd Htimes Hie Hue e He.
  destruct (storeHarvestEntries_holds io now entries db Hnd Hie Hue e He)
    as (r & Hr & Hs).
  unfold classify. rewrite Hr, (hasChanged_stored_as e r (Htimes e He) Hs).
  reflexivity.
Qed.

Lemma storeHarvestEntries_all_unchanged io now entries db :
  (forall e, In e entries -> classify db e = IsUnchanged) ->
  storeHarvestEntries io now entries db
  = {| resolved := {| inserted := 0; updated := 0; unchanged := length entries |};
       insertErrorCount := 0; updateErrorCount := 0; time_entries := db |}.
Proof.
  intros H. unfold storeHarvestEntries.
  destruct (Nat.eqb (length entries) 0) eqn:Elen.
  { destruct entries; [reflexivity | discriminate]. }
  rewrite !filter_classify.
  assert (Hn : List.filter (fun e => is_new (classify db e)) entries = []).
  { clear Elen. induction entries as [|e l IH]; [reflexivity|]. simpl.
    rewrite (H e (or_introl eq_refl)). simpl. apply IH. intros; apply H; right; auto. }
  assert (Hc : List.filter (fun e => is_changed (classify db e)) entries = []).
  { clear Elen Hn. induction entries as [|e l IH]; [reflexivity|]. simpl.
    rewrite (H e (or_introl eq_refl)). simpl. apply IH. intros; apply H; right; auto. }
  assert (Hu : List.filter (fun e => is_unchanged (classify db e)) entries = entries).
  { clear Elen Hn Hc. induction entries as [|e l IH]; [reflexivity|]. simpl.
    rewrite (H e (or_introl eq_refl)). simpl. f_equal. apply IH.
    intros; apply H; right; auto. }
  rewrite Hn, Hc, Hu. reflexivity.
Qed.

(** C3 (amended). Reconciliation is idempotent on a batch with pairwise
    distinct source ids whose entries all carry [started_time] and
    [ended_time] ([null] or a value): after a call in which no row failed,
    a second call on the same batch runs no statement; it resolves with
    [unchanged] equal to the batch size, [inserted] and [updated] zero, and
    the table is the one the first call left. *)
Theorem storeHarvestEntries_idempotent
  (io : nat -> bool) (now : Z) (entries : list Harvest.entry)
  (db0 : list TimeEntry.row)
  (Hdistinct : List.NoDup (List.map Harvest.id entries))
  (Htimes : Forall (fun e => times_given e = true) entries)
  (Hinsert : insertErrorCount (storeHarvestEntries io now entries db0) = 0%nat)
  (Hupdate : updateErrorCount (storeHarvestEntries io now entries db0) = 0%nat) :
  forall io' now',
    storeHarvestEntries io' now' entries
      (time_entries (storeHarvestEntries io now entries db0))
    = {| resolved := {| inserted := 0; updated := 0; unchanged := length entries |};
         insertErrorCount := 0; updateErrorCount := 0;
         time_entries := time_entries (storeHarvestEntries io now entries db0) |}.
Proof.
  intros io' now'. apply storeHarvestEntries_all_unchanged.
  apply storeHarvestEntries_settles; try assumption.
  apply List.Forall_forall. exact Htimes.
Qed.

(** ** Matching tasks with activities *)

Lemma same_name_normalized a t :
  same_name a t = true
  <-> normalized (Task.name t) = normalized (KimaiActivity.task_name a).
Proof. unfold same_name, normalized. apply String.eqb_eq. Qed.


Lemma update_task_id a taskId t : Task.id (update_task a taskId t) = Task.id t.
Proof. unfold update_task. destruct (Task.id t =? taskId); reflexivity. Qed.

Lemma with_mapping_update_task a a' taskId t :
  with_mapping a (update_task a' taskId t) = with_mapping a t.
Proof. unfold update_task. destruct (Task.id t =? taskId); reflexivity. Qed.

Lemma row_after_id hts acts : forall t, Task.id (row_after hts acts t) = Task.id t.
Proof.
  unfold row_after. induction acts as [|a l IH]; intros t; simpl; [reflexivity|].
  rewrite IH. destruct (List.find (same_name a) hts); [apply update_task_id |
      reflexivity].
Qed.




(** The statements that take effect are the statements issued, in some
    order; in the order of issue when no statement finishes before one
    issued earlier. *)
Lemma place_perm {A} finishes (s : nat * A) l :
  Permutation (place finishes s l) (s :: l).
Proof.
  induction l as [|s' l IH]; simpl; [reflexivity|].
  destruct (Nat.leb _ _); [reflexivity|].
  rewrite IH. apply perm_swap.
Qed.

Lemma combine_seq_snd {A} (l : list A) :
  forall start, List.map snd (combine (seq start (length l)) l) = l.
Proof.
  induction l as [|x l IH]; intros start; simpl; [reflexivity|].
  rewrite IH. reflexivity.
Qed.

Lemma completion_order_perm {A} finishes (issued : list A) :
  Permutation (completion_order finishes issued) issued.
Proof.
  unfold completion_order.
  transitivity (List.map snd (combine (seq 0 (length issued)) issued));
    [|rewrite combine_seq_snd; reflexivity].
  apply Permutation_map.
  generalize (combine (seq 0 (length issued)) issued). intros l.
  induction l as [|s l IH]; simpl; [reflexivity|].
  rewrite place_perm, IH. reflexivity.
Qed.

Lemma completion_order_monotone {A} finishes (issued : list A) :
  (forall i j, (i <= j)%nat -> (finishes i <= finishes j)%nat) ->
  completion_order finishes issued = issued.
Proof.
  intros Hmono. unfold completion_order.
  transitivity (List.map snd (combine (seq 0 (length issued)) issued));
    [|apply combine_seq_snd]. f_equal.
  generalize 0%nat. induction issued as [|x l IH]; intros start; [reflexivity|].
  simpl. rewrite IH. destruct l as [|y l]; [reflexivity|]. simpl.
  assert (H : Nat.leb (finishes start) (finishes (S start)) = true).
  { apply Nat.leb_le. apply Hmono. lia. }
  rewrite H. reflexivity.
Qed.

Lemma combine_seq_fst {A} (l : list A) :
  forall start, List.map fst (combine (seq start (length l)) l) = seq start (length l).
Proof.
  induction l as [|x l IH]; intros start; simpl; [reflexivity|].
  rewrite IH. reflexivity.
Qed.

Lemma place_sorted {A} f (s : nat * A) l :
  StronglySorted (earlier f) l ->
  (forall y, In y l -> f (fst y) <> f (fst s)) ->
  StronglySorted (earlier f) (place f s l).
Proof.
  induction 1 as [|s' l Hl IH Hs']; intros Hne; simpl.
  - repeat constructor.
  - destruct (Nat.leb_spec (f (fst s)) (f (fst s'))) as [Hle|Hgt].
    + assert (Hlt : earlier f s s').
      { unfold earlier. specialize (Hne s' (or_introl eq_refl)). lia. }
      constructor; [constructor; assumption|].
      constructor; [exact Hlt|].
      rewrite List.Forall_forall in *. intros y Hy. specialize (Hs' y Hy).
      unfold earlier in *. lia.
    + constructor.
      * apply IH. intros y Hy. apply Hne. right. exact Hy.
      * rewrite List.Forall_forall in *. intros y Hy.
        apply (Permutation_in _ (place_perm f s l)) in Hy as [<-|Hy];
          [exact Hgt | apply Hs'; exact Hy].
Qed.

Lemma position_inj order a b :
  In a order -> In b order -> position order a = position order b -> a = b.
Proof.
  induction order as [|k l IH]; simpl; [tauto|].
  destruct (Nat.eqb_spec a k), (Nat.eqb_spec b k); try congruence; try discriminate.
  intros [|Ha] [|Hb]; try congruence. intros [= H]. auto.
Qed.

Lemma sorted_by_place {A} f (l : list (nat * A)) :
  List.NoDup (List.map (fun s => f (fst s)) l) ->
  StronglySorted (earlier f) (fold_right (place f) [] l).
Proof.
  induction l as [|s l IH]; intros Hnd; simpl; [constructor|].
  inversion Hnd as [|? ? Hnotin Hnd']; subst.
  apply place_sorted; [apply IH; exact Hnd'|].
  intros y Hy Heq. apply Hnotin.
  assert (Hp : Permutation (fold_right (place f) [] l) l).
  { clear. induction l as [|s l IH]; simpl; [reflexivity|].
    rewrite place_perm, IH. reflexivity. }
  apply (Permutation_in _ Hp) in Hy. rewrite <- Heq.
  apply (in_map (fun s => f (fst s))). exact Hy.
Qed.

Lemma StronglySorted_on {A} (R R' : A -> A -> Prop) l :
  StronglySorted R l ->
  (forall a b, In a l -> In b l -> R a b -> R' a b) ->
  StronglySorted R' l.
Proof.
  induction 1 as [|a l Hl IH Ha]; intros H; constructor.
  - apply IH. intros x y Hx Hy. apply H; right; assumption.
  - rewrite List.Forall_forall in *. intros y Hy.
    apply H; [left; reflexivity | right; exact Hy | apply Ha; exact Hy].
Qed.

Lemma sorted_by_position {A} (l : list (nat * A)) :
  List.NoDup (List.map fst l) ->
  StronglySorted (earlier (position (List.map fst l))) l.
Proof.
  induction l as [|s l IH]; intros Hnd; [constructor|].
  inversion Hnd as [|? ? Hnotin Hnd']; subst.
  assert (Hpos : forall y, In y l ->
            position (List.map fst (s :: l)) (fst y)
            = S (position (List.map fst l) (fst y))).
  { intros y Hy. simpl. destruct (Nat.eqb_spec (fst y) (fst s)) as [E|]; [|reflexivity].
    exfalso. apply Hnotin. rewrite <- E. apply in_map. exact Hy. }
  constructor.
  - apply (StronglySorted_on _ _ _ (IH Hnd')).
    intros a b Ha Hb. unfold earlier. rewrite (Hpos a Ha), (Hpos b Hb). lia.
  - apply List.Forall_forall. intros y Hy. unfold earlier.
    rewrite (Hpos y Hy). simpl. rewrite Nat.eqb_refl. lia.
Qed.

(** Every order of the statements is the order of some completion times. *)
Lemma completion_order_any {A} (issued target : list A) :
  Permutation target issued ->
  exists finishes, completion_order finishes issued = target.
Proof.
  intros Hperm. unfold completion_order.
  set (numbered := combine (seq 0 (length issued)) issued).
  assert (Hsnd : List.map snd numbered = issued) by apply combine_seq_snd.
  assert (Hfst : List.map fst numbered = seq 0 (length issued))
    by apply combine_seq_fst.
  rewrite <- Hsnd in Hperm.
  apply Permutation_map_inv in Hperm as (target' & -> & Hperm').
  exists (position (List.map fst target')). f_equal.
  assert (Hkeys : List.NoDup (List.map fst target')).
  { apply (Permutation_NoDup (l := List.map fst numbered)).
    - apply Permutation_map. exact Hperm'.
    - rewrite Hfst. apply NoDup_ListNoDup, NoDup_seq. }
  apply (StronglySorted_unique_strong (earlier (position (List.map fst target')))).
  - unfold earlier. intros x y _ _. lia.
  - apply sorted_by_place. rewrite <- (List.map_map fst).
    apply NoDup_ListNoDup, NoDup_fmap_2_strong; [|apply NoDup_ListNoDup].
    + intros a b Ha Hb. apply list_elem_of_In in Ha, Hb.
      apply position_inj;
        (eapply Permutation_in; [apply Permutation_map; exact Hperm' | assumption]).
    + rewrite Hfst. apply NoDup_ListNoDup, NoDup_seq.
  - apply sorted_by_position. exact Hkeys.
  - transitivity numbered; [|exact Hperm'].
    clear. induction numbered as [|s l IH]; simpl; [reflexivity|].
    rewrite place_perm, IH. reflexivity.
Qed.

Lemma matchLoop_fst hts acts :
  List.map fst (matchLoop hts acts) = List.filter (finds hts) acts.
Proof.
  induction acts as [|a l IH]; [reflexivity|]. simpl. unfold finds at 1.
  destruct (List.find (same_name a) hts); simpl; rewrite IH; reflexivity.
Qed.

Lemma matchLoop_snd hts acts :
  List.map snd (matchLoop hts acts) = selected_ids acts hts.
Proof.
  unfold selected_ids.
  induction acts as [|a l IH]; [reflexivity|]. simpl.
  destruct (List.find (same_name a) hts); simpl; rewrite IH; reflexivity.
Qed.

Lemma matchLoop_In hts acts a taskId :
  In (a, taskId) (matchLoop hts acts) ->
  exists m, List.find (same_name a) hts = Some m /\ Task.id m = taskId.
Proof.
  induction acts as [|a' l IH]; simpl; [tauto|].
  destruct (List.find (same_name a') hts) as [m|] eqn:E; [|exact IH].
  intros [H|H]; [|apply IH; exact H].
  injection H as -> <-. exists m. auto.
Qed.

Lemma executed_perm finishes acts tasks :
  Permutation (executed finishes acts tasks) (List.filter (finds tasks) acts).
Proof.
  unfold executed. rewrite <- matchLoop_fst.
  apply Permutation_map, completion_order_perm.
Qed.

Lemma executed_In finishes acts tasks a :
  In a (executed finishes acts tasks) <-> In a acts /\ finds tasks a = true.
Proof.
  rewrite <- filter_In. split; apply Permutation_in;
    [|symmetry]; apply executed_perm.
Qed.

Lemma executed_monotone finishes acts tasks :
  (forall i j, (i <= j)%nat -> (finishes i <= finishes j)%nat) ->
  executed finishes acts tasks = List.filter (finds tasks) acts.
Proof.
  intros H. unfold executed. rewrite completion_order_monotone by exact H.
  apply matchLoop_fst.
Qed.

Lemma row_after_finds hts acts :
  forall t, row_after hts (List.filter (finds hts) acts) t = row_after hts acts t.
Proof.
  unfold row_after. induction acts as [|a l IH]; intros t; [reflexivity|]. simpl.
  unfold finds at 1. destruct (List.find (same_name a) hts) as [m|] eqn:E.
  - simpl. rewrite E. apply IH.
  - apply IH.
Qed.

(** The table after the statements, row by row. *)
Lemma runUpdate_table hts us :
  (forall a taskId, In (a, taskId) us ->
     exists m, List.find (same_name a) hts = Some m /\ Task.id m = taskId) ->
  forall st,
    tasks_table (fold_left runUpdate us st)
    = List.map (row_after hts (List.map fst us)) (tasks_table st).
Proof.
  induction us as [|[a taskId] l IH]; intros H st; simpl.
  - unfold row_after. simpl. symmetry. apply map_id.
  - rewrite IH by (intros; apply H; right; assumption). simpl.
    rewrite map_map. apply map_ext. intros t. unfold row_after. simpl.
    destruct (H a taskId (or_introl eq_refl)) as (m & -> & ->). reflexivity.
Qed.

Lemma runUpdate_counts us :
  forall st,
    matched (fold_left runUpdate us st) = matched st + Z.of_nat (length us)
    /\ unmatched (fold_left runUpdate us st) = unmatched st - Z.of_nat (length us).
Proof.
  induction us as [|u l IH]; intros st; simpl fold_left.
  - simpl. lia.
  - destruct (IH (runUpdate st u)) as [H1 H2]. rewrite H1, H2.
    simpl length. simpl matched. simpl unmatched. lia.
Qed.

Lemma matchTasksWithActivities_table finishes activities tasks :
  tasks_table (matchTasksWithActivities finishes activities tasks)
  = List.map (row_after tasks (executed finishes activities tasks)) tasks.
Proof.
  unfold matchTasksWithActivities.
  destruct activities as [|a l].
  { unfold row_after. simpl. symmetry. apply map_id. }
  destruct tasks as [|t ts]; [reflexivity|].
  change (Nat.eqb (length (a :: l)) 0) with false.
  change (Nat.eqb (length (t :: ts)) 0) with false. cbv iota zeta.
  rewrite (runUpdate_table (t :: ts)); [reflexivity|].
  intros a' taskId H. apply (matchLoop_In (t :: ts) (a :: l)).
  eapply Permutation_in; [apply completion_order_perm | exact H].
Qed.

Lemma lookup_map {A B} (f : A -> B) (l : list A) (i : nat) :
  List.map f l !! i = option_map f (l !! i).
Proof.
  revert i. induction l as [|x l IH]; intros [|i]; simpl; try reflexivity.
  apply IH.
Qed.



(** The example of the specification: [" Design Review "] matches
    ["design review"]. *)
Example normalized_design_review :
  normalized " Design Review " = normalized "design review".
Proof. reflexivity. Qed.

(** ** The counts of the matching step *)

Lemma selected_ids_cons a acts tasks :
  selected_ids (a :: acts) tasks
  = match List.find (same_name a) tasks with
    | Some t => Task.id t :: selected_ids acts tasks
    | None => selected_ids acts tasks
    end.
Proof.
  unfold selected_ids. simpl. destruct (List.find (same_name a) tasks); reflexivity.
Qed.

Lemma selected_ids_nil acts : selected_ids acts [] = [].
Proof. induction acts as [|a l IH]; [reflexivity | exact IH]. Qed.

(** Each activity that finds a task moves one unit from [unmatched] to
    [matched], whenever its statement finishes. *)
Lemma matchTasksWithActivities_counts_selected finishes activities tasks :
  activities <> [] ->
  matched (matchTasksWithActivities finishes activities tasks)
  = Z.of_nat (length (selected_ids activities tasks))
  /\ unmatched (matchTasksWithActivities finishes activities tasks)
     = Z.of_nat (length tasks) - Z.of_nat (length (selected_ids activities tasks)).
Proof.
  intros Hne. unfold matchTasksWithActivities.
  destruct activities as [|a l]; [congruence|].
  change (Nat.eqb (length (a :: l)) 0) with false. cbv iota.
  destruct tasks as [|t ts].
  - rewrite selected_ids_nil. simpl. split; reflexivity.
  - change (Nat.eqb (length (t :: ts)) 0) with false. cbv iota zeta.
    destruct (runUpdate_counts
                (completion_order finishes (matchLoop (t :: ts) (a :: l)))
                {| tasks_table := t :: ts; matched := 0;
                   unmatched := Z.of_nat (length (t :: ts)) |}) as [H1 H2].
    rewrite H1, H2.
    rewrite (Permutation_length (completion_order_perm finishes _)).
    rewrite <- (length_map snd), matchLoop_snd.
    simpl matched. simpl unmatched. split; [lia | reflexivity].
Qed.

Lemma In_selected_ids acts tasks x :
  In x (selected_ids acts tasks) -> exists t, In t tasks /\ Task.id t = x.
Proof.
  unfold selected_ids. intros H. apply in_flat_map in H as (a & _ & H).
  destruct (List.find (same_name a) tasks) as [t|] eqn:E; [|destruct H].
  destruct H as [<-|[]]. exists t. split; [|reflexivity].
  apply find_some in E. apply E.
Qed.

(** When the row ids are distinct and no two activities select the same
    row, the rows updated are as many as the updates run. *)
Lemma tasks_updated_distinct acts tasks :
  List.NoDup (List.map Task.id tasks) ->
  List.NoDup (selected_ids acts tasks) ->
  tasks_updated acts tasks = length (selected_ids acts tasks).
Proof.
  intros Hpk Hsel. unfold tasks_updated.
  set (sel := selected_ids acts tasks) in *.
  rewrite <- (length_map Task.id).
  apply Permutation_length. apply NoDup_Permutation.
  - apply NoDup_ListNoDup, NoDup_map_filter. exact Hpk.
  - apply NoDup_ListNoDup. exact Hsel.
  - intros x. rewrite !list_elem_of_In. split.
    + intros H. apply in_map_iff in H as (t & <- & H).
      apply filter_In in H as [_ H]. apply existsb_exists in H as (y & Hy & E).
      apply Z.eqb_eq in E. rewrite E. exact Hy.
    + intros H. destruct (In_selected_ids acts tasks x H) as (t & Ht & <-).
      apply in_map. apply filter_In. split; [exact Ht|].
      apply existsb_exists. exists (Task.id t). split; [exact H | apply Z.eqb_refl].
Qed.

(** C7 (amended). With a non-empty activity catalog in which no two
    activities select the same task, [unmatched] is the number of tasks
    minus the number of task rows updated with a mapping, and [matched] is
    that number of rows. With an empty activity catalog the step is skipped
    and resolves with both counts zero. *)
Theorem matchTasksWithActivities_counts
  (finishes : nat -> nat)
  (activities : list KimaiActivity.row) (tasks : list Task.row)
  (Hpk : List.NoDup (List.map Task.id tasks))
  (Hsel : List.NoDup (selected_ids activities tasks)) :
  let m := matchTasksWithActivities finishes activities tasks in
  (activities <> [] ->
     unmatched m = Z.of_nat (length tasks) - Z.of_nat (tasks_updated activities tasks)
     /\ matched m = Z.of_nat (tasks_updated activities tasks))
  /\ (activities = [] -> matched m = 0 /\ unmatched m = 0).
Proof.
  cbv zeta. split.
  - intros Hne. rewrite tasks_updated_distinct by assumption.
    destruct (matchTasksWithActivities_counts_selected finishes activities tasks Hne)
      as [H1 H2].
    rewrite H1, H2. split; reflexivity.
  - intros ->. split; reflexivity.
Qed.

(** ** The importer: deriving begin and end *)

Lemma date_eqb_calendar tz c date :
  0 <= tz < msPerDay ->
  sameDate tz c (Date_of_date date) = date_eqb (calendar_date tz c) (own_date date).
Proof.
  intros H. unfold sameDate, date_eqb, calendar_date, own_date,
    getFullYear, getMonth, getDate.
  rewrite (Day_local_midnight tz date H). reflexivity.
Qed.

(** East of Greenwich the test of [transformEntry] is the test of the
    specification. *)
Lemma takes_created_at_east tz entry :
  0 <= tz < msPerDay ->
  takes_created_at tz entry = has_same_date_created_at tz entry.
Proof.
  intros H. unfold takes_created_at, has_same_date_created_at.
  destruct (TimeEntry.created_at (Pending.te entry)); [|reflexivity].
  apply date_eqb_calendar. exact H.
Qed.

Lemma setHours_nine_local tz date :
  0 <= tz < msPerDay -> setHours tz (Date_of_date date) 9 0 0 0 = nine_local tz date.
Proof.
  intros H. unfold setHours, nine_local. rewrite Day_local_midnight by exact H.
  reflexivity.
Qed.

(** The end time is the begin time plus the rounded minutes. *)
Lemma transformEntry_end_local (tz : zone) entry ends :
  Kimai.end_ (fst (transformEntry tz entry ends))
  = Kimai.begin (fst (transformEntry tz entry ends))
    + rounded_minutes entry * msPerMinute
    + (LocalTZA_utc tz (Kimai.begin (fst (transformEntry tz entry ends)))
       - LocalTZA_local tz
           (LocalTime tz (Kimai.begin (fst (transformEntry tz entry ends)))
            + rounded_minutes entry * msPerMinute)).
Proof. unfold transformEntry. simpl. apply setMinutes_getMinutes_local. Qed.


(** The end time is recorded under the date of the entry. *)
Lemma transformEntry_map tz entry ends :
  snd (transformEntry tz entry ends)
  = <[TimeEntry.date (Pending.te entry) :=
        Kimai.end_ (fst (transformEntry tz entry ends))]> ends.
Proof. reflexivity. Qed.

(** An entry that does not take [created_at] begins at the recorded end of
    its date, when there is one. *)
Lemma transformEntry_chained tz entry ends lastEnd :
  takes_created_at tz entry = false ->
  ends !! TimeEntry.date (Pending.te entry) = Some lastEnd ->
  Kimai.begin (fst (transformEntry tz entry ends)) = lastEnd.
Proof.
  unfold takes_created_at, transformEntry. intros Hc Hm. simpl.
  destruct (TimeEntry.created_at (Pending.te entry)) as [c|].
  - rewrite Hc, Hm. reflexivity.
  - rewrite Hm. reflexivity.
Qed.

(** East of Greenwich (and in UTC) [transformEntry] follows the three rules
    of the specification. *)
Lemma transformEntry_policy_east tz entry ends :
  0 <= tz < msPerDay ->
  Kimai.begin (fst (transformEntry tz entry ends)) = policy_begin tz entry ends.
Proof.
  intros H. unfold policy_begin.
  rewrite <- takes_created_at_east by exact H.
  unfold takes_created_at, transformEntry. simpl.
  rewrite setHours_nine_local by exact H.
  destruct (TimeEntry.created_at (Pending.te entry)) as [c|]; [|reflexivity].
  destruct (sameDate tz c _); reflexivity.
Qed.

(** West of Greenwich the first entry of a day without creation timestamp
    begins at 09:00 local time of the day before. *)
Lemma transformEntry_nine_west tz entry ends :
  - msPerDay <= tz < 0 ->
  TimeEntry.created_at (Pending.te entry) = None ->
  ends !! TimeEntry.date (Pending.te entry) = None ->
  Kimai.begin (fst (transformEntry tz entry ends))
  = nine_local tz (TimeEntry.date (Pending.te entry) - 1).
Proof.
  intros H Hc Hm. unfold transformEntry. simpl. rewrite Hc, Hm.
  unfold setHours, nine_local. rewrite Day_local_midnight_west by exact H.
  reflexivity.
Qed.

(** C1. West of Greenwich [transformEntry] departs from the rules, one
    day early. In UTC-05:00, an entry dated 2025-03-10 that was created at
    2025-03-10T14:00:00Z (09:00 local time on 2025-03-10) has a creation
    timestamp on its own date, so the first rule gives that instant as
    begin; the code compares with the local date of the UTC midnight of
    the entry's date, which is 2025-03-09, and begins the entry at
    2025-03-09T14:00:00Z, 09:00 local time on the day before. Likewise an
    entry dated 2025-03-11 without creation timestamp, first of its day,
    begins at 09:00 local time on 2025-03-10 instead of 2025-03-11. *)
Theorem transformEntry_west_of_greenwich :
  let entry := mapped (row_10 7 0 None (Some at_14_00Z) "" (3 # 2)) in
  let k := fst (transformEntry tz_west entry ∅) in
  let k' := fst (transformEntry tz_west (mapped row_11) ∅) in
  has_same_date_created_at tz_west entry = true
  /\ policy_begin tz_west entry ∅ = at_14_00Z
  /\ Kimai.begin k = at_14_00Z - msPerDay
  /\ calendar_date tz_west (Kimai.begin k) = own_date (day_2025_03_10 - 1)
  /\ policy_begin tz_west (mapped row_11) ∅ = nine_local tz_west day_2025_03_11
  /\ Kimai.begin k' = nine_local tz_west day_2025_03_10
  /\ calendar_date tz_west (Kimai.begin k') = own_date day_2025_03_10.
Proof. vm_compute. repeat split. Qed.

(** In UTC the same two entries follow the rules: the examples of the
    specification. *)
Example transformEntry_in_utc :
  fst (transformEntry 0 (mapped (row_10 7 0 None (Some at_14_00Z) "" (3 # 2))) ∅)
  = {| Kimai.begin := at_14_00Z; Kimai.end_ := at_14_00Z + 90 * msPerMinute;
       Kimai.description := ""; Kimai.project := Some 3; Kimai.activity := Some 12 |}
  /\ fst (transformEntry 0 (mapped row_11) ∅)
     = {| Kimai.begin := day_2025_03_11 * msPerDay + 9 * msPerHour;
          Kimai.end_ := day_2025_03_11 * msPerDay + 11 * msPerHour;
          Kimai.description := ""; Kimai.project := Some 3;
          Kimai.activity := Some 12 |}.
Proof. split; reflexivity. Qed.

(** ** The importer: the loop, entry by entry *)

Section ImporterRun.

Variable tz : zone.
Variable createTimesheet : nat -> Kimai.entry -> option Z.
Variable mark_fails : nat -> bool.

Lemma importLoop_app st l1 l2 : importLoop tz createTimesheet mark_fails st (l1 ++ l2)
    = importLoop tz createTimesheet mark_fails (importLoop tz createTimesheet
    mark_fails st l1) l2.
Proof. unfold importLoop. apply fold_left_app. Qed.

(** An entry without a mapping changes nothing but the log. *)
Lemma importStep_skip st e :
  missing_mapping e = true ->
  importStep tz createTimesheet mark_fails st e
  = {| db := db st; dateEndTimeMap := dateEndTimeMap st;
       imported := imported st; failed := failed st; calls := calls st;
       log := log st ++ [Skipped e] |}.
Proof. unfold importStep. intros ->. reflexivity. Qed.

(** An entry with a mapping is transformed, the end time is recorded, and
    the entry is submitted: the event is [Imported] or [Failed] according
    to the answers of Kimai and of the storage, the map is the same in
    every case. *)
Lemma importStep_submit st e :
  missing_mapping e = false ->
  let k := fst (transformEntry tz e (dateEndTimeMap st)) in
  dateEndTimeMap (importStep tz createTimesheet mark_fails st e)
  = <[TimeEntry.date (Pending.te e) := Kimai.end_ k]> (dateEndTimeMap st)
  /\ exists ev, log (importStep tz createTimesheet mark_fails st e) = log st ++ [ev]
                /\ event_entry ev = e /\ submitted ev = Some k
                /\ (ev = Failed e k \/ exists kimaiId, ev = Imported e k kimaiId).
Proof.
  intros Hm. cbv zeta. unfold importStep. rewrite Hm.
  rewrite (surjective_pairing (transformEntry tz e (dateEndTimeMap st))).
  rewrite transformEntry_map.
  destruct (createTimesheet (calls st) _) as [kimaiId|];
    [destruct (mark_fails (calls st))|]; simpl; split;
    try reflexivity; eexists; repeat split; eauto.
Qed.

(** The event logged for the entry at a given place of the list. *)
Lemma importLoop_log_at pre e post st :
  exists ev,
    log (importStep tz createTimesheet mark_fails (importLoop tz createTimesheet
        mark_fails st pre) e) = log (importLoop tz createTimesheet mark_fails st pre)
        ++ [ev]
    /\ log (importLoop tz createTimesheet mark_fails st (pre ++ e :: post)) !! (length
        (log st) + length pre)%nat
       = Some ev.
Proof.
  destruct (importStep_log tz createTimesheet mark_fails (importLoop tz
      createTimesheet mark_fails st pre) e) as (ev & Hev & _).
  exists ev. split; [exact Hev|].
  rewrite importLoop_app. simpl.
  change (fold_left (importStep tz createTimesheet mark_fails) post (importStep tz
      createTimesheet mark_fails (importLoop tz createTimesheet mark_fails st pre) e))
    with (importLoop tz createTimesheet mark_fails (importStep tz createTimesheet
        mark_fails (importLoop tz createTimesheet mark_fails st pre) e) post).
  destruct (importLoop_log tz createTimesheet mark_fails post (importStep tz
      createTimesheet mark_fails (importLoop tz createTimesheet mark_fails st pre) e))
    as (evs & -> & _).
  rewrite Hev.
  destruct (importLoop_log tz createTimesheet mark_fails pre st) as (evs' & -> & Hlen).
  rewrite <- Hlen, length_map, <- length_app, <- app_assoc.
  apply list_lookup_middle. reflexivity.
Qed.

(** Entries of other dates, and entries without a mapping, leave the
    recorded end of a date alone. *)
Lemma importLoop_map_other date l :
  forall st,
    (forall x, In x l -> missing_mapping x = false ->
               TimeEntry.date (Pending.te x) <> date) ->
    dateEndTimeMap (importLoop tz createTimesheet mark_fails st l) !! date =
        dateEndTimeMap st !! date.
Proof.
  induction l as [|e l IH]; intros st H; [reflexivity|].
  change (importLoop tz createTimesheet mark_fails st (e :: l)) with (importLoop tz
      createTimesheet mark_fails (importStep tz createTimesheet mark_fails st e) l).
  rewrite IH by (intros x Hx; apply H; right; exact Hx).
  destruct (missing_mapping e) eqn:Em.
  - rewrite importStep_skip by exact Em. reflexivity.
  - destruct (importStep_submit st e Em) as [-> _].
    apply lookup_insert_ne. apply H; [left; reflexivity | exact Em].
Qed.


(** The counters: every entry with a mapping is submitted and counted once,
    as imported or as failed; an entry without a mapping is counted in
    neither and costs no request. *)
Lemma importLoop_counters l :
  forall st,
    (imported (importLoop tz createTimesheet mark_fails st l) + failed (importLoop tz
        createTimesheet mark_fails st l)
     = imported st + failed st
       + length (List.filter (fun e => negb (missing_mapping e)) l))%nat
    /\ (calls (importLoop tz createTimesheet mark_fails st l)
        = calls st + length (List.filter (fun e => negb (missing_mapping e)) l))%nat.
Proof.
  induction l as [|e l IH]; intros st; [simpl; lia|].
  change (importLoop tz createTimesheet mark_fails st (e :: l)) with (importLoop tz
      createTimesheet mark_fails (importStep tz createTimesheet mark_fails st e) l).
  destruct (IH (importStep tz createTimesheet mark_fails st e)) as [H1 H2]. rewrite
      H1, H2. clear.
  cbn [List.filter]. unfold importStep.
  destruct (missing_mapping e); cbn [negb]; [simpl; lia|].
  destruct (transformEntry tz e (dateEndTimeMap st)) as [k m'].
  destruct (createTimesheet (calls st) k); [destruct (mark_fails (calls st))|]; simpl;
      lia.
Qed.

(** Only entries with a mapping are submitted. *)
Lemma importLoop_submitted l :
  forall st,
    Forall (fun ev => submitted ev <> None ->
                      missing_mapping (event_entry ev) = false) (log st) ->
    Forall (fun ev => submitted ev <> None ->
                      missing_mapping (event_entry ev) = false) (log (importLoop tz
                          createTimesheet mark_fails st l)).
Proof.
  induction l as [|e l IH]; intros st H; [exact H|].
  change (importLoop tz createTimesheet mark_fails st (e :: l)) with (importLoop tz
      createTimesheet mark_fails (importStep tz createTimesheet mark_fails st e) l).
      apply IH.
  destruct (missing_mapping e) eqn:Em.
  - rewrite importStep_skip by exact Em. simpl.
    apply Forall_app. split; [exact H|]. constructor; [|constructor].
    simpl. congruence.
  - destruct (importStep_submit st e Em) as [_ (ev & -> & He & _)].
    apply Forall_app. split; [exact H|]. constructor; [|constructor].
    intros _. rewrite He. exact Em.
Qed.

(** What is derived and submitted does not depend on the answers of
    Kimai and of the storage: two runs of the loop from states with the same map log events
    about the same entries with the same objects, and end with the same
    map. *)
Lemma importLoop_answers_irrelevant
  (createTimesheet' : nat -> Kimai.entry -> option Z)
  (mark_fails' : nat -> bool) l :
  forall st st',
    dateEndTimeMap st = dateEndTimeMap st' ->
    List.map (fun ev => (event_entry ev, submitted ev)) (log st)
    = List.map (fun ev => (event_entry ev, submitted ev)) (log st') ->
    dateEndTimeMap (importLoop tz createTimesheet mark_fails st l)
    = dateEndTimeMap (importLoop tz createTimesheet' mark_fails' st' l)
    /\ List.map (fun ev => (event_entry ev, submitted ev))
         (log (importLoop tz createTimesheet mark_fails st l))
       = List.map (fun ev => (event_entry ev, submitted ev))
           (log (importLoop tz createTimesheet' mark_fails' st' l)).
Proof.
  induction l as [|e l IH]; intros st st' Hm Hl; [split; assumption|].
  change (importLoop tz createTimesheet mark_fails st (e :: l))
    with (importLoop tz createTimesheet mark_fails (importStep tz createTimesheet
        mark_fails st e) l).
  change (importLoop tz createTimesheet' mark_fails' st' (e :: l))
    with (importLoop tz createTimesheet' mark_fails' (importStep tz createTimesheet'
        mark_fails' st' e) l).
  apply IH; unfold importStep; rewrite <- Hm; destruct (missing_mapping e).
  - reflexivity.
  - destruct (transformEntry tz e (dateEndTimeMap st)) as [k m'].
    destruct (createTimesheet (calls st) k), (createTimesheet' (calls st') k),
      (mark_fails (calls st)), (mark_fails' (calls st')); reflexivity.
  - simpl. rewrite !List.map_app, Hl. reflexivity.
  - destruct (transformEntry tz e (dateEndTimeMap st)) as [k m'].
    destruct (createTimesheet (calls st) k), (createTimesheet' (calls st') k),
      (mark_fails (calls st)), (mark_fails' (calls st'));
      simpl; rewrite !List.map_app, Hl; reflexivity.
Qed.

Lemma markAsImported_other harvestId kimaiId rows (i : nat) r :
  rows !! i = Some r -> TimeEntry.harvest_id r <> harvestId ->
  markAsImported harvestId kimaiId rows !! i = Some r.
Proof.
  intros Hi Hne. unfold markAsImported. rewrite lookup_map, Hi. simpl.
  apply Z.eqb_neq in Hne. rewrite Hne. reflexivity.
Qed.

(** A source id whose entries all lack a mapping keeps its rows. *)
Lemma importLoop_db_untouched harvestId l :
  forall st (i : nat) r,
    (forall e, In e l -> TimeEntry.harvest_id (Pending.te e) = harvestId ->
               missing_mapping e = true) ->
    db st !! i = Some r -> TimeEntry.harvest_id r = harvestId ->
    db (importLoop tz createTimesheet mark_fails st l) !! i = Some r.
Proof.
  induction l as [|e l IH]; intros st i r H Hi Hr; [exact Hi|].
  change (importLoop tz createTimesheet mark_fails st (e :: l)) with (importLoop tz
      createTimesheet mark_fails (importStep tz createTimesheet mark_fails st e) l).
  apply IH; [intros x Hx; apply H; right; exact Hx | | exact Hr].
  unfold importStep. destruct (missing_mapping e) eqn:Em; [exact Hi|].
  destruct (transformEntry tz e (dateEndTimeMap st)) as [k m'].
  destruct (createTimesheet (calls st) k); [destruct (mark_fails (calls st))|]; simpl;
      try exact Hi.
  apply markAsImported_other; [exact Hi|].
  intros Heq. rewrite Hr in Heq.
  rewrite (H e (or_introl eq_refl) (eq_sym Heq)) in Em. discriminate.
Qed.

End ImporterRun.

(** ** The importer: a whole run *)

Lemma importTimeEntries_loop tz createTimesheet mark_fails db0 tasks :
  importTimeEntries tz createTimesheet mark_fails db0 tasks
  = importLoop tz createTimesheet mark_fails
      {| db := db0; dateEndTimeMap := ∅; imported := 0; failed := 0;
         calls := 0; log := [] |}
      (sort_by_date (getAllPendingEntries db0 tasks)).
Proof.
  unfold importTimeEntries.
  destruct (getAllPendingEntries db0 tasks); reflexivity.
Qed.

(** The event at a place of the log of a run is the one the loop body adds
    for the entry at that place of the sorted list. *)
Lemma importTimeEntries_log_at tz createTimesheet mark_fails db0 tasks pre e post :
  sort_by_date (getAllPendingEntries db0 tasks) = pre ++ e :: post ->
  let before :=
    importLoop tz createTimesheet mark_fails
      {| db := db0; dateEndTimeMap := ∅; imported := 0; failed := 0;
         calls := 0; log := [] |} pre in
  exists ev,
    log (importStep tz createTimesheet mark_fails before e) = log before ++ [ev]
    /\ log (importTimeEntries tz createTimesheet mark_fails db0 tasks) !! length pre =
        Some ev.
Proof.
  intros Hs. cbv zeta. rewrite importTimeEntries_loop, Hs.
  apply (importLoop_log_at tz createTimesheet mark_fails pre e post
           {| db := db0; dateEndTimeMap := ∅; imported := 0; failed := 0;
              calls := 0; log := [] |}).
Qed.

(** An entry without a mapping is logged as skipped, at its place. *)
Lemma importTimeEntries_skips tz createTimesheet mark_fails db0 tasks (i : nat) e :
  sort_by_date (getAllPendingEntries db0 tasks) !! i = Some e ->
  missing_mapping e = true ->
  log (importTimeEntries tz createTimesheet mark_fails db0 tasks) !! i = Some (Skipped e).
Proof.
  intros Hi Hm.
  pose proof (take_drop_middle _ _ _ Hi) as Hsplit. symmetry in Hsplit.
  destruct (importTimeEntries_log_at tz createTimesheet mark_fails db0 tasks _ _ _ Hsplit)
    as (ev & Hev & Hlog).
  rewrite importStep_skip in Hev by exact Hm. simpl in Hev.
  apply app_inv_head in Hev. injection Hev as <-.
  rewrite length_take in Hlog. apply lookup_lt_Some in Hi.
  rewrite Nat.min_l in Hlog by lia. exact Hlog.
Qed.

(** C8. In a run of [importTimeEntries], a pending entry that lacks the
    project id or the activity id is only logged as skipped: it is not
    submitted, the counters [imported] and [failed] count the entries with
    a mapping only (as many as requests are made), and a source id whose
    pending entries all lack a mapping keeps its rows as they were, so it
    is not marked imported. *)
Theorem unmapped_entries_are_left_out
  (tz : Z) (createTimesheet : nat -> Kimai.entry -> option Z)
  (mark_fails : nat -> bool)
  (db0 : list TimeEntry.row) (tasks : list Task.row) :
  let entries := sort_by_date (getAllPendingEntries db0 tasks) in
  let r := importTimeEntries tz createTimesheet mark_fails db0 tasks in
  (forall (i : nat) e, entries !! i = Some e -> missing_mapping e = true ->
      log r !! i = Some (Skipped e))
  /\ (forall ev, In ev (log r) -> submitted ev <> None ->
        missing_mapping (event_entry ev) = false)
  /\ (imported r + failed r
      = length (List.filter (fun e => negb (missing_mapping e)) entries))%nat
  /\ (calls r = imported r + failed r)%nat
  /\ (forall harvestId,
        (forall e, In e entries ->
                   TimeEntry.harvest_id (Pending.te e) = harvestId ->
                   missing_mapping e = true) ->
        forall (i : nat) row, db0 !! i = Some row ->
                              TimeEntry.harvest_id row = harvestId ->
                              db r !! i = Some row).
Proof.
  cbv zeta. split; [|split; [|split; [|split]]].
  - intros i e. apply importTimeEntries_skips.
  - rewrite importTimeEntries_loop. intros ev Hev.
    pose proof (importLoop_submitted tz createTimesheet mark_fails
                  (sort_by_date (getAllPendingEntries db0 tasks))
                  {| db := db0; dateEndTimeMap := ∅; imported := 0; failed := 0;
                     calls := 0; log := [] |}) as H.
    simpl in H. specialize (H (List.Forall_nil _)).
    rewrite List.Forall_forall in H. apply H. exact Hev.
  - rewrite importTimeEntries_loop.
    match goal with |- context [importLoop _ _ _ ?s ?l] =>
      destruct (importLoop_counters tz createTimesheet mark_fails l s) as [H _] end.
    rewrite H. reflexivity.
  - rewrite importTimeEntries_loop.
    match goal with |- context [importLoop _ _ _ ?s ?l] =>
      destruct (importLoop_counters tz createTimesheet mark_fails l s) as [H1 H2] end.
    rewrite H1, H2. reflexivity.
  - intros harvestId Hall i row Hi Hrow. rewrite importTimeEntries_loop.
    apply (importLoop_db_untouched tz createTimesheet mark_fails harvestId); assumption.
Qed.

(** Two entries with a mapping at two places of a run: their events, the
    objects submitted for them, and the map between them. *)
Lemma importTimeEntries_pair tz createTimesheet mark_fails db0 tasks pre e1 mid e2 post :
  sort_by_date (getAllPendingEntries db0 tasks) = pre ++ e1 :: mid ++ e2 :: post ->
  missing_mapping e1 = false -> missing_mapping e2 = false ->
  let r := importTimeEntries tz createTimesheet mark_fails db0 tasks in
  let s1 :=
    importLoop tz createTimesheet mark_fails
      {| db := db0; dateEndTimeMap := ∅; imported := 0; failed := 0;
         calls := 0; log := [] |} pre in
  let k1 := fst (transformEntry tz e1 (dateEndTimeMap s1)) in
  let s2 := importLoop tz createTimesheet mark_fails (importStep tz createTimesheet
      mark_fails s1 e1) mid in
  let k2 := fst (transformEntry tz e2 (dateEndTimeMap s2)) in
  exists ev1 ev2,
    log r !! length pre = Some ev1
    /\ event_entry ev1 = e1 /\ submitted ev1 = Some k1
    /\ log r !! (length pre + S (length mid))%nat = Some ev2
    /\ event_entry ev2 = e2 /\ submitted ev2 = Some k2
    /\ dateEndTimeMap (importStep tz createTimesheet mark_fails s1 e1)
       = <[TimeEntry.date (Pending.te e1) := Kimai.end_ k1]> (dateEndTimeMap s1).
Proof.
  intros Hs Hm1 Hm2. cbv zeta.
  set (start := {| db := db0; dateEndTimeMap := ∅; imported := 0; failed := 0;
                   calls := 0; log := [] |}).
  set (s1 := importLoop tz createTimesheet mark_fails start pre).
  set (s2 := importLoop tz createTimesheet mark_fails (importStep tz createTimesheet
      mark_fails s1 e1) mid).
  destruct (importTimeEntries_log_at tz createTimesheet mark_fails db0 tasks _ _ _ Hs)
    as (ev1 & Hev1 & Hlog1).
  fold start s1 in Hev1.
  destruct (importStep_submit tz createTimesheet mark_fails s1 e1 Hm1)
    as [Hmap (ev1' & Hev1' & He1 & Hk1 & _)].
  rewrite Hev1' in Hev1. apply app_inv_head in Hev1. injection Hev1 as ->.
  assert (Hs' : sort_by_date (getAllPendingEntries db0 tasks)
                = (pre ++ e1 :: mid) ++ e2 :: post).
  { rewrite Hs, <- app_assoc. reflexivity. }
  destruct (importTimeEntries_log_at tz createTimesheet mark_fails db0 tasks _ _ _ Hs')
    as (ev2 & Hev2 & Hlog2).
  fold start in Hev2. rewrite importLoop_app in Hev2.
  change (importLoop tz createTimesheet mark_fails (importLoop tz createTimesheet
      mark_fails start pre)
            (e1 :: mid)) with s2 in Hev2.
  destruct (importStep_submit tz createTimesheet mark_fails s2 e2 Hm2)
    as [_ (ev2' & Hev2' & He2 & Hk2 & _)].
  rewrite Hev2' in Hev2. apply app_inv_head in Hev2. injection Hev2 as ->.
  rewrite length_app in Hlog2. simpl in Hlog2.
  exists ev1, ev2. repeat split; assumption.
Qed.

(** C10 (amended). The end time of an entry is put into the map when the
    entry is transformed, before the request to Kimai: the map after the
    loop body holds it whatever the answer is. Hence, when the push of an
    entry fails, the next entry of that date that is submitted and falls
    under the chaining rule (it does not take its own [created_at]) begins
    at the end time derived for the failed entry: the failed entry keeps
    its slot in the chain of the day. *)
Theorem failed_push_keeps_its_slot
  (tz : Z) (createTimesheet : nat -> Kimai.entry -> option Z)
  (mark_fails : nat -> bool)
  (db0 : list TimeEntry.row) (tasks : list Task.row)
  (pre : list Pending.entry) (e1 : Pending.entry) (mid : list Pending.entry)
  (e2 : Pending.entry) (post : list Pending.entry) (k1 : Kimai.entry)
  (Hsorted : sort_by_date (getAllPendingEntries db0 tasks)
             = pre ++ e1 :: mid ++ e2 :: post)
  (Hfailed : log (importTimeEntries tz createTimesheet mark_fails db0 tasks) !! length pre
             = Some (Failed e1 k1))
  (Hmapped : missing_mapping e2 = false)
  (Hdate : TimeEntry.date (Pending.te e2) = TimeEntry.date (Pending.te e1))
  (Hchain : takes_created_at tz e2 = false)
  (Hmid : forall x, In x mid -> missing_mapping x = false ->
                    TimeEntry.date (Pending.te x) <> TimeEntry.date (Pending.te e1)) :
  (forall st e, missing_mapping e = false ->
     dateEndTimeMap (importStep tz createTimesheet mark_fails st e)
       !! TimeEntry.date (Pending.te e)
     = Some (Kimai.end_ (fst (transformEntry tz e (dateEndTimeMap st)))))
  /\ exists ev2 k2,
       log (importTimeEntries tz createTimesheet mark_fails db0 tasks)
         !! (length pre + S (length mid))%nat = Some ev2
       /\ event_entry ev2 = e2
       /\ submitted ev2 = Some k2
       /\ Kimai.begin k2 = Kimai.end_ k1.
Proof.
  split.
  { intros st e Hm. destruct (importStep_submit tz createTimesheet mark_fails st e Hm)
      as [-> _].
    apply lookup_insert_eq. }
  assert (Hm1 : missing_mapping e1 = false).
  { destruct (missing_mapping e1) eqn:Em; [|reflexivity]. exfalso.
    pose proof (importTimeEntries_skips tz createTimesheet mark_fails db0 tasks
                  (length pre) e1) as Hskip.
    rewrite Hsorted, list_lookup_middle in Hskip by reflexivity.
    specialize (Hskip eq_refl Em). rewrite Hskip in Hfailed. discriminate. }
  destruct (importTimeEntries_pair tz createTimesheet mark_fails db0 tasks _ _ _ _ _
              Hsorted Hm1 Hmapped)
    as (ev1 & ev2 & Hl1 & He1 & Hk1 & Hl2 & He2 & Hk2 & Hmap).
  rewrite Hl1 in Hfailed. injection Hfailed as ->. simpl in Hk1.
  injection Hk1 as Hk1.
  eexists ev2, _. repeat split; [exact Hl2 | exact He2 | exact Hk2 |].
  apply transformEntry_chained; [exact Hchain|].
  rewrite Hdate, importLoop_map_other by exact Hmid.
  rewrite Hmap, Hk1. apply lookup_insert_eq.
Qed.



(** ** The properties on sample data *)



(** C10, as stated, fails for the entries after the next one: of three
    chained entries of 2025-03-10 the first is refused by Kimai; the second
    begins at the end derived for the first, 11:00, and the third begins at
    the end of the second, 12:00, not at the end of the failed entry. *)
Lemma third_entry_chains_on_the_second :
  match log (importTimeEntries 0 kimai_refuses_first no_io_error db_three_chained
      tasks_mapped) with
  | [Failed e1 k1; Imported e2 k2 _; Imported e3 k3 _] =>
      TimeEntry.date (Pending.te e3) = TimeEntry.date (Pending.te e1)
      /\ takes_created_at 0 e3 = false
      /\ Kimai.begin k2 = Kimai.end_ k1
      /\ Kimai.begin k3 = Kimai.end_ k2
      /\ Kimai.begin k3 <> Kimai.end_ k1
  | _ => False
  end.
Proof. vm_compute. repeat split. discriminate. Qed.

(** Kimai refuses the first of two chained entries: the second begins at
    the end derived for the first. *)
Lemma failed_push_keeps_its_slot_witness :
  exists ev2 k2,
    log (importTimeEntries 0 kimai_refuses_first no_io_error db_chained tasks_mapped)
        !! 1%nat
    = Some ev2
    /\ event_entry ev2 = mapped (row_10 2 0 None None "b" 1)
    /\ submitted ev2 = Some k2
    /\ Kimai.begin k2
       = Kimai.end_ (fst (transformEntry 0 (mapped (row_10 1 0 None None "a" 2)) ∅)).
Proof.
  apply (failed_push_keeps_its_slot 0 kimai_refuses_first no_io_error db_chained
      tasks_mapped
           [] (mapped (row_10 1 0 None None "a" 2)) []
           (mapped (row_10 2 0 None None "b" 1)) []
           (fst (transformEntry 0 (mapped (row_10 1 0 None None "a" 2)) ∅))).
  - reflexivity.
  - reflexivity.
  - reflexivity.
  - reflexivity.
  - reflexivity.
  - intros x [].
Defined.

(** C3, as stated, fails on a batch that carries a source id twice: the
    stored row 7 is updated by both entries in the first call, no row
    fails, and the table ends with the notes of the second entry; the
    second call classifies the first entry as changed again, updates the
    row, and resolves with [updated = 1] and [unchanged = 1]. *)
Lemma storeHarvestEntries_repeats_on_same_id :
  insertErrorCount (storeHarvestEntries no_io_error 0 batch_same_id db_imported) = 0%nat
  /\ updateErrorCount (storeHarvestEntries no_io_error 0 batch_same_id db_imported)
     = 0%nat
  /\ resolved
       (storeHarvestEntries no_io_error 0 batch_same_id
          (time_entries (storeHarvestEntries no_io_error 0 batch_same_id db_imported)))
     = {| inserted := 0; updated := 1; unchanged := 1 |}
  /\ List.map TimeEntry.notes
       (time_entries
          (storeHarvestEntries no_io_error 0 batch_same_id
             (time_entries (storeHarvestEntries no_io_error 0 batch_same_id
                 db_imported))))
     <> List.map TimeEntry.notes
          (time_entries (storeHarvestEntries no_io_error 0 batch_same_id db_imported)).
Proof. vm_compute. repeat split. discriminate. Qed.

(** An entry whose object has no [started_time] and no [ended_time] is
    stored with NULL in both columns and compares changed with its row in
    every call: the second call on the same one-entry batch resolves with
    [updated = 1] and [unchanged = 0], the third as well (the UPDATE
    rewrites the same values, so the table stays as it is). *)
Example storeHarvestEntries_repeats_without_times :
  let batch := [harvest_entry_without_times 8 "b"] in
  let first := storeHarvestEntries no_io_error 0 batch db_imported in
  let second := storeHarvestEntries no_io_error 0 batch (time_entries first) in
  let third := storeHarvestEntries no_io_error 0 batch (time_entries second) in
  resolved first = {| inserted := 1; updated := 0; unchanged := 0 |}
  /\ insertErrorCount first = 0%nat /\ updateErrorCount first = 0%nat
  /\ resolved second = {| inserted := 0; updated := 1; unchanged := 0 |}
  /\ resolved third = {| inserted := 0; updated := 1; unchanged := 0 |}
  /\ List.map TimeEntry.started_time (time_entries second) = [None; None].
Proof. vm_compute. repeat split. Qed.

(** A batch with the source ids 7 and 8 against a table that holds 7: the
    second call changes nothing. *)
Lemma storeHarvestEntries_idempotent_witness :
  storeHarvestEntries no_io_error 1 batch_distinct
    (time_entries (storeHarvestEntries no_io_error 0 batch_distinct db_imported))
  = {| resolved := {| inserted := 0; updated := 0; unchanged := 2 |};
       insertErrorCount := 0; updateErrorCount := 0;
       time_entries :=
         time_entries (storeHarvestEntries no_io_error 0 batch_distinct db_imported) |}.
Proof.
  apply (storeHarvestEntries_idempotent no_io_error 0 batch_distinct db_imported).
  - repeat constructor; simpl; intuition discriminate.
  - repeat constructor.
  - reflexivity.
  - reflexivity.
Defined.

(** Entry 7 is imported; after a reconciliation that changes its notes, an
    import run logs nothing about it. *)
Lemma reconciliation_keeps_import_status_witness :
  Forall (fun ev => TimeEntry.harvest_id (Pending.te (event_entry ev)) <> 7)
    (log (importTimeEntries 0 kimai_accepts no_io_error
            (time_entries
               (storeHarvestEntries no_io_error 0 batch_distinct db_imported))
            tasks_mapped)).
Proof.
  apply List.Forall_forall.
  apply (proj2 (reconciliation_keeps_import_status no_io_error 0 batch_distinct
                  db_imported) 0 kimai_accepts no_io_error tasks_mapped 7).
  - simpl. left. reflexivity.
  - intros r [<-|[]] _. reflexivity.
Defined.

(** The invariant on a table with one imported entry, through the three
    operations. *)
Lemma imported_implies_kimai_id_is_invariant_witness :
  imported_has_kimai_id
    (time_entries (storeHarvestEntries no_io_error 0 batch_distinct db_imported)) = true
  /\ imported_has_kimai_id (markAsImported 7 502 db_imported) = true
  /\ imported_has_kimai_id
       (db (importTimeEntries 0 kimai_accepts no_io_error db_imported tasks_mapped)) =
           true.
Proof.
  pose proof (imported_implies_kimai_id_is_invariant db_imported eq_refl)
    as (H1 & H2 & H3 & _).
  split; [apply H1 | split; [apply H2 | apply H3]].
Defined.


(** C7, as stated, fails: with an empty activity catalog the step is
    skipped and reports [unmatched = 0], while the catalog has one task and
    no task was updated. *)
Lemma unmatched_is_zero_without_activities :
  unmatched (matchTasksWithActivities in_order [] tasks_unmapped) = 0
  /\ Z.of_nat (length tasks_unmapped) - Z.of_nat (tasks_updated [] tasks_unmapped) = 1
  /\ tasks_table (matchTasksWithActivities in_order [] tasks_unmapped) = tasks_unmapped.
Proof. vm_compute. repeat split. Qed.

(** One activity, two tasks, one of them selected: one matched, one
    unmatched. *)
Lemma matchTasksWithActivities_counts_witness :
  unmatched (matchTasksWithActivities in_order activities_one tasks_two)
  = Z.of_nat (length tasks_two) - Z.of_nat (tasks_updated activities_one tasks_two)
  /\ matched (matchTasksWithActivities in_order activities_one tasks_two)
     = Z.of_nat (tasks_updated activities_one tasks_two).
Proof.
  apply (matchTasksWithActivities_counts in_order activities_one tasks_two).
  - repeat constructor; simpl; intuition discriminate.
  - repeat constructor; simpl; intuition discriminate.
  - discriminate.
Defined.

(** Two activities that select the same task are counted twice: two tasks,
    one of them updated, and the step reports two matched, none unmatched. *)
Example two_activities_one_task :
  matched (matchTasksWithActivities in_order activities_twice tasks_two) = 2
  /\ unmatched (matchTasksWithActivities in_order activities_twice tasks_two) = 0
  /\ matched (matchTasksWithActivities in_reverse activities_twice tasks_two) = 2
  /\ unmatched (matchTasksWithActivities in_reverse activities_twice tasks_two) = 0
  /\ tasks_updated activities_twice tasks_two = 1%nat.
Proof. vm_compute. repeat split. Qed.

(** With the task left without mapping, the first pending entry is logged
    as skipped and its row stays as it was. *)
Lemma unmapped_entries_are_left_out_witness :
  log (importTimeEntries 0 kimai_accepts no_io_error db_chained tasks_unmapped) !! 0%nat
  = Some (Skipped {| Pending.te := row_10 1 0 None None "a" 2;
                     Pending.kimai_project_id := None;
                     Pending.kimai_activity_id := None |})
  /\ db (importTimeEntries 0 kimai_accepts no_io_error db_chained tasks_unmapped) !! 0%nat
     = Some (row_10 1 0 None None "a" 2).
Proof.
  pose proof (unmapped_entries_are_left_out 0 kimai_accepts no_io_error db_chained
      tasks_unmapped)
    as (H1 & _ & _ & _ & H5).
  split.
  - apply H1; reflexivity.
  - apply (H5 1); [|reflexivity|reflexivity].
    intros e He _. simpl in He. destruct He as [<-|[<-|[]]]; reflexivity.
Defined.

(** * Further properties *)

(** ** The order in which entries are pushed *)

Lemma insert_by_date_perm e l : Permutation (insert_by_date e l) (e :: l).
Proof.
  induction l as [|x l IH]; simpl; [reflexivity|].
  destruct (_ <=? 0); [reflexivity|].
  rewrite IH. apply perm_swap.
Qed.

Lemma insert_by_date_filter d e l :
  List.filter (fun x => TimeEntry.date (Pending.te x) =? d) (insert_by_date e l)
  = List.filter (fun x => TimeEntry.date (Pending.te x) =? d) (e :: l).
Proof.
  induction l as [|x l IH]; [reflexivity|].
  cbn [insert_by_date].
  destruct (_ <=? 0) eqn:E; [reflexivity|].
  cbn [List.filter] in *. rewrite IH.
  unfold Date_of_date, msPerDay in E. apply Z.leb_gt in E.
  destruct (TimeEntry.date (Pending.te e) =? d) eqn:E1;
    destruct (TimeEntry.date (Pending.te x) =? d) eqn:E2; try reflexivity.
  apply Z.eqb_eq in E1, E2. lia.
Qed.

Lemma insert_by_date_sorted e l :
  StronglySorted (fun a b => TimeEntry.date (Pending.te a)
                             <= TimeEntry.date (Pending.te b)) l ->
  StronglySorted (fun a b => TimeEntry.date (Pending.te a)
                             <= TimeEntry.date (Pending.te b)) (insert_by_date e l).
Proof.
  induction 1 as [|x l Hs IH Hx]; simpl.
  - constructor; constructor.
  - destruct (_ <=? 0) eqn:E; unfold Date_of_date, msPerDay in E.
    + apply Z.leb_le in E. constructor; [constructor; assumption|].
      constructor; [lia|]. eapply List.Forall_impl; [|exact Hx].
      simpl. intros a Ha. lia.
    + apply Z.leb_gt in E. constructor; [exact IH|].
      eapply Permutation_Forall; [symmetry; apply insert_by_date_perm|].
      constructor; [lia | exact Hx].
Qed.

(** X1. The sort before the loop puts the pending entries in ascending
    order of date, keeps all of them, and keeps the entries of one date in
    the order in which the store returned them. *)
Theorem sort_by_date_is_a_stable_sort (entries : list Pending.entry) :
  Permutation (sort_by_date entries) entries
  /\ StronglySorted (fun a b => TimeEntry.date (Pending.te a)
                                <= TimeEntry.date (Pending.te b))
       (sort_by_date entries)
  /\ forall d,
       List.filter (fun x => TimeEntry.date (Pending.te x) =? d) (sort_by_date entries)
       = List.filter (fun x => TimeEntry.date (Pending.te x) =? d) entries.
Proof.
  induction entries as [|e l (IHp & IHs & IHf)]; simpl.
  - repeat split; constructor.
  - split; [|split].
    + rewrite insert_by_date_perm. constructor. exact IHp.
    + apply insert_by_date_sorted. exact IHs.
    + intros d. rewrite insert_by_date_filter. simpl. rewrite IHf. reflexivity.
Qed.

(** ** The interval derived for one entry *)

Lemma Math_round_bounds (x : Q) :
  (x - (1 # 2) < inject_Z (Math_round x) /\ inject_Z (Math_round x) <= x + (1 # 2))%Q.
Proof.
  unfold Math_round. split.
  - pose proof (Qlt_floor (x + (1 # 2))) as H.
    rewrite inject_Z_plus in H. change (inject_Z 1) with 1%Q in H. lra.
  - apply Qfloor_le.
Qed.

Lemma roundTiesToEven_nonneg (q : Q) : (0 <= q)%Q -> 0 <= roundTiesToEven q.
Proof.
  intros H. unfold roundTiesToEven.
  assert (Hf : 0 <= Qfloor q)
    by (change 0 with (Qfloor 0); apply Qfloor_resp_le; exact H).
  destruct (Qcompare _ _); [destruct (Z.even _)|..]; lia.
Qed.

Lemma to_Number_nonneg (q : Q) : (0 <= q)%Q -> (0 <= to_Number q)%Q.
Proof.
  intros H. unfold to_Number. destruct (Qeq_bool q 0); [apply Qle_refl|].
  cbv zeta. apply Qmult_le_0_compat.
  - change 0%Q with (inject_Z 0). rewrite <- Zle_Qle.
    apply roundTiesToEven_nonneg. apply Qmult_le_0_compat; [exact H|].
    apply Qpower_0_le. discriminate.
  - apply Qpower_0_le. discriminate.
Qed.

Lemma rounded_minutes_nonneg (entry : Pending.entry) :
  (0 <= TimeEntry.hours (Pending.te entry))%Q -> 0 <= rounded_minutes entry.
Proof.
  intros Hpos. unfold rounded_minutes, Math_round, Number_multiply.
  change 0 with (Qfloor 0). apply Qfloor_resp_le.
  assert (H60 : (0 <= 60)%Q) by discriminate.
  pose proof (to_Number_nonneg (TimeEntry.hours (Pending.te entry) * 60)
                (Qmult_le_0_compat _ _ Hpos H60)) as H.
  lra.
Qed.

(** The product [hours * 60] is rounded to a Number before [Math.round]
    sees it: the Number 0.575 times 60 is exactly 34.5 and gives 35
    minutes, where the exact product is below 34.5; the Number 1.025 times
    60 is below 61.5 and gives 61 minutes, where the product of the
    decimals is 61.5. *)
Example rounded_product_samples :
  Math_round (Number_multiply (to_Number (575 # 1000)) 60) = 35
  /\ Math_round (to_Number (575 # 1000) * 60)%Q = 34
  /\ Math_round (Number_multiply (to_Number (1025 # 1000)) 60) = 61
  /\ Math_round ((1025 # 1000) * 60)%Q = 62.
Proof. repeat split. Qed.

(** X2. The interval sent to Kimai: [end] is [begin] moved by
    [Math.round(hours * 60)] minutes of local time, where the product is
    the Number the multiplication gives and the rounded value is within
    half a minute of it. The time value moves by as many minutes and by
    the difference between the offset of the zone at [begin] and the
    offset by which the local time of the end is read: on a host without
    a change of the offset in between, the interval lasts exactly the
    rounded minutes, and an entry whose hours are not negative does not
    end before it begins. *)
Theorem transformEntry_lasts_the_rounded_minutes
  (tz : zone) (entry : Pending.entry) (ends : gmap Z Z) :
  let k := fst (transformEntry tz entry ends) in
  let product := Number_multiply (TimeEntry.hours (Pending.te entry)) 60 in
  let offset_end :=
    LocalTZA_local tz
      (LocalTime tz (Kimai.begin k) + rounded_minutes entry * msPerMinute) in
  Kimai.end_ k - Kimai.begin k
  = rounded_minutes entry * msPerMinute
    + (LocalTZA_utc tz (Kimai.begin k) - offset_end)
  /\ (product - (1 # 2) < inject_Z (rounded_minutes entry)
      /\ inject_Z (rounded_minutes entry) <= product + (1 # 2))%Q
  /\ (offset_end = LocalTZA_utc tz (Kimai.begin k) ->
      Kimai.end_ k - Kimai.begin k = rounded_minutes entry * msPerMinute
      /\ ((0 <= TimeEntry.hours (Pending.te entry))%Q ->
          Kimai.begin k <= Kimai.end_ k)).
Proof.
  cbv zeta. pose proof (transformEntry_end_local tz entry ends) as He.
  pose proof (Math_round_bounds
                (Number_multiply (TimeEntry.hours (Pending.te entry)) 60))
    as [Hlo Hhi].
  split; [lia|]. split; [split; assumption|].
  intros Hsame. split; [lia|]. intros Hpos.
  pose proof (rounded_minutes_nonneg entry Hpos). unfold msPerMinute in *. lia.
Qed.

(** In New York an entry of twenty hours dated 2025-03-09 begins at 09:00
    on 2025-03-08, the evening before the clocks go forward: the interval
    lasts 1140 minutes. *)
Example twenty_hours_across_the_change :
  Kimai.begin (fst (transformEntry new_york_spring_2025
                      (mapped (row_on (days_from_civil 2025 3 9) 20)) ∅))
  = days_from_civil 2025 3 8 * msPerDay + 14 * msPerHour
  /\ Kimai.end_ (fst (transformEntry new_york_spring_2025
                        (mapped (row_on (days_from_civil 2025 3 9) 20)) ∅))
     - Kimai.begin (fst (transformEntry new_york_spring_2025
                           (mapped (row_on (days_from_civil 2025 3 9) 20)) ∅))
     = 1140 * msPerMinute.
Proof. split; reflexivity. Qed.

(** X3. In a time zone at or east of UTC [transformEntry] begins an entry
    by the three rules: at its creation timestamp when that falls on the
    date of the entry; otherwise at the end recorded for the date; otherwise
    at 09:00 local time of the date. *)
Theorem transformEntry_follows_the_rules_east_of_utc
  (tz : Z) (Htz : 0 <= tz < msPerDay) (entry : Pending.entry) (ends : gmap Z Z) :
  Kimai.begin (fst (transformEntry tz entry ends))
  = (if has_same_date_created_at tz entry then
       default 0 (TimeEntry.created_at (Pending.te entry))
     else match ends !! TimeEntry.date (Pending.te entry) with
          | Some lastEnd => lastEnd
          | None => nine_local tz (TimeEntry.date (Pending.te entry))
          end)
  /\ LocalTime tz (nine_local tz (TimeEntry.date (Pending.te entry)))
     = MakeDate (TimeEntry.date (Pending.te entry)) (MakeTime 9 0 0 0).
Proof.
  split.
  - apply (transformEntry_policy_east tz entry ends Htz).
  - unfold nine_local. rewrite LocalTime_fixed, UTC_fixed. lia.
Qed.

Lemma transformEntry_follows_the_rules_east_of_utc_witness :
  Kimai.begin (fst (transformEntry msPerHour (mapped row_11) ∅))
  = (if has_same_date_created_at msPerHour (mapped row_11) then
       default 0 (TimeEntry.created_at (Pending.te (mapped row_11)))
     else match (∅ : gmap Z Z) !! TimeEntry.date (Pending.te (mapped row_11)) with
          | Some lastEnd => lastEnd
          | None => nine_local msPerHour (TimeEntry.date (Pending.te (mapped row_11)))
          end)
  /\ LocalTime msPerHour
       (nine_local msPerHour (TimeEntry.date (Pending.te (mapped row_11))))
     = MakeDate (TimeEntry.date (Pending.te (mapped row_11))) (MakeTime 9 0 0 0).
Proof.
  apply (transformEntry_follows_the_rules_east_of_utc msPerHour
           ltac:(unfold msPerHour, msPerDay; lia) (mapped row_11) ∅).
Defined.

(** X4. In a time zone west of UTC the date of an entry is read one day
    early: the first entry of a day that has no creation timestamp begins
    at 09:00 local time of the day before its date, and a creation
    timestamp is taken as begin exactly when it falls, in local time, on
    the day before the date of the entry. *)
Theorem transformEntry_reads_the_day_before_west_of_utc
  (tz : Z) (Htz : - msPerDay <= tz < 0) (entry : Pending.entry) (ends : gmap Z Z) :
  (TimeEntry.created_at (Pending.te entry) = None ->
   ends !! TimeEntry.date (Pending.te entry) = None ->
   Kimai.begin (fst (transformEntry tz entry ends))
   = nine_local tz (TimeEntry.date (Pending.te entry) - 1))
  /\ takes_created_at tz entry
     = match TimeEntry.created_at (Pending.te entry) with
       | Some c => date_eqb (calendar_date tz c)
                            (own_date (TimeEntry.date (Pending.te entry) - 1))
       | None => false
       end.
Proof.
  split.
  - apply transformEntry_nine_west. exact Htz.
  - unfold takes_created_at.
    destruct (TimeEntry.created_at (Pending.te entry)) as [c|]; [|reflexivity].
    unfold sameDate, date_eqb, calendar_date, own_date, getFullYear, getMonth, getDate.
    rewrite (Day_local_midnight_west tz _ Htz). reflexivity.
Qed.

Lemma transformEntry_reads_the_day_before_west_of_utc_witness :
  Kimai.begin (fst (transformEntry tz_west (mapped row_11) ∅))
  = nine_local tz_west (day_2025_03_11 - 1).
Proof.
  apply (proj1 (transformEntry_reads_the_day_before_west_of_utc tz_west
                  ltac:(unfold tz_west, msPerHour, msPerDay; lia)
                  (mapped row_11) ∅)); reflexivity.
Defined.

(** ** What an import run does to the store *)

Lemma lookup_In {A} (l : list A) (i : nat) x : l !! i = Some x -> In x l.
Proof.
  revert i. induction l as [|y l IH]; intros [|i]; simpl; try discriminate.
  - intros [= ->]. left. reflexivity.
  - intros H. right. exact (IH i H).
Qed.

Lemma same_entry_data_refl r : same_entry_data r r.
Proof. repeat split. Qed.

Lemma same_or_marked_refl r : same_or_marked r r.
Proof. split; [apply same_entry_data_refl | left; reflexivity]. Qed.

Lemma same_or_marked_trans r1 r2 r3 :
  same_or_marked r1 r2 -> same_or_marked r2 r3 -> same_or_marked r1 r3.
Proof.
  intros [H1 H1'] [H2 H2']. split.
  - unfold same_entry_data in *. intuition congruence.
  - destruct H2' as [->|H2']; [exact H1' | right; exact H2'].
Qed.

Lemma Forall2_same_or_marked_refl l : Forall2 same_or_marked l l.
Proof. induction l; constructor; [apply same_or_marked_refl | assumption]. Qed.

Lemma markAsImported_same_or_marked harvestId kimaiId rows :
  Forall2 same_or_marked rows (markAsImported harvestId kimaiId rows).
Proof.
  unfold markAsImported. induction rows as [|r rows IH]; simpl; constructor;
    [|exact IH].
  destruct (TimeEntry.harvest_id r =? harvestId).
  - split; [repeat split|]. right. simpl. split; [reflexivity | discriminate].
  - apply same_or_marked_refl.
Qed.

Lemma markAsImported_marked harvestId kimaiId rows :
  marked harvestId (markAsImported harvestId kimaiId rows).
Proof.
  intros row Hr Hh. unfold markAsImported in Hr.
  apply in_map_iff in Hr as (r0 & Hr0 & _).
  destruct (TimeEntry.harvest_id r0 =? harvestId) eqn:E.
  - subst row. simpl. split; [reflexivity | discriminate].
  - subst row. apply Z.eqb_neq in E. contradiction.
Qed.

Lemma markAsImported_keeps_marked h harvestId kimaiId rows :
  marked h rows -> marked h (markAsImported harvestId kimaiId rows).
Proof.
  intros H row Hr Hh. unfold markAsImported in Hr.
  apply in_map_iff in Hr as (r0 & Hr0 & Hin).
  destruct (TimeEntry.harvest_id r0 =? harvestId) eqn:E.
  - subst row. simpl. split; [reflexivity | discriminate].
  - subst row. apply (H r0 Hin Hh).
Qed.

Section ImportRunStore.

Variable tz : zone.
Variable createTimesheet : nat -> Kimai.entry -> option Z.
Variable mark_fails : nat -> bool.

Lemma importStep_same_or_marked st e :
  Forall2 same_or_marked (db st) (db (importStep tz createTimesheet mark_fails st e)).
Proof.
  unfold importStep. destruct (missing_mapping e);
    [apply Forall2_same_or_marked_refl|].
  destruct (transformEntry tz e (dateEndTimeMap st)) as [k m'].
  destruct (createTimesheet (calls st) k); [destruct (mark_fails (calls st))|];
    [apply Forall2_same_or_marked_refl | apply markAsImported_same_or_marked
    | apply Forall2_same_or_marked_refl].
Qed.

Lemma importLoop_same_or_marked l :
  forall st, Forall2 same_or_marked (db st) (db (importLoop tz createTimesheet
      mark_fails st l)).
Proof.
  induction l as [|e l IH]; intros st; [apply Forall2_same_or_marked_refl|].
  change (importLoop tz createTimesheet mark_fails st (e :: l))
    with (importLoop tz createTimesheet mark_fails (importStep tz createTimesheet
        mark_fails st e) l).
  eapply Forall2_trans; [apply same_or_marked_trans | apply importStep_same_or_marked
                        | apply IH].
Qed.

Lemma importStep_keeps_marked h st e :
  marked h (db st) -> marked h (db (importStep tz createTimesheet mark_fails st e)).
Proof.
  intros H. unfold importStep. destruct (missing_mapping e); [exact H|].
  destruct (transformEntry tz e (dateEndTimeMap st)) as [k m'].
  destruct (createTimesheet (calls st) k); [destruct (mark_fails (calls st))|];
    simpl; try exact H.
  apply markAsImported_keeps_marked. exact H.
Qed.

Lemma importLoop_keeps_marked h l :
  forall st, marked h (db st) -> marked h (db (importLoop tz createTimesheet
      mark_fails st l)).
Proof.
  induction l as [|e l IH]; intros st H; [exact H|].
  apply (IH (importStep tz createTimesheet mark_fails st e)).
  apply importStep_keeps_marked. exact H.
Qed.

(** The counters count the events; the rows of every entry that Kimai
    accepted are marked. *)
Lemma importLoop_events l :
  forall st,
    imported st = length (List.filter is_imported_event (log st)) ->
    failed st = length (List.filter is_failed_event (log st)) ->
    (forall ev, In ev (log st) -> is_imported_event ev = true ->
                marked (TimeEntry.harvest_id (Pending.te (event_entry ev))) (db st)) ->
    let r := importLoop tz createTimesheet mark_fails st l in
    imported r = length (List.filter is_imported_event (log r))
    /\ failed r = length (List.filter is_failed_event (log r))
    /\ (forall ev, In ev (log r) -> is_imported_event ev = true ->
                   marked (TimeEntry.harvest_id (Pending.te (event_entry ev))) (db r)).
Proof.
  induction l as [|e l IH]; intros st Hi Hf Hm; [cbv zeta; auto|].
  apply (IH (importStep tz createTimesheet mark_fails st e)); unfold importStep;
    destruct (missing_mapping e).
  - simpl. rewrite List.filter_app, List.length_app. simpl. lia.
  - destruct (transformEntry tz e (dateEndTimeMap st)) as [k m'].
    destruct (createTimesheet (calls st) k); [destruct (mark_fails (calls st))|];
      simpl; rewrite List.filter_app, List.length_app; simpl; lia.
  - simpl. rewrite List.filter_app, List.length_app. simpl. lia.
  - destruct (transformEntry tz e (dateEndTimeMap st)) as [k m'].
    destruct (createTimesheet (calls st) k); [destruct (mark_fails (calls st))|];
      simpl; rewrite List.filter_app, List.length_app; simpl; lia.
  - simpl. intros ev Hev Hie. apply in_app_or in Hev as [Hev|[<-|[]]];
      [apply Hm; assumption | discriminate].
  - destruct (transformEntry tz e (dateEndTimeMap st)) as [k m'].
    destruct (createTimesheet (calls st) k) as [kimaiId|];
      [destruct (mark_fails (calls st))|]; simpl;
      intros ev Hev Hie; apply in_app_or in Hev as [Hev|[<-|[]]].
    + apply Hm; assumption.
    + discriminate.
    + apply markAsImported_keeps_marked. apply Hm; assumption.
    + simpl. apply markAsImported_marked.
    + apply Hm; assumption.
    + discriminate.
Qed.

Lemma combine_seq_snoc {A} (l : list A) x :
  forall start,
    combine (seq start (length (l ++ [x]))) (l ++ [x])
    = combine (seq start (length l)) l ++ [((start + length l)%nat, x)].
Proof.
  induction l as [|y l IH]; intros start; simpl.
  - rewrite Nat.add_0_r. reflexivity.
  - rewrite IH, Nat.add_succ_r. reflexivity.
Qed.

Lemma requests_skip l ev :
  submitted ev = None -> requests (l ++ [ev]) = requests l.
Proof.
  intros H. unfold requests. rewrite flat_map_app. simpl. rewrite H, !app_nil_r.
  reflexivity.
Qed.

Lemma requests_submit l ev k :
  submitted ev = Some k ->
  requests (l ++ [ev]) = requests l ++ [(length (requests l), k)].
Proof.
  intros H. unfold requests. rewrite flat_map_app. simpl. rewrite H. simpl.
  rewrite combine_seq_snoc, length_combine, length_seq, Nat.min_id. reflexivity.
Qed.

(** The requests are numbered as they are made, each event of a submitted
    entry tells the answers to its request, and [imported] counts the
    requests that were answered with an id and whose row was marked. *)
Lemma importStep_answers st e :
  calls st = length (List.filter is_submission (log st)) ->
  calls st = length (requests (log st)) ->
  (forall (n : nat) ev, List.filter is_submission (log st) !! n = Some ev ->
                answered createTimesheet mark_fails n ev) ->
  imported st
  = length (List.filter (accepted_and_marked createTimesheet mark_fails)
              (requests (log st))) ->
  let r := importStep tz createTimesheet mark_fails st e in
  calls r = length (List.filter is_submission (log r))
  /\ calls r = length (requests (log r))
  /\ (forall (n : nat) ev, List.filter is_submission (log r) !! n = Some ev ->
                    answered createTimesheet mark_fails n ev)
  /\ imported r
     = length (List.filter (accepted_and_marked createTimesheet mark_fails)
                 (requests (log r))).
Proof.
  intros Hc Hq Ha Hi. cbv zeta.
  assert (Hlook : forall ev,
            answered createTimesheet mark_fails (calls st) ev ->
            forall (n : nat) ev',
              (List.filter is_submission (log st) ++ [ev]) !! n = Some ev' ->
              answered createTimesheet mark_fails n ev').
  { intros ev Hev n ev' H. apply lookup_app_Some in H as [H|[Hn H]]; [auto|].
    apply list_lookup_singleton_Some in H as [Hn' <-].
    replace n with (calls st) by lia. exact Hev. }
  assert (Hnew : forall ev k,
            submitted ev = Some k ->
            length (List.filter (accepted_and_marked createTimesheet mark_fails)
                      (requests (log st ++ [ev])))
            = (imported st
               + if accepted_and_marked createTimesheet mark_fails (calls st, k)
                 then 1 else 0)%nat).
  { intros ev k Hk. rewrite (requests_submit _ _ _ Hk), List.filter_app, List.length_app.
    rewrite <- Hi, <- Hq. cbn [List.filter].
    destruct (accepted_and_marked _ _ _); reflexivity. }
  unfold importStep. destruct (missing_mapping e).
  - cbn [log calls imported]. rewrite List.filter_app, requests_skip by reflexivity.
    cbn [List.filter is_submission]. rewrite app_nil_r. auto.
  - destruct (transformEntry tz e (dateEndTimeMap st)) as [k m'].
    destruct (createTimesheet (calls st) k) as [kimaiId|] eqn:Ek;
      [destruct (mark_fails (calls st)) eqn:Em|];
      cbn [log calls imported];
      rewrite List.filter_app; (erewrite Hnew by reflexivity);
      (erewrite requests_submit by reflexivity);
      cbn [List.filter is_submission]; rewrite !List.length_app; cbn [length];
      unfold accepted_and_marked; cbn [fst snd]; rewrite Ek, ?Em; cbn [negb];
      (split; [lia|]); (split; [lia|]); (split; [|lia]); apply Hlook.
    + right. split; [congruence | exact Em].
    + split; assumption.
    + left. exact Ek.
Qed.

Lemma importLoop_answers l :
  forall st,
    calls st = length (List.filter is_submission (log st)) ->
    calls st = length (requests (log st)) ->
    (forall (n : nat) ev, List.filter is_submission (log st) !! n = Some ev ->
                  answered createTimesheet mark_fails n ev) ->
    imported st
    = length (List.filter (accepted_and_marked createTimesheet mark_fails)
                (requests (log st))) ->
    let r := importLoop tz createTimesheet mark_fails st l in
    calls r = length (List.filter is_submission (log r))
    /\ calls r = length (requests (log r))
    /\ (forall (n : nat) ev, List.filter is_submission (log r) !! n = Some ev ->
                      answered createTimesheet mark_fails n ev)
    /\ imported r
       = length (List.filter (accepted_and_marked createTimesheet mark_fails)
                   (requests (log r))).
Proof.
  induction l as [|e l IH]; intros st Hc Hq Ha Hi; [cbv zeta; auto|].
  destruct (importStep_answers st e Hc Hq Ha Hi) as (H1 & H2 & H3 & H4).
  apply (IH (importStep tz createTimesheet mark_fails st e)); assumption.
Qed.

Lemma failed_importStep st e :
  (failed st <= failed (importStep tz createTimesheet mark_fails st e))%nat.
Proof.
  unfold importStep. destruct (missing_mapping e); [simpl; lia|].
  destruct (transformEntry tz e (dateEndTimeMap st)) as [k m'].
  destruct (createTimesheet (calls st) k); [destruct (mark_fails (calls st))|]; simpl;
      lia.
Qed.

Lemma failed_importLoop l :
  forall st, (failed st <= failed (importLoop tz createTimesheet mark_fails st l))%nat.
Proof.
  induction l as [|e l IH]; intros st; [simpl; lia|].
  etransitivity; [apply (failed_importStep st e)|].
  apply (IH (importStep tz createTimesheet mark_fails st e)).
Qed.

(** When no push fails, every entry with a mapping ends up marked. *)
Lemma importLoop_marks_all l :
  forall st,
    failed (importLoop tz createTimesheet mark_fails st l) = failed st ->
    forall e, In e l -> missing_mapping e = false ->
      marked (TimeEntry.harvest_id (Pending.te e))
        (db (importLoop tz createTimesheet mark_fails st l)).
Proof.
  induction l as [|e l IH]; intros st Hf x Hx Hmx; [destruct Hx|].
  change (importLoop tz createTimesheet mark_fails st (e :: l))
    with (importLoop tz createTimesheet mark_fails (importStep tz createTimesheet
        mark_fails st e) l) in *.
  pose proof (failed_importStep st e) as H1.
  pose proof (failed_importLoop l (importStep tz createTimesheet mark_fails st e)) as H2.
  destruct Hx as [<-|Hx]; [|apply IH; [lia | exact Hx | exact Hmx]].
  apply importLoop_keeps_marked.
  assert (Hs : failed (importStep tz createTimesheet mark_fails st e) = failed st) by lia.
  revert Hs. unfold importStep. rewrite Hmx.
  destruct (transformEntry tz e (dateEndTimeMap st)) as [k m'].
  destruct (createTimesheet (calls st) k); [destruct (mark_fails (calls st))|];
    simpl; [lia | intros _ | lia].
  apply markAsImported_marked.
Qed.

End ImportRunStore.

Lemma importTimeEntries_same_or_marked tz createTimesheet mark_fails db0 tasks :
  Forall2 same_or_marked db0 (db (importTimeEntries tz createTimesheet mark_fails db0
      tasks)).
Proof.
  rewrite importTimeEntries_loop.
  apply (importLoop_same_or_marked tz createTimesheet mark_fails
           (sort_by_date (getAllPendingEntries db0 tasks))
           {| db := db0; dateEndTimeMap := ∅; imported := 0; failed := 0;
              calls := 0; log := [] |}).
Qed.

(** X5. An import run only marks rows: the table keeps its rows in place,
    each with all the fields of its entry, and a row differs from before
    only by being marked as imported with a Kimai id; in particular a row
    that was imported stays imported. When the source ids of the table are
    pairwise distinct, the rows that were not pending are exactly as
    before. *)
Theorem importTimeEntries_only_marks_rows
  (tz : Z) (createTimesheet : nat -> Kimai.entry -> option Z)
  (mark_fails : nat -> bool)
  (db0 : list TimeEntry.row) (tasks : list Task.row) :
  let r := importTimeEntries tz createTimesheet mark_fails db0 tasks in
  Forall2 same_or_marked db0 (db r)
  /\ (forall (i : nat) row, db0 !! i = Some row -> TimeEntry.imported row = 1 ->
        exists row', db r !! i = Some row' /\ TimeEntry.imported row' = 1)
  /\ (List.NoDup (List.map TimeEntry.harvest_id db0) ->
      forall (i : nat) row, db0 !! i = Some row -> TimeEntry.imported row <> 0 ->
                            db r !! i = Some row).
Proof.
  cbv zeta. rewrite importTimeEntries_loop.
  set (start := {| db := db0; dateEndTimeMap := ∅; imported := 0; failed := 0;
                   calls := 0; log := [] |}).
  pose proof (importLoop_same_or_marked tz createTimesheet mark_fails
                (sort_by_date (getAllPendingEntries db0 tasks)) start) as HF.
  split; [exact HF|]. split.
  - intros i row Hi Himp.
    destruct (Forall2_lookup_l _ _ _ _ _ HF Hi) as (row' & Hr' & _ & [Heq|[H1 _]]);
      exists row'; split; try assumption. rewrite Heq. exact Himp.
  - intros Hnd i row Hi Himp.
    apply (importLoop_db_untouched tz createTimesheet mark_fails (TimeEntry.harvest_id
        row));
      [|exact Hi|reflexivity].
    intros e He Hh. exfalso. apply (proj1 (In_sort_by_date _ _)) in He.
    apply In_getAllPendingEntries in He as [Hin Hp].
    assert (Pending.te e = row).
    { eapply NoDup_map_inj; [exact Hnd | exact Hin | eapply lookup_In; exact Hi |
        exact Hh]. }
    congruence.
Qed.

Lemma importTimeEntries_only_marks_rows_witness :
  db (importTimeEntries 0 kimai_accepts no_io_error
        (db_imported ++ [row_10 1 0 None None "a" 2]) tasks_mapped) !! 0%nat
  = Some (row_10 7 1 (Some 501) (Some at_14_00Z) "old" (3 # 2)).
Proof.
  apply (proj2 (proj2 (importTimeEntries_only_marks_rows 0 kimai_accepts no_io_error
                         (db_imported ++ [row_10 1 0 None None "a" 2]) tasks_mapped))).
  - repeat constructor; simpl; intuition discriminate.
  - reflexivity.
  - discriminate.
Defined.

(** X6. The counters of a run against the answers it was given. The run
    logs one event for each pending entry, in the sorted order, and makes
    one request for each entry with a mapping. The event of the [n]-th
    submitted entry is [Imported] with the id Kimai answered to request
    [n] when the row was then marked, and [Failed] when Kimai refused the
    request or [markAsImported] was rejected. The number the run returns
    is the number of requests that Kimai answered with an id and whose row
    was marked, [failed] is the number of the other requests, and
    afterwards every row of an entry logged as imported is marked as
    imported and has a Kimai id. *)
Theorem importTimeEntries_counts_what_it_marks
  (tz : Z) (createTimesheet : nat -> Kimai.entry -> option Z)
  (mark_fails : nat -> bool)
  (db0 : list TimeEntry.row) (tasks : list Task.row) :
  let r := importTimeEntries tz createTimesheet mark_fails db0 tasks in
  List.map event_entry (log r) = sort_by_date (getAllPendingEntries db0 tasks)
  /\ calls r = length (requests (log r))
  /\ (forall (n : nat) ev, List.filter is_submission (log r) !! n = Some ev ->
        answered createTimesheet mark_fails n ev)
  /\ imported r
     = length (List.filter (accepted_and_marked createTimesheet mark_fails) (requests
         (log r)))
  /\ (failed r = calls r - imported r)%nat
  /\ imported r = length (List.filter is_imported_event (log r))
  /\ failed r = length (List.filter is_failed_event (log r))
  /\ (forall ev, In ev (log r) -> is_imported_event ev = true ->
        marked (TimeEntry.harvest_id (Pending.te (event_entry ev))) (db r)).
Proof.
  cbv zeta. rewrite importTimeEntries_loop.
  set (start := {| db := db0; dateEndTimeMap := ∅; imported := 0; failed := 0;
                   calls := 0; log := [] |}).
  destruct (importLoop_counters tz createTimesheet mark_fails
              (sort_by_date (getAllPendingEntries db0 tasks)) start) as [C1 C2].
  simpl in C1, C2.
  destruct (importLoop_events tz createTimesheet mark_fails
              (sort_by_date (getAllPendingEntries db0 tasks)) start)
    as (H1 & H2 & H3); [reflexivity | reflexivity | intros ev [] |].
  destruct (importLoop_log tz createTimesheet mark_fails
              (sort_by_date (getAllPendingEntries db0 tasks)) start)
    as (evs & Hl & Hm).
  destruct (importLoop_answers tz createTimesheet mark_fails
              (sort_by_date (getAllPendingEntries db0 tasks)) start)
    as (_ & A2 & A3 & A4);
    [reflexivity | reflexivity | intros n ev H; destruct n; discriminate H
    | reflexivity |].
  split; [rewrite Hl; exact Hm|].
  split; [exact A2|]. split; [exact A3|]. split; [exact A4|].
  split; [lia|]. split; [exact H1|]. split; [exact H2 | exact H3].
Qed.

(** Kimai accepts both entries of the day, the row of the first cannot be
    marked: the run returns 1 and counts one failure; the first entry is
    still pending, and a second run creates a second timesheet for it. *)
Example accepted_but_not_marked_is_pushed_again :
  let first := importTimeEntries 0 kimai_accepts marking_fails_first
                 db_chained tasks_mapped in
  let second := importTimeEntries 0 kimai_accepts no_io_error (db first) tasks_mapped in
  imported first = 1%nat /\ failed first = 1%nat /\ calls first = 2%nat
  /\ List.map TimeEntry.imported (db first) = [0; 1]
  /\ List.map is_failed_event (log first) = [true; false]
  /\ List.map (fun ev => TimeEntry.harvest_id (Pending.te (event_entry ev)))
       (log second) = [1]
  /\ imported second = 1%nat.
Proof. vm_compute. repeat split. Qed.

Lemma left_join_same_task tasks r r' p :
  TimeEntry.task r = TimeEntry.task r' ->
  In p (left_join tasks r') ->
  In {| Pending.te := r;
        Pending.kimai_project_id := Pending.kimai_project_id p;
        Pending.kimai_activity_id := Pending.kimai_activity_id p |}
     (left_join tasks r).
Proof.
  unfold left_join. intros ->.
  destruct (List.filter _ tasks) as [|t ts].
  - intros [<-|[]]. left. reflexivity.
  - intros H. apply in_map_iff in H as (t' & <- & Ht').
    apply in_map_iff. exists t'. split; [reflexivity | exact Ht'].
Qed.

Lemma importLoop_all_skipped tz createTimesheet mark_fails l :
  forall st,
    (forall e, In e l -> missing_mapping e = true) ->
    db (importLoop tz createTimesheet mark_fails st l) = db st
    /\ calls (importLoop tz createTimesheet mark_fails st l) = calls st
    /\ imported (importLoop tz createTimesheet mark_fails st l) = imported st
    /\ failed (importLoop tz createTimesheet mark_fails st l) = failed st.
Proof.
  induction l as [|e l IH]; intros st H; [repeat split|].
  change (importLoop tz createTimesheet mark_fails st (e :: l))
    with (importLoop tz createTimesheet mark_fails (importStep tz createTimesheet
        mark_fails st e) l).
  destruct (IH (importStep tz createTimesheet mark_fails st e)) as (H1 & H2 & H3 & H4).
  { intros x Hx. apply H. right. exact Hx. }
  rewrite H1, H2, H3, H4.
  rewrite importStep_skip by (apply H; left; reflexivity).
  repeat split.
Qed.

(** X7. After a run of [importTimeEntries] in which no push failed (no
    request was refused and every row was marked), a second run finds no
    entry to push: it makes no request to Kimai,
    returns 0 and leaves the table as it is. *)
Theorem importTimeEntries_again_has_nothing_to_push
  (tz : Z) (createTimesheet : nat -> Kimai.entry -> option Z)
  (mark_fails : nat -> bool)
  (db0 : list TimeEntry.row) (tasks : list Task.row)
  (Hok : failed (importTimeEntries tz createTimesheet mark_fails db0 tasks) = 0%nat) :
  forall tz' createTimesheet' mark_fails',
    let r := importTimeEntries tz createTimesheet mark_fails db0 tasks in
    let r' := importTimeEntries tz' createTimesheet' mark_fails' (db r) tasks in
    calls r' = 0%nat /\ imported r' = 0%nat /\ failed r' = 0%nat /\ db r' = db r.
Proof.
  intros tz' createTimesheet' mark_fails'. cbv zeta.
  set (r := importTimeEntries tz createTimesheet mark_fails db0 tasks) in *.
  assert (Hall : forall p, In p (sort_by_date (getAllPendingEntries (db r) tasks)) ->
                           missing_mapping p = true).
  { intros p Hp. apply (proj1 (In_sort_by_date _ _)) in Hp.
    pose proof Hp as Hp'.
    apply In_getAllPendingEntries in Hp as [Hin Hpend].
    destruct (missing_mapping p) eqn:Em; [reflexivity|]. exfalso.
    pose proof (importTimeEntries_same_or_marked tz createTimesheet mark_fails db0 tasks)
      as HF. fold r in HF.
    destruct (Forall2_In_r _ _ _ _ HF Hin) as (row & Hrow & Hdata & Hmark).
    set (p0 := {| Pending.te := row;
                  Pending.kimai_project_id := Pending.kimai_project_id p;
                  Pending.kimai_activity_id := Pending.kimai_activity_id p |}).
    assert (Hrow0 : TimeEntry.imported row = 0).
    { destruct Hmark as [Heq|[H1 _]]; [rewrite <- Heq; exact Hpend | congruence]. }
    assert (Hp0 : In p0 (getAllPendingEntries db0 tasks)).
    { unfold getAllPendingEntries. apply filter_In. split.
      - apply in_flat_map. exists row. split; [exact Hrow|].
        apply (left_join_same_task tasks row (Pending.te p) p).
        + destruct Hdata as (_ & _ & _ & _ & _ & Ht & _). symmetry. exact Ht.
        + unfold getAllPendingEntries in Hp'. apply filter_In in Hp' as [Hp' _].
          apply in_flat_map in Hp' as (x & Hx & Hj).
          rewrite (In_left_join _ _ _ Hj). exact Hj.
      - simpl. apply Z.eqb_eq. exact Hrow0. }
    assert (Hmp0 : missing_mapping p0 = false) by exact Em.
    assert (Hmarked : marked (TimeEntry.harvest_id row) (db r)).
    { unfold r. rewrite importTimeEntries_loop.
      apply (importLoop_marks_all tz createTimesheet mark_fails _ _) with (e := p0).
      - unfold r in Hok. rewrite importTimeEntries_loop in Hok. exact Hok.
      - apply In_sort_by_date. exact Hp0.
      - exact Hmp0. }
    destruct (Hmarked (Pending.te p) Hin) as [H1 _].
    + destruct Hdata as (_ & Hh & _). exact Hh.
    + congruence. }
  rewrite importTimeEntries_loop.
  destruct (importLoop_all_skipped tz' createTimesheet' mark_fails' _
              {| db := db r; dateEndTimeMap := ∅; imported := 0; failed := 0;
                 calls := 0; log := [] |} Hall) as (H1 & H2 & H3 & H4).
  rewrite H1, H2, H3, H4. repeat split.
Qed.

Lemma importTimeEntries_again_has_nothing_to_push_witness :
  calls (importTimeEntries tz_west kimai_refuses_first no_io_error
           (db (importTimeEntries 0 kimai_accepts no_io_error db_three_chained
               tasks_mapped))
           tasks_mapped) = 0%nat
  /\ imported (importTimeEntries tz_west kimai_refuses_first no_io_error
                 (db (importTimeEntries 0 kimai_accepts no_io_error db_three_chained
                     tasks_mapped))
                 tasks_mapped) = 0%nat
  /\ failed (importTimeEntries tz_west kimai_refuses_first no_io_error
               (db (importTimeEntries 0 kimai_accepts no_io_error db_three_chained
                   tasks_mapped))
               tasks_mapped) = 0%nat
  /\ db (importTimeEntries tz_west kimai_refuses_first no_io_error
           (db (importTimeEntries 0 kimai_accepts no_io_error db_three_chained
               tasks_mapped))
           tasks_mapped)
     = db (importTimeEntries 0 kimai_accepts no_io_error db_three_chained tasks_mapped).
Proof.
  apply (importTimeEntries_again_has_nothing_to_push 0 kimai_accepts no_io_error
           db_three_chained tasks_mapped eq_refl tz_west kimai_refuses_first no_io_error).
Defined.

(** X8. What a run derives and submits does not depend on the answers of
    Kimai, nor on those of the storage when the rows are marked: with any
    other answers the run logs events about the same
    entries, in the same order, with the same objects for Kimai. *)
Theorem importTimeEntries_derives_the_same_whatever_kimai_answers
  (tz : Z) (createTimesheet createTimesheet' : nat -> Kimai.entry -> option Z)
  (mark_fails mark_fails' : nat -> bool)
  (db0 : list TimeEntry.row) (tasks : list Task.row) :
  List.map (fun ev => (event_entry ev, submitted ev))
    (log (importTimeEntries tz createTimesheet mark_fails db0 tasks))
  = List.map (fun ev => (event_entry ev, submitted ev))
      (log (importTimeEntries tz createTimesheet' mark_fails' db0 tasks))
  /\ dateEndTimeMap (importTimeEntries tz createTimesheet mark_fails db0 tasks)
     = dateEndTimeMap (importTimeEntries tz createTimesheet' mark_fails' db0 tasks).
Proof.
  rewrite !importTimeEntries_loop.
  destruct (importLoop_answers_irrelevant tz createTimesheet mark_fails
              createTimesheet' mark_fails'
              (sort_by_date (getAllPendingEntries db0 tasks))
              {| db := db0; dateEndTimeMap := ∅; imported := 0; failed := 0;
                 calls := 0; log := [] |}
              {| db := db0; dateEndTimeMap := ∅; imported := 0; failed := 0;
                 calls := 0; log := [] |} eq_refl eq_refl) as [H1 H2].
  split; assumption.
Qed.

(** ** Reconciliation: keys, growth and what is stored *)

Lemma next_rowid_above db r : In r db -> TimeEntry.id r < next_rowid db.
Proof.
  unfold next_rowid. induction db as [|x db IH]; simpl; [tauto|].
  intros [->|H]; [lia|]. specialize (IH H). lia.
Qed.

Lemma has_harvest_id_In db h :
  has_harvest_id db h = false -> ~ In h (List.map TimeEntry.harvest_id db).
Proof.
  unfold has_harvest_id. intros H Hin. apply in_map_iff in Hin as (r & Hr & Hin).
  assert (existsb (fun r => TimeEntry.harvest_id r =? h) db = true); [|congruence].
  apply existsb_exists. exists r. split; [exact Hin | apply Z.eqb_eq; exact Hr].
Qed.

Lemma NoDup_app_one {A} (l : list A) x :
  List.NoDup l -> ~ In x l -> List.NoDup (l ++ [x]).
Proof.
  intros Hl Hx. apply NoDup_ListNoDup. apply NoDup_app. repeat split.
  - apply NoDup_ListNoDup. exact Hl.
  - intros y Hy Hy'. apply list_elem_of_In in Hy, Hy'. destruct Hy' as [<-|[]]. tauto.
  - apply NoDup_ListNoDup. repeat constructor. intros [].
Qed.

Lemma insertPhase_unique io now news :
  forall k st,
    (List.NoDup (List.map TimeEntry.harvest_id (rows st)) ->
     List.NoDup (List.map TimeEntry.harvest_id (rows (insertPhase io now k news st))))
    /\ (List.NoDup (List.map TimeEntry.id (rows st)) ->
        List.NoDup (List.map TimeEntry.id (rows (insertPhase io now k news st))))
    /\ (length (rows (insertPhase io now k news st)) + doneCount st
        = length (rows st) + doneCount (insertPhase io now k news st))%nat.
Proof.
  induction news as [|e l IH]; intros k st; simpl; [repeat split; auto|].
  destruct (io k || has_harvest_id (rows st) (Harvest.id e)) eqn:E.
  - apply (IH (S k) {| rows := rows st; doneCount := doneCount st;
                       errorCount := S (errorCount st) |}).
  - apply orb_false_iff in E as [_ E].
    destruct (IH (S k) {| rows := rows st ++ [inserted_row now (rows st) e];
                          doneCount := S (doneCount st);
                          errorCount := errorCount st |}) as (H1 & H2 & H3).
    simpl in *. split; [|split].
    + intros Hnd. apply H1. rewrite List.map_app. simpl.
      apply NoDup_app_one; [exact Hnd | apply has_harvest_id_In; exact E].
    + intros Hnd. apply H2. rewrite List.map_app. simpl.
      apply NoDup_app_one; [exact Hnd|].
      intros Hin. apply in_map_iff in Hin as (r & Hr & Hin).
      pose proof (next_rowid_above _ _ Hin). lia.
    + rewrite List.length_app in H3. simpl in H3. lia.
Qed.

Lemma same_import_status_keys l k :
  Forall2 same_import_status l k ->
  List.map TimeEntry.harvest_id k = List.map TimeEntry.harvest_id l
  /\ List.map TimeEntry.id k = List.map TimeEntry.id l.
Proof.
  induction 1 as [|x y l k (H1 & H2 & _) _ [IH1 IH2]]; [split; reflexivity|].
  simpl. rewrite H1, H2, IH1, IH2. split; reflexivity.
Qed.

(** X9. A reconciliation keeps the keys of table [time_entries] unique:
    pairwise distinct source ids stay pairwise distinct (an INSERT of a
    stored id fails and is counted as an error), and so do the row ids.
    The table never loses a row: it grows by as many rows as the call
    reports as inserted. *)
Theorem storeHarvestEntries_keeps_the_keys_unique
  (io : nat -> bool) (now : Z) (entries : list Harvest.entry)
  (db0 : list TimeEntry.row) :
  let s := storeHarvestEntries io now entries db0 in
  (List.NoDup (List.map TimeEntry.harvest_id db0) ->
   List.NoDup (List.map TimeEntry.harvest_id (time_entries s)))
  /\ (List.NoDup (List.map TimeEntry.id db0) ->
      List.NoDup (List.map TimeEntry.id (time_entries s)))
  /\ length (time_entries s) = (length db0 + inserted (resolved s))%nat.
Proof.
  cbv zeta. unfold storeHarvestEntries.
  destruct (Nat.eqb (length entries) 0); [simpl; repeat split; auto|].
  rewrite !filter_classify. rewrite insertPhase_guard, updatePhase_guard.
  set (news := List.filter (fun e => is_new (classify db0 e)) entries).
  set (upds := List.filter (fun e => is_changed (classify db0 e)) entries).
  set (start := {| rows := db0; doneCount := 0; errorCount := 0 |}).
  destruct (insertPhase_unique io now news 0 start) as (H1 & H2 & H3).
  set (ins := insertPhase io now 0 news start) in *.
  pose proof (updatePhase_rows io upds (length news)
                {| rows := rows ins; doneCount := 0; errorCount := 0 |}) as HU.
  set (upd := updatePhase io (length news) upds _) in *. simpl in HU.
  destruct (same_import_status_keys _ _ HU) as [K1 K2].
  simpl. rewrite K1, K2. split; [exact H1|]. split; [exact H2|].
  rewrite <- (Forall2_length _ _ _ HU). simpl in H3.
  destruct upds as [|u upds']; destruct news as [|n news']; simpl in *; lia.
Qed.

Lemma storeHarvestEntries_keeps_the_keys_unique_witness :
  List.NoDup (List.map TimeEntry.harvest_id
                (time_entries (storeHarvestEntries no_io_error 0 batch_same_id [])))
  /\ length (time_entries (storeHarvestEntries no_io_error 0 batch_same_id []))
     = (length (@nil TimeEntry.row)
        + inserted (resolved (storeHarvestEntries no_io_error 0 batch_same_id [])))%nat.
Proof.
  pose proof (storeHarvestEntries_keeps_the_keys_unique no_io_error 0 batch_same_id [])
    as (H1 & _ & H3).
  split; [apply H1; constructor | exact H3].
Defined.

Lemma get_In db h r : existingEntriesMap_get db h = Some r -> In r db.
Proof.
  induction db as [|x db IH]; simpl; [discriminate|].
  destruct (existingEntriesMap_get db h) as [r'|].
  - intros [= <-]. right. apply IH. reflexivity.
  - destruct (TimeEntry.harvest_id x =? h); [|discriminate].
    intros [= <-]. left. reflexivity.
Qed.

(** X10. After a reconciliation in which no row failed, of a batch with
    pairwise distinct source ids, every entry of the batch is in the table:
    there is a row with its source id that holds its date, the names of its
    client, project and task (the empty string for a missing one), its
    notes, hours and times. *)
Theorem storeHarvestEntries_stores_every_entry
  (io : nat -> bool) (now : Z) (entries : list Harvest.entry)
  (db0 : list TimeEntry.row)
  (Hdistinct : List.NoDup (List.map Harvest.id entries))
  (Hinsert : insertErrorCount (storeHarvestEntries io now entries db0) = 0%nat)
  (Hupdate : updateErrorCount (storeHarvestEntries io now entries db0) = 0%nat) :
  forall e, In e entries ->
    exists r,
      In r (time_entries (storeHarvestEntries io now entries db0))
      /\ TimeEntry.harvest_id r = Harvest.id e
      /\ TimeEntry.date r = Harvest.spent_date e
      /\ TimeEntry.client r = or_empty (Harvest.client e)
      /\ TimeEntry.project r = or_empty (Harvest.project e)
      /\ TimeEntry.task r = or_empty (Harvest.task e)
      /\ TimeEntry.notes r = or_empty (Harvest.notes e)
      /\ (TimeEntry.hours r == Harvest.hours e)%Q
      /\ TimeEntry.started_time r = bound (Harvest.started_time e)
      /\ TimeEntry.ended_time r = bound (Harvest.ended_time e).
Proof.
  intros e He.
  destruct (storeHarvestEntries_holds io now entries db0 Hdistinct Hinsert Hupdate
              e He) as (r & Eg & Hs).
  exists r. split; [eapply get_In; exact Eg | exact Hs].
Qed.

Lemma storeHarvestEntries_stores_every_entry_witness :
  exists r,
    In r (time_entries (storeHarvestEntries no_io_error 0 batch_distinct db_imported))
    /\ TimeEntry.harvest_id r = Harvest.id (harvest_entry 8 "b")
    /\ TimeEntry.date r = Harvest.spent_date (harvest_entry 8 "b")
    /\ TimeEntry.client r = or_empty (Harvest.client (harvest_entry 8 "b"))
    /\ TimeEntry.project r = or_empty (Harvest.project (harvest_entry 8 "b"))
    /\ TimeEntry.task r = or_empty (Harvest.task (harvest_entry 8 "b"))
    /\ TimeEntry.notes r = or_empty (Harvest.notes (harvest_entry 8 "b"))
    /\ (TimeEntry.hours r == Harvest.hours (harvest_entry 8 "b"))%Q
    /\ TimeEntry.started_time r = bound (Harvest.started_time (harvest_entry 8 "b"))
    /\ TimeEntry.ended_time r = bound (Harvest.ended_time (harvest_entry 8 "b")).
Proof.
  apply (storeHarvestEntries_stores_every_entry no_io_error 0 batch_distinct db_imported).
  - repeat constructor; simpl; intuition discriminate.
  - reflexivity.
  - reflexivity.
  - right. left. reflexivity.
Defined.

(** ** Matching: the table it leaves *)

Lemma with_mapping_id a t : Task.id (with_mapping a t) = Task.id t.
Proof. reflexivity. Qed.

Lemma with_mapping_twice a a' t :
  with_mapping a (with_mapping a' t) = with_mapping a t.
Proof. reflexivity. Qed.

Lemma row_after_cons hts a acts t :
  row_after hts (a :: acts) t
  = row_after hts acts
      (match List.find (same_name a) hts with
       | Some m => update_task a (Task.id m) t
       | None => t
       end).
Proof. reflexivity. Qed.

(** The row a task ends with: the mapping of the last activity that
    selects it, or the row as it was. *)
Lemma row_after_last hts acts :
  forall t,
    row_after hts acts t
    = match last_selecting hts acts (Task.id t) with
      | Some a => with_mapping a t
      | None => t
      end.
Proof.
  induction acts as [|a acts IH]; intros t; [reflexivity|].
  rewrite row_after_cons, IH. cbn [last_selecting].
  destruct (List.find (same_name a) hts) as [m|].
  - rewrite update_task_id.
    destruct (last_selecting hts acts (Task.id t)) as [a'|].
    + apply with_mapping_update_task.
    + unfold update_task. rewrite (Z.eqb_sym (Task.id m)).
      destruct (Task.id t =? Task.id m); reflexivity.
  - destruct (last_selecting hts acts (Task.id t)); reflexivity.
Qed.

Lemma last_selecting_Some hts acts taskId a :
  last_selecting hts acts taskId = Some a ->
  In a acts /\ exists m, List.find (same_name a) hts = Some m /\ Task.id m = taskId.
Proof.
  induction acts as [|x acts IH]; simpl; [discriminate|].
  destruct (last_selecting hts acts taskId) as [a'|].
  - intros [= ->]. destruct (IH eq_refl) as [H1 H2]. split; [right; exact H1 | exact H2].
  - destruct (List.find (same_name x) hts) as [m|] eqn:E; [|discriminate].
    destruct (Task.id m =? taskId) eqn:E'; [|discriminate].
    intros [= ->]. split; [left; reflexivity|]. exists m. split; [exact E|].
    apply Z.eqb_eq. exact E'.
Qed.

Lemma find_map_task (F : Task.row -> Task.row) a tasks :
  (forall t, Task.name (F t) = Task.name t) ->
  List.find (same_name a) (List.map F tasks)
  = option_map F (List.find (same_name a) tasks).
Proof.
  intros HF. induction tasks as [|t l IH]; [reflexivity|]. simpl.
  unfold same_name at 1. rewrite HF. fold (same_name a t).
  destruct (same_name a t); [reflexivity | exact IH].
Qed.

Lemma row_after_name hts acts t : Task.name (row_after hts acts t) = Task.name t.
Proof.
  rewrite row_after_last. destruct (last_selecting hts acts (Task.id t)); reflexivity.
Qed.

Lemma last_selecting_ext hts hts' acts taskId :
  (forall a, option_map Task.id (List.find (same_name a) hts')
             = option_map Task.id (List.find (same_name a) hts)) ->
  last_selecting hts' acts taskId = last_selecting hts acts taskId.
Proof.
  intros H. induction acts as [|a acts IH]; [reflexivity|]. simpl. rewrite IH.
  destruct (last_selecting hts acts taskId); [reflexivity|].
  specialize (H a).
  destruct (List.find (same_name a) hts') as [m'|],
           (List.find (same_name a) hts) as [m|]; simpl in H; try discriminate;
    [|reflexivity].
  injection H as ->. reflexivity.
Qed.

Lemma selected_ids_ext hts hts' acts :
  (forall a, option_map Task.id (List.find (same_name a) hts')
             = option_map Task.id (List.find (same_name a) hts)) ->
  selected_ids acts hts' = selected_ids acts hts.
Proof.
  intros H. induction acts as [|a acts IH]; [reflexivity|].
  rewrite !selected_ids_cons, IH. specialize (H a).
  destruct (List.find (same_name a) hts') as [m'|],
           (List.find (same_name a) hts) as [m|]; simpl in H; try discriminate;
    [|reflexivity].
  injection H as ->. reflexivity.
Qed.

Lemma last_selecting_finds hts acts taskId :
  last_selecting hts (List.filter (finds hts) acts) taskId
  = last_selecting hts acts taskId.
Proof.
  induction acts as [|a acts IH]; [reflexivity|]. simpl. unfold finds at 1.
  destruct (List.find (same_name a) hts) as [m|] eqn:E.
  - simpl. rewrite IH, E. reflexivity.
  - rewrite IH. destruct (last_selecting hts acts taskId); reflexivity.
Qed.

Lemma selected_ids_In hts acts a m :
  In a acts -> List.find (same_name a) hts = Some m ->
  In (Task.id m) (selected_ids acts hts).
Proof.
  intros Ha Hm. unfold selected_ids. apply in_flat_map. exists a.
  split; [exact Ha|]. rewrite Hm. left. reflexivity.
Qed.

(** When no two activities select the same row, the activity that selects
    a row is the last one that does, in whichever order they are taken. *)
Lemma last_selecting_unique hts acts a m :
  List.NoDup (selected_ids acts hts) ->
  In a acts -> List.find (same_name a) hts = Some m ->
  last_selecting hts acts (Task.id m) = Some a.
Proof.
  induction acts as [|x acts IH]; intros Hnd Ha Hm; [destruct Ha|].
  rewrite selected_ids_cons in Hnd. simpl.
  destruct Ha as [->|Ha].
  - rewrite Hm in Hnd |- *. inversion Hnd as [|? ? Hnotin Hnd']; subst.
    destruct (last_selecting hts acts (Task.id m)) as [a'|] eqn:E.
    + exfalso. apply Hnotin.
      apply last_selecting_Some in E as (Ha' & m' & Hm' & <-).
      apply (selected_ids_In hts acts a' m'); assumption.
    + rewrite Z.eqb_refl. reflexivity.
  - rewrite IH; [reflexivity | | exact Ha | exact Hm].
    destruct (List.find (same_name x) hts); [|exact Hnd].
    inversion Hnd; assumption.
Qed.

Lemma selected_ids_perm hts acts acts' :
  Permutation acts acts' ->
  Permutation (selected_ids acts hts) (selected_ids acts' hts).
Proof.
  intros H. unfold selected_ids. induction H; simpl.
  - reflexivity.
  - apply Permutation_app_head. exact IHPermutation.
  - rewrite !app_assoc. apply Permutation_app_tail, Permutation_app_comm.
  - etransitivity; eassumption.
Qed.

Lemma last_selecting_perm hts acts acts' taskId :
  List.NoDup (selected_ids acts hts) ->
  Permutation acts acts' ->
  last_selecting hts acts' taskId = last_selecting hts acts taskId.
Proof.
  intros Hnd Hperm.
  assert (Hnd' : List.NoDup (selected_ids acts' hts)).
  { eapply Permutation_NoDup; [apply selected_ids_perm; exact Hperm | exact Hnd]. }
  destruct (last_selecting hts acts taskId) as [a|] eqn:E.
  - apply last_selecting_Some in E as (Ha & m & Hm & <-).
    apply last_selecting_unique; [exact Hnd' | | exact Hm].
    eapply Permutation_in; eassumption.
  - destruct (last_selecting hts acts' taskId) as [a|] eqn:E'; [|reflexivity].
    apply last_selecting_Some in E' as (Ha & m & Hm & <-).
    rewrite (last_selecting_unique hts acts a m) in E; [discriminate | exact Hnd | |
        exact Hm].
    eapply Permutation_in; [symmetry; exact Hperm | exact Ha].
Qed.

Lemma selected_ids_finds hts acts :
  selected_ids (List.filter (finds hts) acts) hts = selected_ids acts hts.
Proof.
  induction acts as [|a acts IH]; [reflexivity|]. cbn [List.filter].
  unfold finds at 1.
  destruct (List.find (same_name a) hts) as [m|] eqn:E.
  - rewrite !selected_ids_cons, E, IH. reflexivity.
  - rewrite selected_ids_cons, E. exact IH.
Qed.

Lemma last_selecting_executed finishes acts tasks taskId :
  List.NoDup (selected_ids acts tasks) ->
  last_selecting tasks (executed finishes acts tasks) taskId
  = last_selecting tasks acts taskId.
Proof.
  intros Hnd. rewrite <- (last_selecting_finds tasks acts).
  apply last_selecting_perm.
  - rewrite selected_ids_finds. exact Hnd.
  - symmetry. apply executed_perm.
Qed.

Lemma matchLoop_ext hts hts' acts :
  (forall a, option_map Task.id (List.find (same_name a) hts')
             = option_map Task.id (List.find (same_name a) hts)) ->
  matchLoop hts' acts = matchLoop hts acts.
Proof.
  intros H. induction acts as [|a acts IH]; [reflexivity|]. simpl. rewrite IH.
  specialize (H a).
  destruct (List.find (same_name a) hts') as [m'|],
           (List.find (same_name a) hts) as [m|]; simpl in H; try discriminate;
    [|reflexivity].
  injection H as ->. reflexivity.
Qed.

Lemma place_ext {A} finishes finishes' (s : nat * A) l :
  (forall k, finishes' k = finishes k) -> place finishes' s l = place finishes s l.
Proof.
  intros H. induction l as [|s' l IH]; simpl; [reflexivity|].
  rewrite !H, IH. reflexivity.
Qed.

Lemma completion_order_ext {A} finishes finishes' (issued : list A) :
  (forall k, finishes' k = finishes k) ->
  completion_order finishes' issued = completion_order finishes issued.
Proof.
  intros H. unfold completion_order. f_equal.
  induction (combine (seq 0 (length issued)) issued) as [|s l IH]; [reflexivity|].
  simpl. rewrite IH. apply place_ext. exact H.
Qed.

Lemma matchLoop_issues hts acts a m :
  In a acts -> List.find (same_name a) hts = Some m ->
  In (a, Task.id m) (matchLoop hts acts).
Proof.
  intros Ha Hm. induction acts as [|x acts IH]; [destruct Ha|]. simpl.
  destruct Ha as [->|Ha].
  - rewrite Hm. left. reflexivity.
  - destruct (List.find (same_name x) hts); [right|]; apply IH; exact Ha.
Qed.

Lemma last_selecting_last hts acts a m :
  List.find (same_name a) hts = Some m ->
  last_selecting hts (acts ++ [a]) (Task.id m) = Some a.
Proof.
  intros Hm. induction acts as [|x acts IH]; simpl.
  - rewrite Hm, Z.eqb_refl. reflexivity.
  - rewrite IH. reflexivity.
Qed.

(** Whichever activity selects a task, its statement may be the last to
    take effect: under some completion times the rows with the id of the
    task end with its mapping. *)
Lemma any_selecting_activity_may_win activities tasks a t :
  In a activities -> List.find (same_name a) tasks = Some t ->
  exists finishes,
    forall (i : nat) t', tasks !! i = Some t' -> Task.id t' = Task.id t ->
      tasks_table (matchTasksWithActivities finishes activities tasks) !! i
      = Some (with_mapping a t').
Proof.
  intros Ha Ht.
  destruct (in_split _ _ (matchLoop_issues tasks activities a t Ha Ht))
    as (l1 & l2 & Hissued).
  destruct (completion_order_any (matchLoop tasks activities)
              ((l1 ++ l2) ++ [(a, Task.id t)])) as [finishes Hf].
  { rewrite Hissued, <- app_assoc. apply Permutation_app_head.
    symmetry. apply Permutation_cons_append. }
  exists finishes. intros i t' Hi Hid.
  rewrite matchTasksWithActivities_table, lookup_map, Hi. simpl. f_equal.
  unfold executed. rewrite Hf, List.map_app. simpl.
  rewrite row_after_last, Hid, (last_selecting_last tasks _ a t Ht). reflexivity.
Qed.

(** X11. The table the matching step leaves, row by row: a task ends with
    the project id, activity id and display name of the activity whose
    statement was the last to take effect among those that select it, and
    is as before when no activity selects it; its row id, source id, name
    and active flag never change. The statements that take effect are
    those of the activities that find a task, each once, in some order.
    When no statement finishes before one issued earlier, and when no two
    activities select the same task, the activity is the last of the
    catalog that selects the task. *)
Theorem matchTasksWithActivities_last_statement_wins
  (finishes : nat -> nat)
  (activities : list KimaiActivity.row) (tasks : list Task.row) :
  let last_of := fun acts t =>
    match last_selecting tasks acts (Task.id t) with
    | Some a => with_mapping a t
    | None => t
    end in
  tasks_table (matchTasksWithActivities finishes activities tasks)
  = List.map (last_of (executed finishes activities tasks)) tasks
  /\ Permutation (executed finishes activities tasks)
       (List.filter (finds tasks) activities)
  /\ ((forall i j, (i <= j)%nat -> (finishes i <= finishes j)%nat) ->
      tasks_table (matchTasksWithActivities finishes activities tasks)
      = List.map (last_of activities) tasks)
  /\ (List.NoDup (selected_ids activities tasks) ->
      tasks_table (matchTasksWithActivities finishes activities tasks)
      = List.map (last_of activities) tasks).
Proof.
  cbv zeta. rewrite matchTasksWithActivities_table.
  split; [|split; [|split]].
  - apply map_ext. intros t. apply row_after_last.
  - apply executed_perm.
  - intros Hmono. apply map_ext. intros t.
    rewrite (executed_monotone finishes activities tasks Hmono), row_after_finds.
    apply row_after_last.
  - intros Hnd. apply map_ext. intros t.
    rewrite row_after_last, last_selecting_executed by exact Hnd. reflexivity.
Qed.

(** Each of the two tasks is selected by one activity: also when the
    second statement finishes first, Development ends with activity 12 and
    the design review with activity 14. *)
Lemma matchTasksWithActivities_last_statement_wins_witness :
  tasks_table (matchTasksWithActivities in_reverse activities_design tasks_design)
  = List.map (fun t => match last_selecting tasks_design activities_design
                               (Task.id t) with
                       | Some a => with_mapping a t
                       | None => t
                       end) tasks_design
  /\ List.map Task.kimai_activity_id
       (tasks_table (matchTasksWithActivities in_reverse activities_design
                       tasks_design))
     = [Some "12"%string; Some "14"%string].
Proof.
  split; [|reflexivity].
  apply (proj2 (proj2 (proj2 (matchTasksWithActivities_last_statement_wins
                                in_reverse activities_design tasks_design)))).
  repeat constructor; simpl; intuition discriminate.
Defined.

(** Two activities select task 1. When the statements take effect in the
    order of issue the row ends with activity 13; when the second finishes
    first, with activity 12. *)
Example two_activities_either_mapping :
  List.map Task.kimai_activity_id
    (tasks_table (matchTasksWithActivities in_order activities_twice tasks_two))
  = [Some "13"%string; None]
  /\ List.map Task.kimai_activity_id
       (tasks_table (matchTasksWithActivities in_reverse activities_twice tasks_two))
     = [Some "12"%string; None].
Proof. split; reflexivity. Qed.

(** X12. Matching run again on the table it left, with the same
    activities: it reports the same counts, in whichever order the
    statements of the two runs take effect. It leaves the same table when
    no two activities select the same task, and when the statements of the
    second run finish at the times of the first. *)
Theorem matchTasksWithActivities_twice
  (finishes finishes' : nat -> nat)
  (activities : list KimaiActivity.row) (tasks : list Task.row) :
  let once := matchTasksWithActivities finishes activities tasks in
  let twice := matchTasksWithActivities finishes' activities (tasks_table once) in
  matched twice = matched once
  /\ unmatched twice = unmatched once
  /\ (List.NoDup (selected_ids activities tasks) ->
      tasks_table twice = tasks_table once)
  /\ ((forall k, finishes' k = finishes k) ->
      tasks_table twice = tasks_table once).
Proof.
  cbv zeta.
  assert (Hfind : forall a,
            option_map Task.id
              (List.find (same_name a)
                 (tasks_table (matchTasksWithActivities finishes activities tasks)))
            = option_map Task.id (List.find (same_name a) tasks)).
  { intros a. rewrite matchTasksWithActivities_table.
    rewrite find_map_task by (intros; apply row_after_name).
    destruct (List.find (same_name a) tasks); [|reflexivity]. simpl.
    rewrite row_after_id. reflexivity. }
  assert (Hexec : forall f,
            executed f activities
              (tasks_table (matchTasksWithActivities finishes activities tasks))
            = executed f activities tasks).
  { intros f. unfold executed. rewrite (matchLoop_ext tasks _ activities Hfind).
    reflexivity. }
  assert (Htable : (forall t, last_selecting tasks (executed finishes' activities tasks)
                                (Task.id t)
                              = last_selecting tasks (executed finishes activities tasks)
                                  (Task.id t)) ->
            tasks_table (matchTasksWithActivities finishes' activities
                           (tasks_table (matchTasksWithActivities finishes activities
                                           tasks)))
            = tasks_table (matchTasksWithActivities finishes activities tasks)).
  { intros Hlast.
    rewrite (matchTasksWithActivities_table finishes' activities (tasks_table _)).
    rewrite Hexec.
    pose proof (matchTasksWithActivities_table finishes activities tasks) as HT.
    set (T := tasks_table (matchTasksWithActivities finishes activities tasks)) in *.
    rewrite HT at 2 3.
    rewrite map_map. apply map_ext. intros t.
    rewrite !row_after_last.
    rewrite (last_selecting_ext tasks T _ _ Hfind).
    destruct (last_selecting tasks (executed finishes activities tasks) (Task.id t))
      as [a|] eqn:E.
    - simpl. rewrite Hlast, E. reflexivity.
    - rewrite Hlast, E. reflexivity. }
  split; [|split; [|split]].
  - destruct activities as [|a l]; [reflexivity|].
    destruct (matchTasksWithActivities_counts_selected finishes (a :: l) tasks)
      as [H1 _]; [discriminate|].
    destruct (matchTasksWithActivities_counts_selected finishes' (a :: l)
                (tasks_table (matchTasksWithActivities finishes (a :: l) tasks)))
      as [H3 _]; [discriminate|].
    rewrite H1, H3, (selected_ids_ext tasks _ (a :: l) Hfind). reflexivity.
  - destruct activities as [|a l]; [reflexivity|].
    destruct (matchTasksWithActivities_counts_selected finishes (a :: l) tasks)
      as [_ H2]; [discriminate|].
    destruct (matchTasksWithActivities_counts_selected finishes' (a :: l)
                (tasks_table (matchTasksWithActivities finishes (a :: l) tasks)))
      as [_ H4]; [discriminate|].
    rewrite H2, H4, (selected_ids_ext tasks _ (a :: l) Hfind).
    rewrite matchTasksWithActivities_table, length_map. reflexivity.
  - intros Hnd. apply Htable. intros t.
    rewrite !last_selecting_executed by exact Hnd. reflexivity.
  - intros Hsame. apply Htable. intros t. unfold executed.
    rewrite (completion_order_ext finishes finishes' _ Hsame). reflexivity.
Qed.

(** Run again with the statements finishing in the reverse order, the
    step leaves the table of the design catalog as the first run left
    it. *)
Lemma matchTasksWithActivities_twice_witness :
  tasks_table
    (matchTasksWithActivities in_reverse activities_design
       (tasks_table (matchTasksWithActivities in_order activities_design
                       tasks_design)))
  = tasks_table (matchTasksWithActivities in_order activities_design tasks_design).
Proof.
  apply (proj1 (proj2 (proj2 (matchTasksWithActivities_twice in_order in_reverse
                                activities_design tasks_design)))).
  repeat constructor; simpl; intuition discriminate.
Defined.

(** With two activities on one task, a second run whose statements take
    effect in another order changes the table the first left. *)
Example matching_twice_in_another_order :
  let once := matchTasksWithActivities in_order activities_twice tasks_two in
  let twice := matchTasksWithActivities in_reverse activities_twice (tasks_table once) in
  List.map Task.kimai_activity_id (tasks_table once) = [Some "13"%string; None]
  /\ List.map Task.kimai_activity_id (tasks_table twice) = [Some "12"%string; None].
Proof. split; reflexivity. Qed.

(** ** Storing the two catalogs *)

Lemma next_task_rowid_above tasks r : In r tasks -> Task.id r < next_task_rowid tasks.
Proof.
  unfold next_task_rowid. induction tasks as [|x l IH]; simpl; [tauto|].
  intros [->|H]; [lia|]. specialize (IH H). lia.
Qed.

Lemma insert_or_replace_task_keys tasks h name active :
  List.NoDup (List.map Task.harvest_id (insert_or_replace_task tasks h name active))
  <-> List.NoDup (List.map Task.harvest_id
                    (List.filter (fun r => negb (Task.harvest_id r =? h)) tasks)).
Proof.
  unfold insert_or_replace_task. rewrite List.map_app. simpl. split.
  - intros H. apply NoDup_ListNoDup in H. apply NoDup_app in H as (H & _ & _).
    apply NoDup_ListNoDup. exact H.
  - intros H. apply NoDup_app_one; [exact H|].
    intros Hin. apply in_map_iff in Hin as (r & Hr & Hin).
    apply filter_In in Hin as [_ Hin]. apply negb_true_iff, Z.eqb_neq in Hin.
    contradiction.
Qed.

Lemma storeTask_invariant io (tasks : list HarvestTask.task) table0 st task :
  In task tasks ->
  tasks_stored tasks table0 (stored_rows st) ->
  tasks_stored tasks table0 (stored_rows (storeTask io st task)).
Proof.
  intros Htask (H1 & H2 & H3). unfold storeTask.
  destruct (falsy_id (HarvestTask.id task)) eqn:Ef; [split; auto|].
  destruct (io (statements st)); [split; auto|]. simpl.
  destruct (HarvestTask.id task) as [h|] eqn:Eid; [|discriminate]. simpl in *.
  apply Z.eqb_neq in Ef. split; [|split].
  - apply insert_or_replace_task_keys. apply NoDup_map_filter. exact H1.
  - unfold insert_or_replace_task. rewrite List.map_app. simpl.
    apply NoDup_app_one; [apply NoDup_map_filter; exact H2|].
    intros Hin. apply in_map_iff in Hin as (r & Hr & Hin).
    apply filter_In in Hin as [Hin _].
    pose proof (next_task_rowid_above _ _ Hin). lia.
  - intros r Hr. unfold insert_or_replace_task in Hr.
    apply in_app_or in Hr as [Hr|[<-|[]]].
    + apply filter_In in Hr as [Hr _]. apply H3. exact Hr.
    + right. split; [repeat split|]. exists task. simpl. auto.
Qed.

Lemma storeTasks_fold io tasks table0 l :
  (forall t, In t l -> In t tasks) ->
  forall st, tasks_stored tasks table0 (stored_rows st) ->
             tasks_stored tasks table0 (stored_rows (fold_left (storeTask io) l st)).
Proof.
  induction l as [|t l IH]; intros Hsub st Hst; [exact Hst|].
  simpl. apply IH; [intros x Hx; apply Hsub; right; exact Hx|].
  apply storeTask_invariant; [apply Hsub; left; reflexivity | exact Hst].
Qed.

(** X13. [storeTasks] keeps the keys of table [tasks] unique (a stored
    source id replaces its row) and resets the mapping: every row of the
    table afterwards is a row that was there before, or it carries no
    project id, activity id or activity name and holds the source id (not
    0), name and active flag of a task of the batch. *)
Theorem storeTasks_resets_the_mapping
  (io : nat -> bool) (tasks : list HarvestTask.task) (table0 : list Task.row)
  (Hharvest : List.NoDup (List.map Task.harvest_id table0))
  (Hrowid : List.NoDup (List.map Task.id table0)) :
  tasks_stored tasks table0 (stored_rows (storeTasks io tasks table0)).
Proof.
  assert (Hstart : tasks_stored tasks table0 table0) by (split; auto).
  unfold storeTasks. destruct (Nat.eqb (length tasks) 0); [exact Hstart|].
  apply storeTasks_fold; [auto | exact Hstart].
Qed.

Lemma storeTasks_resets_the_mapping_witness :
  tasks_stored fetched_tasks tasks_two
    (stored_rows (storeTasks no_io_error fetched_tasks tasks_two)).
Proof.
  apply (storeTasks_resets_the_mapping no_io_error fetched_tasks tasks_two).
  - repeat constructor; simpl; intuition discriminate.
  - repeat constructor; simpl; intuition discriminate.
Defined.

Lemma filter_all {A} (p : A -> bool) l :
  (forall x, In x l -> p x = true) -> List.filter p l = l.
Proof.
  induction l as [|x l IH]; intros H; [reflexivity|]. simpl.
  rewrite (H x (or_introl eq_refl)). f_equal. apply IH. intros y Hy. apply H.
  right. exact Hy.
Qed.

Lemma next_task_rowid_app rows r :
  Task.id r = next_task_rowid rows ->
  next_task_rowid (rows ++ [r]) = next_task_rowid rows + 1.
Proof.
  unfold next_task_rowid. intros Hr.
  assert (Hpos : forall l, 0 <= fold_right (fun r acc => Z.max (Task.id r) acc) 0 l).
  { induction l; simpl; lia. }
  assert (Happ : forall l, fold_right (fun r acc => Z.max (Task.id r) acc) 0 (l ++ [r])
                           = Z.max (fold_right (fun r acc => Z.max (Task.id r) acc) 0 l)
                                   (Task.id r)).
  { induction l as [|x l IH]; simpl; [lia|]. rewrite IH. lia. }
  rewrite Happ. pose proof (Hpos rows). lia.
Qed.

Lemma storeTasks_fold_fresh io l :
  (forall k, io k = false) ->
  List.NoDup (List.map HarvestTask.id (List.filter has_id l)) ->
  forall st,
    (forall t, In t (List.filter has_id l) ->
       ~ In (default 0 (HarvestTask.id t)) (List.map Task.harvest_id (stored_rows st))) ->
    stored_rows (fold_left (storeTask io) l st)
    = stored_rows st
      ++ numbered (next_task_rowid (stored_rows st)) (List.filter has_id l).
Proof.
  intros Hio. induction l as [|t l IH]; intros Hnd st Hfresh.
  - simpl. rewrite app_nil_r. reflexivity.
  - cbn [fold_left List.filter] in *. unfold storeTask at 2.
    unfold has_id at 1 in Hnd. unfold has_id at 1 in Hfresh. unfold has_id at 1.
    destruct (falsy_id (HarvestTask.id t)) eqn:Ef; cbn [negb] in *.
    + apply IH; assumption.
    + rewrite Hio. simpl in Hnd. inversion Hnd as [|? ? Hnotin Hnd']; subst.
      assert (Hkeep : List.filter (fun r => negb (Task.harvest_id r
                                                   =? default 0 (HarvestTask.id t)))
                        (stored_rows st) = stored_rows st).
      { apply filter_all. intros r Hr. apply negb_true_iff, Z.eqb_neq. intros Heq.
        apply (Hfresh t (or_introl eq_refl)). apply in_map_iff. exists r. auto. }
      rewrite IH; [|exact Hnd'|].
      * simpl. unfold insert_or_replace_task. rewrite Hkeep.
        rewrite next_task_rowid_app by reflexivity.
        rewrite <- app_assoc. reflexivity.
      * intros x Hx. simpl. unfold insert_or_replace_task.
        rewrite Hkeep, List.map_app. simpl. intros Hin.
        apply in_app_or in Hin as [Hin|[Heq|[]]].
        -- apply (Hfresh x (or_intror Hx)). exact Hin.
        -- apply Hnotin. apply in_map_iff. exists x. split; [|exact Hx].
           apply filter_In in Hx as [_ Hx]. unfold has_id in Hx.
           destruct (HarvestTask.id x), (HarvestTask.id t); simpl in *;
             try discriminate. congruence.
Qed.

(** X14. On the truncated table, when no statement fails and the tasks of
    the batch that have an id have pairwise distinct ids, [storeTasks]
    leaves exactly those tasks, in the order of the batch, with row ids
    1, 2, ... and without mapping; tasks without id, and the task with id
    0, are left out. *)
Theorem storeTasks_after_truncate
  (io : nat -> bool) (tasks : list HarvestTask.task) (tasks0 : list Task.row)
  (Hio : forall k, io k = false)
  (Hdistinct : List.NoDup (List.map HarvestTask.id (List.filter has_id tasks))) :
  stored_rows (storeTasks io tasks (truncateTasks tasks0))
  = numbered 1 (List.filter has_id tasks).
Proof.
  unfold storeTasks, truncateTasks.
  destruct (Nat.eqb (length tasks) 0) eqn:E.
  - destruct tasks; [reflexivity | discriminate].
  - rewrite (storeTasks_fold_fresh io tasks Hio Hdistinct); [reflexivity|].
    intros t _ [].
Qed.

Lemma storeTasks_after_truncate_witness :
  stored_rows (storeTasks no_io_error fetched_tasks (truncateTasks tasks_two))
  = numbered 1 (List.filter has_id fetched_tasks).
Proof.
  apply (storeTasks_after_truncate no_io_error fetched_tasks tasks_two).
  - reflexivity.
  - repeat constructor; simpl; intuition discriminate.
Defined.

Lemma next_activity_rowid_app rows r :
  KimaiActivity.id r = next_activity_rowid rows ->
  next_activity_rowid (rows ++ [r]) = next_activity_rowid rows + 1.
Proof.
  unfold next_activity_rowid. intros Hr.
  assert (Hpos : forall l,
            0 <= fold_right (fun r acc => Z.max (KimaiActivity.id r) acc) 0 l).
  { induction l; simpl; lia. }
  assert (Happ : forall l,
            fold_right (fun r acc => Z.max (KimaiActivity.id r) acc) 0 (l ++ [r])
            = Z.max (fold_right (fun r acc => Z.max (KimaiActivity.id r) acc) 0 l)
                    (KimaiActivity.id r)).
  { induction l as [|x l IH]; simpl; [lia|]. rewrite IH. lia. }
  rewrite Happ. pose proof (Hpos rows). lia.
Qed.

Lemma storeKimaiActivities_fold io activities l :
  (forall a, In a l -> In a activities) ->
  forall st,
    exists rows,
      stored_rows (fold_left (storeKimaiActivity io) l st) = stored_rows st ++ rows
      /\ insertedCount (fold_left (storeKimaiActivity io) l st)
         = (insertedCount st + length rows)%nat
      /\ (insertedCount (fold_left (storeKimaiActivity io) l st)
          + errorCount' (fold_left (storeKimaiActivity io) l st)
          = insertedCount st + errorCount' st
            + length (List.filter activity_has_id l))%nat
      /\ Forall (row_of_activity activities) rows.
Proof.
  induction l as [|a l IH]; intros Hsub st.
  - exists []. simpl. rewrite app_nil_r. repeat split; try lia. constructor.
  - cbn [fold_left List.filter]. unfold storeKimaiActivity at 2 4 6 8.
    unfold activity_has_id at 1.
    assert (Hsub' : forall x, In x l -> In x activities)
      by (intros x Hx; apply Hsub; right; exact Hx).
    destruct (falsy_id (KimaiApiActivity.id a)) eqn:Ef; cbn [negb].
    + apply IH. exact Hsub'.
    + destruct (io (statements st)).
      * destruct (IH Hsub' {| stored_rows := stored_rows st;
                              insertedCount := insertedCount st;
                              errorCount' := S (errorCount' st);
                              statements := S (statements st) |})
          as (rows & H1 & H2 & H3 & H4).
        exists rows. simpl in *. repeat split; try assumption; lia.
      * destruct (IH Hsub' {| stored_rows :=
                                stored_rows st ++ [activity_row (stored_rows st) a];
                              insertedCount := S (insertedCount st);
                              errorCount' := errorCount' st;
                              statements := S (statements st) |})
          as (rows & H1 & H2 & H3 & H4).
        exists (activity_row (stored_rows st) a :: rows). simpl in *.
        rewrite H1, <- app_assoc. repeat split; try lia.
        constructor; [|exact H4].
        exists a. unfold activity_has_id. rewrite Ef.
        repeat split. apply Hsub. left. reflexivity.
Qed.

Lemma storeKimaiActivities_fold_all io l :
  (forall k, io k = false) ->
  forall st,
    stored_rows (fold_left (storeKimaiActivity io) l st)
    = stored_rows st
      ++ activity_rows (next_activity_rowid (stored_rows st))
           (List.filter activity_has_id l).
Proof.
  intros Hio. induction l as [|a l IH]; intros st.
  - simpl. rewrite app_nil_r. reflexivity.
  - cbn [fold_left List.filter]. unfold storeKimaiActivity at 2.
    unfold activity_has_id at 1.
    destruct (falsy_id (KimaiApiActivity.id a)) eqn:Ef; cbn [negb].
    + apply IH.
    + rewrite Hio, IH. simpl.
      rewrite next_activity_rowid_app by reflexivity.
      rewrite <- app_assoc. reflexivity.
Qed.

(** X15. [storeKimaiActivities] only appends: the rows of the table stay,
    in place, whatever the batch holds (the statement gives no key, so no
    row is ever replaced, and a batch stored twice is there twice); the
    rows added are as many as the statements that succeeded, each for an
    activity of the batch that has an id, with its ids as text and the
    display name [parentTitle: name]; succeeded and failed statements
    together are the activities that have an id. When no statement fails
    the rows added are those activities in order, numbered after the
    highest row id of the table. *)
Theorem storeKimaiActivities_only_appends
  (io : nat -> bool) (activities : list KimaiApiActivity.activity)
  (table : list KimaiActivity.row) :
  (exists rows,
     stored_rows (storeKimaiActivities io activities table) = table ++ rows
     /\ insertedCount (storeKimaiActivities io activities table) = length rows
     /\ Forall (row_of_activity activities) rows)
  /\ (insertedCount (storeKimaiActivities io activities table)
      + errorCount' (storeKimaiActivities io activities table)
      = length (List.filter activity_has_id activities))%nat
  /\ ((forall k, io k = false) ->
      stored_rows (storeKimaiActivities io activities table)
      = table ++ activity_rows (next_activity_rowid table)
                   (List.filter activity_has_id activities)).
Proof.
  unfold storeKimaiActivities.
  destruct (Nat.eqb (length activities) 0) eqn:E.
  - destruct activities; [|discriminate]. simpl. split; [|split].
    + exists []. rewrite app_nil_r. repeat split. constructor.
    + reflexivity.
    + intros _. rewrite app_nil_r. reflexivity.
  - destruct (storeKimaiActivities_fold io activities activities (fun a H => H)
                {| stored_rows := table; insertedCount := 0; errorCount' := 0;
                   statements := 0 |}) as (rows & H1 & H2 & H3 & H4).
    split; [|split].
    + exists rows. repeat split; assumption.
    + exact H3.
    + intros Hio. rewrite (storeKimaiActivities_fold_all io activities Hio).
      reflexivity.
Qed.

(** ** The extraction of the two catalogs *)

Lemma storeTasks_on_empty io tasks :
  tasks_stored tasks [] (stored_rows (storeTasks io tasks [])).
Proof.
  assert (Hstart : tasks_stored tasks [] []).
  { split; [constructor | split; [constructor | intros r []]]. }
  unfold storeTasks. destruct (Nat.eqb (length tasks) 0); [exact Hstart|].
  apply storeTasks_fold; [auto | exact Hstart].
Qed.

Lemma row_after_mapping tasks1 activities acts :
  List.NoDup (List.map Task.id tasks1) ->
  Forall (row_of_activity activities) acts ->
  forall r, In r tasks1 -> unmapped r ->
    unmapped (row_after tasks1 acts r)
    \/ mapped_by_name activities (row_after tasks1 acts r).
Proof.
  intros Hnd Hacts r Hr Hun. rewrite row_after_last.
  destruct (last_selecting tasks1 acts (Task.id r)) as [a|] eqn:E;
    [|left; exact Hun].
  right. apply last_selecting_Some in E as (Ha & m & Hfind & Hid).
  apply find_some in Hfind as [Hm Hsame].
  assert (m = r) by (apply (NoDup_map_inj Task.id tasks1); assumption). subst m.
  rewrite List.Forall_forall in Hacts.
  destruct (Hacts a Ha) as (act & H1 & H2 & H3 & H4 & H5 & _).
  exists act. simpl. rewrite <- H5, <- H3, <- H4.
  repeat split; try assumption. apply same_name_normalized. exact Hsame.
Qed.

(** X16. The table [tasks] after [extractTasks], when Harvest returned at
    least one task: whatever was stored before and whichever statements
    fail, the source ids of the rows are pairwise distinct, every row
    holds a task of the batch (its id, not 0, its name and active flag),
    and every row is either without mapping or carries the project id,
    activity id and display name of an activity of the batch whose
    normalized display name is the normalized name of the task. When Kimai
    returned no activity every row is without mapping and table
    [tasks_kimai] is as before. When Harvest returned no task both tables
    are as before. *)
Theorem extractTasks_maps_by_name
  (io io' : nat -> bool) (finishes : nat -> nat)
  (tasks : list HarvestTask.task) (activities : list KimaiApiActivity.activity)
  (tasks0 : list Task.row) (tasks_kimai0 : list KimaiActivity.row) :
  (tasks <> [] ->
   List.NoDup (List.map Task.harvest_id
                 (Extracted.tasks
                    (extractTasks io io' finishes tasks activities tasks0 tasks_kimai0)))
   /\ Forall (fun r => stored_task tasks r
                       /\ (unmapped r \/ mapped_by_name activities r))
        (Extracted.tasks
           (extractTasks io io' finishes tasks activities tasks0 tasks_kimai0))
   /\ (activities = [] ->
       Forall unmapped
         (Extracted.tasks
            (extractTasks io io' finishes tasks activities tasks0 tasks_kimai0))
       /\ Extracted.tasks_kimai
            (extractTasks io io' finishes tasks activities tasks0 tasks_kimai0)
          = tasks_kimai0))
  /\ (tasks = [] ->
      Extracted.tasks (extractTasks io io' finishes tasks activities tasks0 tasks_kimai0)
      = tasks0
      /\ Extracted.tasks_kimai
           (extractTasks io io' finishes tasks activities tasks0 tasks_kimai0)
         = tasks_kimai0).
Proof.
  split; [|intros ->; split; reflexivity].
  intros Hne. unfold extractTasks, truncateTasks, truncateKimaiTasks.
  destruct tasks as [|t0 tl]; [congruence|].
  change (Nat.eqb (length (t0 :: tl)) 0) with false. cbv iota.
  destruct (storeTasks_on_empty io (t0 :: tl)) as (Hh & Hi & Hfresh).
  assert (Hrows : forall r, In r (stored_rows (storeTasks io (t0 :: tl) [])) ->
                            unmapped r /\ stored_task (t0 :: tl) r).
  { intros r Hr. destruct (Hfresh r Hr) as [[]|[Hun Hex]]. split; assumption. }
  destruct activities as [|a0 al].
  - simpl. split; [exact Hh|]. split.
    + apply List.Forall_forall. intros r Hr. destruct (Hrows r Hr). auto.
    + intros _. split; [|reflexivity].
      apply List.Forall_forall. intros r Hr. destruct (Hrows r Hr). auto.
  - change (Nat.eqb (length (a0 :: al)) 0) with false. cbv iota.
    cbn [Extracted.tasks Extracted.tasks_kimai].
    rewrite matchTasksWithActivities_table.
    split; [|split; [|discriminate]].
    + rewrite List.map_map.
      erewrite map_ext; [exact Hh|]. intros r. simpl.
      rewrite row_after_last.
      destruct (last_selecting _ _ (Task.id r)); reflexivity.
    + apply List.Forall_forall. intros r' Hr'.
      apply in_map_iff in Hr' as (r & <- & Hr).
      destruct (Hrows r Hr) as [Hun (t & Ht1 & Ht2 & Ht3 & Ht4 & Ht5)].
      split.
      * exists t. rewrite row_after_name.
        rewrite row_after_last.
        destruct (last_selecting _ _ (Task.id r)); simpl; auto.
      * apply row_after_mapping; try assumption.
        apply List.Forall_forall. intros a Ha.
        apply executed_In in Ha as [Ha _]. revert a Ha. apply List.Forall_forall.
        destruct (storeKimaiActivities_fold io' (a0 :: al) (a0 :: al)
                    (fun a H => H)
                    {| stored_rows := []; insertedCount := 0; errorCount' := 0;
                       statements := 0 |}) as (rows & H1 & _ & _ & H4).
        unfold storeKimaiActivities.
        change (Nat.eqb (length (a0 :: al)) 0) with false. cbv iota.
        rewrite H1. exact H4.
Qed.

(** ** Ids through the text columns *)

Lemma parseDigits_acc d :
  forall acc : positive,
    parseDigits (NilEmpty.string_of_uint d) (Some (Z.pos acc))
    = Some (Z.pos (Pos.of_uint_acc d acc)).
Proof.
  induction d; intros acc; cbn [NilEmpty.string_of_uint Pos.of_uint_acc];
    [reflexivity|..];
    (etransitivity; [|apply IHd]); cbn [parseDigits];
    match goal with
    | |- context [digitValue ?c] =>
        let v := eval vm_compute in (digitValue c) in
        change (digitValue c) with v
    end; cbv iota beta; do 2 f_equal; cbn [default from_option id]; lia.
Qed.

Lemma parseDigits_zero d :
  parseDigits (NilEmpty.string_of_uint d) (Some 0)
  = Some (Z.of_N (Pos.of_uint d)).
Proof.
  induction d; cbn [NilEmpty.string_of_uint Pos.of_uint]; [reflexivity|..];
    cbn [parseDigits];
    match goal with
    | |- context [digitValue ?c] =>
        let v := eval vm_compute in (digitValue c) in
        change (digitValue c) with v
    end; cbv iota beta; cbn [default from_option id];
    [exact IHd | apply (parseDigits_acc d) ..].
Qed.

Lemma parseDigits_None d :
  d <> Decimal.Nil ->
  parseDigits (NilEmpty.string_of_uint d) None
  = Some (Z.of_N (Pos.of_uint d)).
Proof.
  intros Hd. rewrite <- parseDigits_zero.
  destruct d; [congruence|..]; reflexivity.
Qed.

Lemma parseInt_uint d :
  d <> Decimal.Nil ->
  parseInt (NilEmpty.string_of_uint d) = Some (Z.of_N (Pos.of_uint d)).
Proof.
  intros Hd. rewrite <- (parseDigits_None d Hd).
  destruct d; [congruence|..]; reflexivity.
Qed.

Lemma parseInt_toString z : parseInt (toString z) = Some z.
Proof.
  unfold toString. destruct z as [|p|p]; [reflexivity|..];
    cbn [Z.to_int NilZero.string_of_int]; unfold NilZero.string_of_uint;
    pose proof (Unsigned.to_uint_nonnil p) as Hnil;
    pose proof (Unsigned.of_to p) as Hof.
  - destruct (Pos.to_uint p) eqn:E; [congruence|..];
      rewrite <- E in *; rewrite parseInt_uint by exact Hnil;
      rewrite Hof; reflexivity.
  - assert (H : parseInt (String "-" (NilEmpty.string_of_uint (Pos.to_uint p)))
                = Z.opp <$> parseDigits (NilEmpty.string_of_uint (Pos.to_uint p)) None)
      by reflexivity.
    destruct (Pos.to_uint p) eqn:E; [congruence|..];
      rewrite <- E in *; rewrite H, parseDigits_None by exact Hnil;
      rewrite Hof; reflexivity.
Qed.

Lemma truthy_toString z : truthy (Some (toString z)) = true.
Proof.
  unfold toString, truthy.
  destruct z as [|p|p]; [reflexivity|..];
    cbn [Z.to_int NilZero.string_of_int]; unfold NilZero.string_of_uint;
    pose proof (Unsigned.to_uint_nonnil p) as Hnil;
    destruct (Pos.to_uint p); try congruence; reflexivity.
Qed.

(** X17. Ids survive the text columns: an entry whose mapping columns hold
    the project id and the activity id of Kimai as [storeKimaiActivities]
    writes them (the decimal text of the number, for ids in the safe
    integer range) is not skipped for a missing mapping, id 0 included,
    and [transformEntry] sends exactly these two numbers as [project] and
    [activity]. *)
Theorem ids_survive_the_text_columns
  (tz : Z) (entry : Pending.entry) (dateEndTimeMap : gmap Z Z)
  (project activity : Z)
  (Hproject_safe : Z.abs project < 2 ^ 53)
  (Hactivity_safe : Z.abs activity < 2 ^ 53)
  (Hproject : Pending.kimai_project_id entry = Some (toString project))
  (Hactivity : Pending.kimai_activity_id entry = Some (toString activity)) :
  missing_mapping entry = false
  /\ Kimai.project (fst (transformEntry tz entry dateEndTimeMap)) = Some project
  /\ Kimai.activity (fst (transformEntry tz entry dateEndTimeMap)) = Some activity.
Proof.
  unfold missing_mapping, transformEntry. cbn [fst Kimai.project Kimai.activity].
  rewrite Hproject, Hactivity, !truthy_toString. cbn [default from_option id].
  rewrite !parseInt_toString. repeat split.
Qed.

Lemma ids_survive_the_text_columns_witness :
  missing_mapping (mapped (row_10 1 0 None None "a" 2)) = false
  /\ Kimai.project
       (fst (transformEntry tz_west (mapped (row_10 1 0 None None "a" 2)) ∅))
     = Some 3
  /\ Kimai.activity
       (fst (transformEntry tz_west (mapped (row_10 1 0 None None "a" 2)) ∅))
     = Some 12.
Proof.
  apply (ids_survive_the_text_columns tz_west
           (mapped (row_10 1 0 None None "a" 2)) ∅ 3 12); reflexivity.
Defined.

(** ** The calendar *)

Lemma era_doe z :
  0 <= z - z / 146097 * 146097 < 146097.
Proof. Z.div_mod_to_equations; lia. Qed.

Lemma yoe_doy doe :
  0 <= doe < 146097 ->
  0 <= (doe - doe / 1460 + doe / 36524 - doe / 146096) / 365 <= 399
  /\ 0 <= doe - (365 * ((doe - doe / 1460 + doe / 36524 - doe / 146096) / 365)
                 + (doe - doe / 1460 + doe / 36524 - doe / 146096) / 365 / 4
                 - (doe - doe / 1460 + doe / 36524 - doe / 146096) / 365 / 100) <= 365.
Proof. intros H. Z.div_mod_to_equations; lia. Qed.

Lemma mp_dd doy :
  0 <= doy <= 365 ->
  0 <= (5 * doy + 2) / 153 <= 11
  /\ 1 <= doy - (153 * ((5 * doy + 2) / 153) + 2) / 5 + 1 <= 31.
Proof. intros H. Z.div_mod_to_equations; lia. Qed.

Lemma year_era yoe era : 0 <= yoe <= 399 -> (yoe + era * 400) / 400 = era.
Proof. intros H. Z.div_mod_to_equations; lia. Qed.

Lemma yoe_at yoe doy :
  0 <= yoe <= 399 -> 0 <= doy ->
  365 * yoe + yoe / 4 - yoe / 100 + doy
  < 365 * (yoe + 1) + (yoe + 1) / 4 - (yoe + 1) / 100 + (yoe + 1) / 400 ->
  let doe := 365 * yoe + yoe / 4 - yoe / 100 + doy in
  0 <= doe < 146097
  /\ (doe - doe / 1460 + doe / 36524 - doe / 146096) / 365 = yoe.
Proof. intros H1 H2 H3. cbv zeta. Z.div_mod_to_equations; lia. Qed.

Lemma yoe_next doe :
  0 <= doe < 146097 ->
  let yoe := (doe - doe / 1460 + doe / 36524 - doe / 146096) / 365 in
  doe < 365 * (yoe + 1) + (yoe + 1) / 4 - (yoe + 1) / 100 + (yoe + 1) / 400.
Proof. intros H. cbv zeta. Z.div_mod_to_equations; lia. Qed.

Lemma mp_at mp dd :
  0 <= mp <= 11 -> 1 <= dd ->
  (153 * mp + 2) / 5 + dd - 1 < (153 * (mp + 1) + 2) / 5 ->
  (5 * ((153 * mp + 2) / 5 + dd - 1) + 2) / 153 = mp.
Proof. intros H1 H2 H3. Z.div_mod_to_equations; lia. Qed.

Lemma mp_next doy :
  0 <= doy ->
  doy < (153 * ((5 * doy + 2) / 153 + 1) + 2) / 5.
Proof. intros H. Z.div_mod_to_equations; lia. Qed.

Lemma civil_from_days_at era yoe mp dd :
  0 <= yoe <= 399 -> 0 <= mp <= 11 -> 1 <= dd ->
  month_start mp + dd - 1 < month_start (mp + 1) ->
  year_start yoe + (month_start mp + dd - 1)
  < year_start (yoe + 1) + (yoe + 1) / 400 ->
  civil_from_days (era * 146097 + (year_start yoe + (month_start mp + dd - 1)) - 719468)
  = (year_of era yoe mp, month_of mp, dd).
Proof.
  unfold year_start, month_start. intros Hyoe Hmp Hdd Hmonth Hyear.
  destruct (yoe_at yoe ((153 * mp + 2) / 5 + dd - 1) Hyoe) as [Hdoe Hy];
    [Z.div_mod_to_equations; lia | exact Hyear |].
  pose proof (mp_at mp dd Hmp Hdd Hmonth) as Hm.
  unfold civil_from_days. cbv zeta.
  set (doy := (153 * mp + 2) / 5 + dd - 1) in *.
  set (doe := 365 * yoe + yoe / 4 - yoe / 100 + doy) in *.
  replace (era * 146097 + doe - 719468 + 719468) with (doe + era * 146097) by lia.
  rewrite Z.div_add by lia. rewrite (Z.div_small doe 146097) by exact Hdoe.
  replace (doe + era * 146097 - (0 + era) * 146097) with doe by lia.
  rewrite Hy.
  replace (doe - (365 * yoe + yoe / 4 - yoe / 100)) with doy by (subst doe; lia).
  rewrite Hm. unfold year_of, month_of.
  replace (doy - (153 * mp + 2) / 5 + 1) with dd by (subst doy; lia).
  reflexivity.
Qed.

Lemma days_from_civil_at era yoe mp dd :
  0 <= yoe <= 399 -> 0 <= mp <= 11 ->
  days_from_civil (year_of era yoe mp) (month_of mp) dd
  = era * 146097 + (year_start yoe + (month_start mp + dd - 1)) - 719468.
Proof.
  intros Hyoe Hmp. unfold days_from_civil, year_of, month_of, year_start, month_start.
  cbv zeta.
  destruct (Z.ltb_spec mp 10).
  - destruct (Z.leb_spec (mp + 3) 2); [lia|].
    rewrite (year_era yoe era Hyoe).
    replace (mp + 3 - 3) with mp by lia.
    replace (yoe + era * 400 - era * 400) with yoe by lia. lia.
  - destruct (Z.leb_spec (mp - 9) 2); [|lia].
    replace (yoe + era * 400 + 1 - 1) with (yoe + era * 400) by lia.
    rewrite (year_era yoe era Hyoe).
    replace (mp - 9 + 9) with mp by lia.
    replace (yoe + era * 400 - era * 400) with yoe by lia. lia.
Qed.

(** Every day has its parts: the era, the year of the era, the month
    counted from March and the day of the month. *)
Lemma civil_parts_of_day d :
  exists era yoe mp dd, parts_ok yoe mp dd /\ d = day_at era yoe mp dd.
Proof.
  set (era := (d + 719468) / 146097).
  set (doe := d + 719468 - era * 146097).
  set (yoe := (doe - doe / 1460 + doe / 36524 - doe / 146096) / 365).
  set (doy := doe - (365 * yoe + yoe / 4 - yoe / 100)).
  set (mp := (5 * doy + 2) / 153).
  assert (Hdoe : 0 <= doe < 146097) by apply era_doe.
  destruct (yoe_doy doe Hdoe) as [Hyoe Hdoy].
  fold yoe in Hyoe, Hdoy. fold doy in Hdoy.
  destruct (mp_dd doy Hdoy) as [Hmp Hdd]. fold mp in Hmp, Hdd.
  pose proof (yoe_next doe Hdoe) as Hnext. cbv zeta in Hnext. fold yoe in Hnext.
  pose proof (mp_next doy (proj1 Hdoy)) as Hmnext. fold mp in Hmnext.
  exists era, yoe, mp, (doy - (153 * mp + 2) / 5 + 1).
  unfold parts_ok, day_at, year_start, month_start.
  repeat split; lia.
Qed.

Lemma civil_from_days_day_at era yoe mp dd :
  parts_ok yoe mp dd ->
  civil_from_days (day_at era yoe mp dd) = (year_of era yoe mp, month_of mp, dd).
Proof. intros (H1 & H2 & H3 & H4 & H5). apply civil_from_days_at; assumption. Qed.

Lemma days_from_civil_day_at era yoe mp dd :
  0 <= yoe <= 399 -> 0 <= mp <= 11 ->
  days_from_civil (year_of era yoe mp) (month_of mp) dd = day_at era yoe mp dd.
Proof. apply days_from_civil_at. Qed.

Lemma month_lengths mp : 0 <= mp <= 11 ->
  month_start mp < month_start (mp + 1) <= 367
  /\ month_start (mp + 1) - month_start mp <= 31
  /\ (mp < 11 -> month_start (mp + 1) <= 337)
  /\ (mp = 11 -> month_start mp = 337 /\ month_start (mp + 1) = 367).
Proof. unfold month_start. intros H. Z.div_mod_to_equations; lia. Qed.

Lemma year_lengths yoe : 0 <= yoe <= 399 ->
  year_start yoe + 365 <= year_start (yoe + 1) + (yoe + 1) / 400 <= year_start yoe + 366.
Proof. unfold year_start. intros H. Z.div_mod_to_equations; lia. Qed.

Ltac calendar_cases :=
  repeat match goal with
         | |- context [?a <? ?b] => destruct (Z.ltb_spec a b); try lia
         | |- context [?a <=? ?b] => destruct (Z.leb_spec a b); try lia
         | |- context [?a =? ?b] => destruct (Z.eqb_spec a b); try lia
         end.

Lemma next_month_parts era yoe mp :
  0 <= yoe <= 399 -> 0 <= mp <= 11 ->
  exists era' yoe' mp',
    next_month (year_of era yoe mp, month_of mp) = (year_of era' yoe' mp', month_of mp')
    /\ parts_ok yoe' mp' 1
    /\ day_at era' yoe' mp' 1
       = if mp <? 11 then day_at era yoe (mp + 1) 1
         else era * 146097 + (year_start (yoe + 1) + (yoe + 1) / 400) - 719468.
Proof.
  intros Hyoe Hmp.
  assert (Hok : forall yoe' mp', 0 <= yoe' <= 399 -> 0 <= mp' <= 11 -> parts_ok yoe'
      mp' 1).
  { intros yoe' mp' H1 H2. pose proof (month_lengths mp' H2).
    pose proof (year_lengths yoe' H1). unfold parts_ok. repeat split; lia. }
  destruct (Z.ltb_spec mp 11) as [Hlt|Hge].
  - exists era, yoe, (mp + 1). split; [|split; [apply Hok; lia | reflexivity]].
    unfold next_month, year_of, month_of.
    calendar_cases; f_equal; lia.
  - assert (mp = 11) by lia. subst mp.
    destruct (Z.eq_dec yoe 399) as [->|Hne].
    + exists (era + 1), 0, 0. split; [|split; [apply Hok; lia|]].
      * unfold next_month, year_of, month_of. calendar_cases. f_equal; lia.
      * unfold day_at, year_start, month_start.
        change ((153 * 0 + 2) / 5) with 0. change (0 / 4) with 0.
        change (0 / 100) with 0. change ((399 + 1) / 4) with 100.
        change ((399 + 1) / 100) with 4. change ((399 + 1) / 400) with 1.
        calendar_cases. lia.
    + exists era, (yoe + 1), 0. split; [|split; [apply Hok; lia|]].
      * unfold next_month, year_of, month_of. calendar_cases. f_equal; lia.
      * unfold day_at, year_start, month_start.
        change ((153 * 0 + 2) / 5) with 0.
        assert ((yoe + 1) / 400 = 0) by (apply Z.div_small; lia).
        calendar_cases. lia.
Qed.

(** The month of a day: it begins on day 1 of the month of the day, ends
    before day 1 of the next month, and every day in between is a day of
    that month. *)
Lemma month_of_day d :
  let y := fst (fst (civil_from_days d)) in
  let m := snd (fst (civil_from_days d)) in
  let F := days_from_civil y m 1 in
  let N := days_from_civil (fst (next_month (y, m))) (snd (next_month (y, m))) 1 in
  1 <= m <= 12
  /\ F = d - snd (civil_from_days d) + 1
  /\ F <= d < N
  /\ (forall k, F <= k < N -> civil_from_days k = (y, m, k - F + 1))
  /\ civil_from_days N = (fst (next_month (y, m)), snd (next_month (y, m)), 1).
Proof.
  cbv zeta.
  destruct (civil_parts_of_day d) as (era & yoe & mp & dd & Hok & ->).
  rewrite (civil_from_days_day_at era yoe mp dd Hok). cbn [fst snd].
  destruct Hok as (Hyoe & Hmp & Hdd & Hmonth & Hyear).
  destruct (next_month_parts era yoe mp Hyoe Hmp) as (era' & yoe' & mp' & Hnext & Hok'
      & HN).
  rewrite Hnext. cbn [fst snd].
  destruct Hok' as (Hyoe' & Hmp' & Hok').
  rewrite !days_from_civil_day_at by assumption. rewrite HN.
  pose proof (month_lengths mp Hmp) as Hml.
  pose proof (year_lengths yoe Hyoe) as Hyl.
  assert (HF : day_at era yoe mp 1 = day_at era yoe mp dd - dd + 1)
    by (unfold day_at; lia).
  assert (Hlast : day_at era yoe mp dd
                  < (if mp <? 11 then day_at era yoe (mp + 1) 1
                     else era * 146097 + (year_start (yoe + 1) + (yoe + 1) / 400) -
                         719468)).
  { destruct (Z.ltb_spec mp 11); unfold day_at; lia. }
  split; [unfold month_of; destruct (Z.ltb_spec mp 10); lia|].
  split; [exact HF|]. split; [lia|]. split.
  - intros k Hk.
    replace k with (day_at era yoe mp (k - day_at era yoe mp 1 + 1))
      at 1 by (unfold day_at; lia).
    apply civil_from_days_day_at. unfold parts_ok.
    revert Hk. destruct (Z.ltb_spec mp 11); intros Hk; unfold day_at in *;
      repeat split; lia.
  - rewrite <- HN. apply civil_from_days_day_at. unfold parts_ok. tauto.
Qed.

(** [MakeDay] is what ECMA-262 asks for: the day it finds for day 1 of a
    month has that year, that month and the date 1. *)
Lemma MakeDay_first_of_month year month :
  0 <= month <= 11 ->
  civil_from_days (MakeDay year month 1) = (year, month + 1, 1).
Proof.
  intros Hm. unfold MakeDay. cbv zeta.
  rewrite Z.div_small, Z.mod_small by lia.
  replace (year + 0) with year by lia.
  replace (days_from_civil year (month + 1) 1 + 1 - 1)
    with (days_from_civil year (month + 1) 1) by lia.
  set (y' := if month + 1 <=? 2 then year - 1 else year).
  set (era := y' / 400).
  set (yoe := y' - era * 400).
  set (mp := if month + 1 <=? 2 then month + 1 + 9 else month + 1 - 3).
  assert (Hyoe : 0 <= yoe <= 399)
    by (subst yoe era; Z.div_mod_to_equations; lia).
  assert (Hmp : 0 <= mp <= 11)
    by (subst mp; destruct (Z.leb_spec (month + 1) 2); lia).
  assert (Hy : year = year_of era yoe mp /\ month + 1 = month_of mp).
  { unfold year_of, month_of. subst mp yoe y'.
    destruct (Z.leb_spec (month + 1) 2); calendar_cases; subst era; split; lia. }
  destruct Hy as [Hy Hmo].
  rewrite Hy at 1 2. rewrite Hmo at 1 2.
  rewrite days_from_civil_day_at by assumption.
  apply civil_from_days_day_at.
  pose proof (month_lengths mp Hmp). pose proof (year_lengths yoe Hyoe).
  unfold parts_ok. repeat split; lia.
Qed.

(** ** The date ranges of [DateUtils] *)

Lemma MakeDay_same_month d date :
  MakeDay (YearFromDay d) (MonthFromDay d) date = d - DateFromDay d + date.
Proof.
  destruct (month_of_day d) as (Hm & HF & _).
  unfold MakeDay, YearFromDay, MonthFromDay, DateFromDay. cbv zeta.
  rewrite Z.div_small, Z.mod_small by lia.
  replace (fst (fst (civil_from_days d)) + 0) with (fst (fst (civil_from_days d)))
    by lia.
  replace (snd (fst (civil_from_days d)) - 1 + 1) with (snd (fst (civil_from_days d)))
    by lia.
  rewrite HF. lia.
Qed.

Lemma MakeDay_next_month d :
  MakeDay (YearFromDay d) (MonthFromDay d + 1) 0
  = days_from_civil
      (fst (next_month (YearFromDay d, MonthFromDay d + 1)))
      (snd (next_month (YearFromDay d, MonthFromDay d + 1))) 1 - 1.
Proof.
  destruct (month_of_day d) as (Hm & _).
  unfold MakeDay, YearFromDay, MonthFromDay, next_month. cbv zeta.
  replace (snd (fst (civil_from_days d)) - 1 + 1) with (snd (fst (civil_from_days d)))
    by lia.
  destruct (Z.eqb_spec (snd (fst (civil_from_days d))) 12) as [E|E]; cbn [fst snd].
  - rewrite E. change (12 / 12) with 1. change (12 mod 12 + 1) with 1. lia.
  - rewrite Z.div_small, Z.mod_small by lia.
    replace (fst (fst (civil_from_days d)) + 0) with (fst (fst (civil_from_days d)))
      by lia.
    lia.
Qed.

Lemma Day_local_midnight_utc (tz : zone) day :
  Day (UTC tz (MakeDate day (MakeTime 0 0 0 0)))
  = day + Day (- LocalTZA_local tz (day * msPerDay)).
Proof.
  unfold UTC. replace (MakeDate day (MakeTime 0 0 0 0)) with (day * msPerDay)
    by (unfold MakeDate, MakeTime; lia).
  generalize (LocalTZA_local tz (day * msPerDay)). intros o.
  unfold Day, msPerDay. Z.div_mod_to_equations; lia.
Qed.

Lemma setDate_getDate (tz : zone) (t n : Z) :
  setDate tz t (getDate tz t + n)
  = t + n * msPerDay
    + (LocalTZA_utc tz t - LocalTZA_local tz (LocalTime tz t + n * msPerDay)).
Proof.
  unfold setDate, getDate. cbv zeta. rewrite MakeDay_same_month.
  replace (MakeDate (Day (LocalTime tz t) - DateFromDay (Day (LocalTime tz t))
                     + (DateFromDay (Day (LocalTime tz t)) + n))
             (TimeWithinDay (LocalTime tz t)))
    with (LocalTime tz t + n * msPerDay)
    by (unfold MakeDate, TimeWithinDay, Day, msPerDay;
        Z.div_mod_to_equations; lia).
  unfold UTC. unfold LocalTime at 1. lia.
Qed.

(** X18. [getYesterday] returns the UTC date of the instant one local day
    before the clock: [setDate] keeps the local clock, so the instant is
    the clock minus 24 hours, moved by the difference between the offset
    at the clock and the offset by which the local time of the day before
    is read, and [formatDate] prints it in UTC. When the two offsets are
    the same (no daylight-saving change in between) the result is the day
    before the UTC date of the clock; that is the day before the local
    date exactly when the local date and the UTC date of the clock are
    the same. *)
Theorem getYesterday_is_one_local_day_back (tz : zone) (now : Z) :
  DateUtils.getYesterday tz now
  = {| DateUtils.from :=
         Day (now - msPerDay
              + (LocalTZA_utc tz now
                 - LocalTZA_local tz (LocalTime tz now - msPerDay)));
       DateUtils.to :=
         Day (now - msPerDay
              + (LocalTZA_utc tz now
                 - LocalTZA_local tz (LocalTime tz now - msPerDay))) |}
  /\ (LocalTZA_local tz (LocalTime tz now - msPerDay) = LocalTZA_utc tz now ->
      DateUtils.getYesterday tz now
      = {| DateUtils.from := Day now - 1; DateUtils.to := Day now - 1 |}
      /\ (DateUtils.from (DateUtils.getYesterday tz now)
          = Day (LocalTime tz now) - 1
          <-> Day (LocalTime tz now) = Day now)).
Proof.
  assert (H : DateUtils.getYesterday tz now
              = {| DateUtils.from :=
                     Day (now - msPerDay
                          + (LocalTZA_utc tz now
                             - LocalTZA_local tz (LocalTime tz now - msPerDay)));
                   DateUtils.to :=
                     Day (now - msPerDay
                          + (LocalTZA_utc tz now
                             - LocalTZA_local tz (LocalTime tz now - msPerDay))) |}).
  { unfold DateUtils.getYesterday, DateUtils.formatDate. cbv zeta.
    replace (getDate tz now - 1) with (getDate tz now + -1) by lia.
    rewrite setDate_getDate.
    replace (LocalTime tz now + -1 * msPerDay) with (LocalTime tz now - msPerDay)
      by lia.
    replace (now + -1 * msPerDay) with (now - msPerDay) by lia.
    reflexivity. }
  split; [exact H|]. intros Hsame. rewrite H, Hsame. cbn [DateUtils.from].
  assert (Hday : Day (now - msPerDay + (LocalTZA_utc tz now - LocalTZA_utc tz now))
                 = Day now - 1)
    by (unfold Day, msPerDay; Z.div_mod_to_equations; lia).
  rewrite Hday. split; [reflexivity | lia].
Qed.

(** X19. [getCurrentMonth], for a clock in the year 100 or later: the two
    dates are the first and the last day of the local month of the clock,
    each moved by the whole days between UTC and the local midnight of
    that day, read with the offset of the zone at that midnight. The
    month runs from day 1 of the month and year of the local date to the
    day before day 1 of the next month, and holds the local date. A day
    whose midnight is at or west of UTC (down to one day) is not moved; a
    day whose midnight is east of UTC (up to one day) comes out one day
    early: east of UTC the range begins on the last day of the month
    before and leaves out the last day of the month. *)
Theorem getCurrentMonth_is_the_local_month_read_in_utc (tz : zone) (now : Z)
  (Hyear : 100 <= getFullYear tz now) :
  exists monthStart monthEnd : Z,
    DateUtils.getCurrentMonth tz now
    = {| DateUtils.from :=
           monthStart + Day (- LocalTZA_local tz (monthStart * msPerDay));
         DateUtils.to :=
           monthEnd + Day (- LocalTZA_local tz (monthEnd * msPerDay)) |}
    /\ monthStart <= Day (LocalTime tz now) <= monthEnd
    /\ (forall d, monthStart <= d <= monthEnd ->
          civil_from_days d
          = (getFullYear tz now, getMonth tz now + 1, d - monthStart + 1))
    /\ civil_from_days (monthEnd + 1)
       = (fst (next_month (getFullYear tz now, getMonth tz now + 1)),
          snd (next_month (getFullYear tz now, getMonth tz now + 1)), 1)
    /\ (forall offset, - msPerDay < offset <= 0 -> Day (- offset) = 0)
    /\ (forall offset, 0 < offset <= msPerDay -> Day (- offset) = -1).
Proof.
  unfold getFullYear, getMonth in *.
  set (d := Day (LocalTime tz now)) in *.
  destruct (month_of_day d) as (Hm & HF & Hd & Hin & HN).
  assert (Hmonth : snd (fst (civil_from_days d)) = MonthFromDay d + 1)
    by (unfold MonthFromDay; lia).
  rewrite Hmonth in HF, Hd, Hin, HN.
  fold (YearFromDay d) in HF, Hd, Hin, HN.
  exists (days_from_civil (YearFromDay d) (MonthFromDay d + 1) 1),
         (days_from_civil
            (fst (next_month (YearFromDay d, MonthFromDay d + 1)))
            (snd (next_month (YearFromDay d, MonthFromDay d + 1))) 1 - 1).
  split; [|split; [lia|split; [|split; [|split]]]].
  - unfold DateUtils.getCurrentMonth, getFullYear, getMonth, Date_of_fields,
      DateUtils.formatDate. cbv zeta. fold d.
    destruct (Z.leb_spec (YearFromDay d) 99); [lia|].
    rewrite andb_false_r, !Day_local_midnight_utc.
    rewrite MakeDay_same_month, MakeDay_next_month. unfold DateFromDay.
    rewrite <- HF. reflexivity.
  - intros k Hk. apply Hin. lia.
  - replace (days_from_civil
               (fst (next_month (YearFromDay d, MonthFromDay d + 1)))
               (snd (next_month (YearFromDay d, MonthFromDay d + 1))) 1 - 1 + 1)
      with (days_from_civil
              (fst (next_month (YearFromDay d, MonthFromDay d + 1)))
              (snd (next_month (YearFromDay d, MonthFromDay d + 1))) 1) by lia.
    exact HN.
  - unfold Day, msPerDay. intros o H. Z.div_mod_to_equations; lia.
  - unfold Day, msPerDay. intros o H. Z.div_mod_to_equations; lia.
Qed.

Lemma getCurrentMonth_is_the_local_month_read_in_utc_witness :
  exists monthStart monthEnd : Z,
    DateUtils.getCurrentMonth london_2025 at_14_00Z
    = {| DateUtils.from :=
           monthStart + Day (- LocalTZA_local london_2025 (monthStart * msPerDay));
         DateUtils.to :=
           monthEnd + Day (- LocalTZA_local london_2025 (monthEnd * msPerDay)) |}
    /\ monthStart <= Day (LocalTime london_2025 at_14_00Z) <= monthEnd
    /\ (forall d, monthStart <= d <= monthEnd ->
          civil_from_days d
          = (getFullYear london_2025 at_14_00Z, getMonth london_2025 at_14_00Z + 1,
             d - monthStart + 1))
    /\ civil_from_days (monthEnd + 1)
       = (fst (next_month (getFullYear london_2025 at_14_00Z,
                           getMonth london_2025 at_14_00Z + 1)),
          snd (next_month (getFullYear london_2025 at_14_00Z,
                           getMonth london_2025 at_14_00Z + 1)), 1)
    /\ (forall offset, - msPerDay < offset <= 0 -> Day (- offset) = 0)
    /\ (forall offset, 0 < offset <= msPerDay -> Day (- offset) = -1).
Proof.
  apply (getCurrentMonth_is_the_local_month_read_in_utc london_2025 at_14_00Z).
  vm_compute. discriminate.
Defined.

(** On 2025-03-10 at 14:00Z: in UTC-05:00 the range is March 2025; in
    UTC+01:00 it runs from 2025-02-28 to 2025-03-30; in London, where the
    offset goes from 0 to one hour on 2025-03-30, it runs from 2025-03-01
    to 2025-03-30. *)
Example getCurrentMonth_samples :
  DateUtils.getCurrentMonth tz_west at_14_00Z
  = {| DateUtils.from := days_from_civil 2025 3 1;
       DateUtils.to := days_from_civil 2025 3 31 |}
  /\ DateUtils.getCurrentMonth msPerHour at_14_00Z
     = {| DateUtils.from := days_from_civil 2025 2 28;
          DateUtils.to := days_from_civil 2025 3 30 |}
  /\ DateUtils.getCurrentMonth london_2025 at_14_00Z
     = {| DateUtils.from := days_from_civil 2025 3 1;
          DateUtils.to := days_from_civil 2025 3 30 |}.
Proof. repeat split. Qed.

(** At 23:30Z on 2025-03-10, which is 2025-03-11 in UTC+01:00,
    [getYesterday] is 2025-03-09; at 02:00Z on 2025-03-11, which is
    2025-03-10 in UTC-05:00, it is 2025-03-10. Across a change of the
    offset: in New York at 2025-11-03T00:30Z it is 2025-11-01, in Berlin
    at 2025-03-30T23:30Z it is 2025-03-30. *)
Example getYesterday_samples :
  DateUtils.from
    (DateUtils.getYesterday msPerHour
       (day_2025_03_10 * msPerDay + 23 * msPerHour + 30 * msPerMinute))
  = day_2025_03_10 - 1
  /\ DateUtils.from
       (DateUtils.getYesterday tz_west (day_2025_03_11 * msPerDay + 2 * msPerHour))
     = day_2025_03_10
  /\ DateUtils.from
       (DateUtils.getYesterday new_york_autumn_2025
          (days_from_civil 2025 11 3 * msPerDay + 30 * msPerMinute))
     = days_from_civil 2025 11 1
  /\ DateUtils.from
       (DateUtils.getYesterday berlin_2025
          (days_from_civil 2025 3 30 * msPerDay + 23 * msPerHour + 30 * msPerMinute))
     = days_from_civil 2025 3 30.
Proof. repeat split. Qed.

(** ** Fetching the pages *)

Lemma pages_served {A} (get : Z -> option (HarvestApi.response A))
  (served : list (HarvestApi.response A)) :
  forall (all : list A) (page : Z) (fuel : nat),
    (forall k r, served !! k = Some r ->
                 get (page + Z.of_nat k) = Some r /\ HarvestApi.next r = true) ->
    HarvestApi.pages get (length served + fuel) all page
    = HarvestApi.pages get fuel (all ++ flat_map HarvestApi.items served)
        (page + Z.of_nat (length served)).
Proof.
  induction served as [|r served IH]; intros all page fuel H.
  - simpl. rewrite app_nil_r, Z.add_0_r. reflexivity.
  - destruct (H 0%nat r eq_refl) as [Hget Hnext]. rewrite Z.add_0_r in Hget.
    cbn [length Nat.add HarvestApi.pages flat_map]. rewrite Hget, Hnext.
    rewrite IH.
    + rewrite <- app_assoc. f_equal. lia.
    + intros k r' Hk. destruct (H (S k) r' Hk) as [H1 H2]. split; [|exact H2].
      rewrite <- H1. f_equal. lia.
Qed.

(** X20. [getTimeEntries] requests the pages 1, 2, ... in order and returns
    their entries in that order: when Harvest serves a number of pages
    that announce a next page and then one that does not, the call
    returns the concatenation of all of them, with any fuel that allows
    one request per page; [extractTimeEntries] then returns the number of
    entries fetched, whatever the reconciliation did with them. *)
Theorem getTimeEntries_concatenates_the_pages
  (client_get : Z -> Z -> Z -> option (HarvestApi.response Harvest.entry))
  (from to : Z)
  (served : list (HarvestApi.response Harvest.entry))
  (lastPage : HarvestApi.response Harvest.entry)
  (fuel : nat) (io : nat -> bool) (now : Z) (db : list TimeEntry.row)
  (Hserved : forall k r, served !! k = Some r ->
               client_get from to (1 + Z.of_nat k) = Some r
               /\ HarvestApi.next r = true)
  (Hlast : client_get from to (1 + Z.of_nat (length served)) = Some lastPage)
  (Hend : HarvestApi.next lastPage = false)
  (Hfuel : (length served < fuel)%nat) :
  HarvestApi.getTimeEntries client_get fuel from to
  = Returned (flat_map HarvestApi.items served ++ HarvestApi.items lastPage)
  /\ fst (extractTimeEntries client_get fuel io now from to db)
     = Returned (length (flat_map HarvestApi.items served
                         ++ HarvestApi.items lastPage)).
Proof.
  assert (H : HarvestApi.getTimeEntries client_get fuel from to
              = Returned (flat_map HarvestApi.items served
                          ++ HarvestApi.items lastPage)).
  { unfold HarvestApi.getTimeEntries.
    replace fuel with (length served + S (fuel - S (length served)))%nat by lia.
    rewrite (pages_served (client_get from to) served [] 1 _ Hserved).
    cbn [HarvestApi.pages]. rewrite Hlast, Hend. reflexivity. }
  split; [exact H|]. unfold extractTimeEntries. rewrite H. reflexivity.
Qed.

Lemma getTimeEntries_concatenates_the_pages_witness :
  HarvestApi.getTimeEntries harvest_two_pages 5 day_2025_03_10 day_2025_03_11
  = Returned
      (flat_map HarvestApi.items
         [ {| HarvestApi.items := [harvest_entry 7 "a"]; HarvestApi.next := true |} ]
       ++ HarvestApi.items
            {| HarvestApi.items := [harvest_entry 8 "b"];
               HarvestApi.next := false |})
  /\ fst (extractTimeEntries harvest_two_pages 5 no_io_error at_14_00Z
            day_2025_03_10 day_2025_03_11 [])
     = Returned
         (length
            (flat_map HarvestApi.items
               [ {| HarvestApi.items := [harvest_entry 7 "a"];
                    HarvestApi.next := true |} ]
             ++ HarvestApi.items
                  {| HarvestApi.items := [harvest_entry 8 "b"];
                     HarvestApi.next := false |})).
Proof.
  apply (getTimeEntries_concatenates_the_pages harvest_two_pages
           day_2025_03_10 day_2025_03_11
           [ {| HarvestApi.items := [harvest_entry 7 "a"]; HarvestApi.next := true |} ]
           {| HarvestApi.items := [harvest_entry 8 "b"]; HarvestApi.next := false |}
           5 no_io_error at_14_00Z []).
  - intros [|k] r Hk; [|destruct k; discriminate Hk].
    injection Hk as <-. split; reflexivity.
  - reflexivity.
  - reflexivity.
  - simpl. lia.
Defined.

(** X21. A page that fails makes the whole fetch fail: when Harvest serves
    some pages that announce a next page and the request for the page
    after them throws, [getTimeEntries] throws, the entries of the pages
    already fetched are dropped, and [extractTimeEntries] leaves table
    [time_entries] as it was. *)
Theorem extractTimeEntries_stores_nothing_when_a_page_fails
  (client_get : Z -> Z -> Z -> option (HarvestApi.response Harvest.entry))
  (from to : Z)
  (served : list (HarvestApi.response Harvest.entry))
  (fuel : nat) (io : nat -> bool) (now : Z) (db : list TimeEntry.row)
  (Hserved : forall k r, served !! k = Some r ->
               client_get from to (1 + Z.of_nat k) = Some r
               /\ HarvestApi.next r = true)
  (Hfails : client_get from to (1 + Z.of_nat (length served)) = None)
  (Hfuel : (length served < fuel)%nat) :
  HarvestApi.getTimeEntries client_get fuel from to = Thrown
  /\ extractTimeEntries client_get fuel io now from to db = (Thrown, db).
Proof.
  assert (H : HarvestApi.getTimeEntries client_get fuel from to = Thrown).
  { unfold HarvestApi.getTimeEntries.
    replace fuel with (length served + S (fuel - S (length served)))%nat by lia.
    rewrite (pages_served (client_get from to) served [] 1 _ Hserved).
    cbn [HarvestApi.pages]. rewrite Hfails. reflexivity. }
  split; [exact H|]. unfold extractTimeEntries. rewrite H. reflexivity.
Qed.

Lemma extractTimeEntries_stores_nothing_when_a_page_fails_witness :
  HarvestApi.getTimeEntries harvest_fails_on_page_2 5 day_2025_03_10 day_2025_03_11
  = Thrown
  /\ extractTimeEntries harvest_fails_on_page_2 5 no_io_error at_14_00Z
       day_2025_03_10 day_2025_03_11 db_imported
     = (Thrown, db_imported).
Proof.
  apply (extractTimeEntries_stores_nothing_when_a_page_fails
           harvest_fails_on_page_2 day_2025_03_10 day_2025_03_11
           [ {| HarvestApi.items := [harvest_entry 7 "a"]; HarvestApi.next := true |} ]
           5 no_io_error at_14_00Z db_imported).
  - intros [|k] r Hk; [|destruct k; discriminate Hk].
    injection Hk as <-. split; reflexivity.
  - reflexivity.
  - simpl. lia.
Defined.

(** ** The pending entries and the tasks of their name *)

Lemma left_join_rows tasks r :
  List.map Pending.te (left_join tasks r)
  = repeat r (Nat.max 1 (tasks_named tasks (TimeEntry.task r))).
Proof.
  unfold left_join, tasks_named.
  destruct (List.filter _ tasks) as [|t ts]; [reflexivity|].
  rewrite List.map_map. cbn [Pending.te].
  replace (Nat.max 1 (length (t :: ts))) with (length (t :: ts))
    by (cbn [length]; lia).
  generalize (t :: ts). intros l. induction l as [|x l IH]; [reflexivity|].
  simpl. f_equal. exact IH.
Qed.

Lemma filter_left_join tasks r :
  List.filter (fun p => TimeEntry.imported (Pending.te p) =? 0) (left_join tasks r)
  = if TimeEntry.imported r =? 0 then left_join tasks r else [].
Proof.
  assert (H : forall l : list Pending.entry,
             (forall p, In p l -> Pending.te p = r) ->
             List.filter (fun p => TimeEntry.imported (Pending.te p) =? 0) l
             = if TimeEntry.imported r =? 0 then l else []).
  { induction l as [|p l IH]; intros Hl; simpl.
    - destruct (_ =? 0); reflexivity.
    - rewrite (Hl p (or_introl eq_refl)), IH by (intros q Hq; apply Hl; right; exact Hq).
      destruct (_ =? 0); reflexivity. }
  apply H. intros p Hp. apply (In_left_join tasks r p Hp).
Qed.

Lemma getAllPendingEntries_rows db tasks :
  List.map Pending.te (getAllPendingEntries db tasks)
  = List.flat_map
      (fun r => repeat r (Nat.max 1 (tasks_named tasks (TimeEntry.task r))))
      (List.filter (fun r => TimeEntry.imported r =? 0) db).
Proof.
  unfold getAllPendingEntries. induction db as [|r db IH]; [reflexivity|].
  cbn [List.flat_map List.filter]. rewrite List.filter_app, List.map_app, IH.
  rewrite filter_left_join.
  destruct (TimeEntry.imported r =? 0); [|reflexivity].
  cbn [List.flat_map]. rewrite left_join_rows. reflexivity.
Qed.

Lemma tasks_named_unique tasks name :
  List.NoDup (List.map Task.name tasks) -> (tasks_named tasks name <= 1)%nat.
Proof.
  unfold tasks_named. induction tasks as [|t l IH]; intros H; simpl; [lia|].
  inversion H as [|? ? Hnotin Hl]; subst.
  destruct (String.eqb_spec name (Task.name t)) as [->|]; [|apply IH; exact Hl].
  assert (Hnone : List.filter (fun t0 => String.eqb (Task.name t) (Task.name t0)) l = []).
  { destruct (List.filter _ l) as [|x xs] eqn:E; [reflexivity|]. exfalso.
    assert (Hx : In x (List.filter
                         (fun t0 => String.eqb (Task.name t) (Task.name t0)) l))
      by (rewrite E; left; reflexivity).
    apply filter_In in Hx as [Hx Hname]. apply String.eqb_eq in Hname.
    apply Hnotin. rewrite Hname. apply in_map. exact Hx. }
  rewrite Hnone. simpl. lia.
Qed.

Lemma sort_by_date_perm l : Permutation (sort_by_date l) l.
Proof.
  induction l as [|e l IH]; simpl; [reflexivity|].
  rewrite insert_by_date_perm. apply perm_skip. exact IH.
Qed.

Lemma left_join_columns tasks r p :
  In p (left_join tasks r) ->
  (tasks_named tasks (TimeEntry.task r) = 0%nat
   /\ Pending.kimai_project_id p = None /\ Pending.kimai_activity_id p = None)
  \/ exists t, In t tasks /\ Task.name t = TimeEntry.task r
               /\ Pending.kimai_project_id p = Task.kimai_project_id t
               /\ Pending.kimai_activity_id p = Task.kimai_activity_id t.
Proof.
  unfold left_join, tasks_named.
  destruct (List.filter _ tasks) as [|t ts] eqn:E.
  - intros [<-|[]]. left. repeat split.
  - intros Hp. right. apply in_map_iff in Hp as (t' & <- & Ht').
    rewrite <- E in Ht'. apply filter_In in Ht' as [Hin Hname].
    apply String.eqb_eq in Hname. exists t'. repeat split; auto.
Qed.

(** X22. [getAllPendingEntries] lists the pending rows of the table in
    their order, each once for every row of [tasks] that has the name of
    its task, and once when no row has: the join is on the name, which
    nothing keeps unique. A listed entry carries the project id and the
    activity id of a task of its name, and none when no task has its
    name. *)
Theorem getAllPendingEntries_lists_a_row_once_per_task_of_its_name
  (db : list TimeEntry.row) (tasks : list Task.row) :
  List.map Pending.te (getAllPendingEntries db tasks)
  = List.flat_map
      (fun r => repeat r (Nat.max 1 (tasks_named tasks (TimeEntry.task r))))
      (List.filter (fun r => TimeEntry.imported r =? 0) db)
  /\ Forall
       (fun p =>
          (tasks_named tasks (TimeEntry.task (Pending.te p)) = 0%nat
           /\ Pending.kimai_project_id p = None
           /\ Pending.kimai_activity_id p = None)
          \/ exists t, In t tasks
                       /\ Task.name t = TimeEntry.task (Pending.te p)
                       /\ Pending.kimai_project_id p = Task.kimai_project_id t
                       /\ Pending.kimai_activity_id p = Task.kimai_activity_id t)
       (getAllPendingEntries db tasks).
Proof.
  split; [apply getAllPendingEntries_rows|].
  apply List.Forall_forall. intros p Hp. unfold getAllPendingEntries in Hp.
  apply filter_In in Hp as [Hp _]. apply in_flat_map in Hp as (r & _ & Hj).
  rewrite (In_left_join tasks r p Hj). apply left_join_columns. exact Hj.
Qed.

(** X23. When the names of the tasks and the source ids of the entries
    are pairwise distinct, [getAllPendingEntries] lists exactly the
    pending rows, each once, which is what [getPendingEntries] selects on
    a range that holds every date; and a run of [importTimeEntries] meets
    no source id twice, so that no entry is submitted twice. *)
Theorem importTimeEntries_meets_every_entry_once
  (tz : Z) (createTimesheet : nat -> Kimai.entry -> option Z)
  (mark_fails : nat -> bool)
  (db : list TimeEntry.row) (tasks : list Task.row)
  (Hnames : List.NoDup (List.map Task.name tasks))
  (Hids : List.NoDup (List.map TimeEntry.harvest_id db)) :
  List.map Pending.te (getAllPendingEntries db tasks)
  = List.filter (fun r => TimeEntry.imported r =? 0) db
  /\ (forall from to,
        Forall (fun r => from <= TimeEntry.date r <= to) db ->
        getPendingEntries from to db
        = List.map Pending.te (getAllPendingEntries db tasks))
  /\ List.NoDup
       (List.map (fun ev => TimeEntry.harvest_id (Pending.te (event_entry ev)))
          (log (importTimeEntries tz createTimesheet mark_fails db tasks))).
Proof.
  assert (Hrows : List.map Pending.te (getAllPendingEntries db tasks)
                  = List.filter (fun r => TimeEntry.imported r =? 0) db).
  { rewrite getAllPendingEntries_rows.
    induction (List.filter (fun r => TimeEntry.imported r =? 0) db) as [|r l IH];
      [reflexivity|].
    cbn [List.flat_map]. rewrite IH.
    pose proof (tasks_named_unique tasks (TimeEntry.task r) Hnames).
    replace (Nat.max 1 (tasks_named tasks (TimeEntry.task r))) with 1%nat by lia.
    reflexivity. }
  split; [exact Hrows|]. split.
  - intros from to Hrange. rewrite Hrows. unfold getPendingEntries.
    apply filter_ext_in. intros r Hr.
    rewrite List.Forall_forall in Hrange. specialize (Hrange r Hr).
    destruct (Z.leb_spec from (TimeEntry.date r)); [|lia].
    destruct (Z.leb_spec (TimeEntry.date r) to); [|lia].
    rewrite !andb_true_r. reflexivity.
  - rewrite importTimeEntries_loop.
    destruct (importLoop_log tz createTimesheet mark_fails
                (sort_by_date (getAllPendingEntries db tasks))
                {| db := db; dateEndTimeMap := ∅; imported := 0; failed := 0;
                   calls := 0; log := [] |}) as (evs & Hl & Hm).
    rewrite Hl. cbn [log app].
    rewrite <- (List.map_map event_entry
                  (fun p => TimeEntry.harvest_id (Pending.te p))), Hm.
    apply (Permutation_NoDup
             (l := List.map (fun p => TimeEntry.harvest_id (Pending.te p))
                     (getAllPendingEntries db tasks))).
    + apply Permutation_map. symmetry. apply sort_by_date_perm.
    + rewrite <- (List.map_map Pending.te TimeEntry.harvest_id), Hrows.
      apply NoDup_map_filter. exact Hids.
Qed.

Lemma importTimeEntries_meets_every_entry_once_witness :
  List.map Pending.te (getAllPendingEntries db_chained tasks_mapped)
  = List.filter (fun r => TimeEntry.imported r =? 0) db_chained
  /\ (forall from to,
        Forall (fun r => from <= TimeEntry.date r <= to) db_chained ->
        getPendingEntries from to db_chained
        = List.map Pending.te (getAllPendingEntries db_chained tasks_mapped))
  /\ List.NoDup
       (List.map (fun ev => TimeEntry.harvest_id (Pending.te (event_entry ev)))
          (log (importTimeEntries tz_west kimai_accepts no_io_error db_chained
              tasks_mapped))).
Proof.
  apply (importTimeEntries_meets_every_entry_once tz_west kimai_accepts no_io_error
           db_chained tasks_mapped).
  - repeat constructor; simpl; intuition discriminate.
  - repeat constructor; simpl; intuition discriminate.
Defined.

(** With two mapped tasks named alike, one pending entry is pushed twice:
    two requests, two timesheets. *)
Example one_entry_two_timesheets :
  calls (importTimeEntries tz_west kimai_accepts no_io_error
           [row_10 1 0 None None "a" 2] tasks_same_name) = 2%nat
  /\ imported (importTimeEntries tz_west kimai_accepts no_io_error
                 [row_10 1 0 None None "a" 2] tasks_same_name) = 2%nat.
Proof. split; reflexivity. Qed.

(** ** The importer before the end-time map *)

Lemma transformEntry_without_end tz entry ends :
  ends !! TimeEntry.date (Pending.te entry) = None ->
  fst (transformEntry tz entry ends) = Rev2.transformEntry tz entry.
Proof.
  intros H. unfold transformEntry, Rev2.transformEntry. cbv zeta. cbn [fst].
  rewrite H. destruct (TimeEntry.created_at (Pending.te entry)); [|reflexivity].
  destruct (sameDate _ _ _); reflexivity.
Qed.





Lemma sort_by_date_sorted l : dates_increase l -> sort_by_date l = l.
Proof.
  unfold dates_increase. induction 1 as [|e l Hl IH He]; [reflexivity|].
  simpl. rewrite IH. destruct l as [|x r]; [reflexivity|]. simpl.
  inversion He as [|? ? Hx _]; subst.
  destruct (Z.leb_spec (Date_of_date (TimeEntry.date (Pending.te e))
                        - Date_of_date (TimeEntry.date (Pending.te x))) 0)
    as [_|Hgt]; [reflexivity|].
  unfold Date_of_date, msPerDay in Hgt. lia.
Qed.

Lemma importStep_without_map tz createTimesheet mark_fails st e :
  dateEndTimeMap st !! TimeEntry.date (Pending.te e) = None ->
  without_map (importStep tz createTimesheet mark_fails st e)
  = Rev2.importStep tz createTimesheet mark_fails (without_map st) e
  /\ forall d, d <> TimeEntry.date (Pending.te e) ->
               dateEndTimeMap (importStep tz createTimesheet mark_fails st e) !! d
               = dateEndTimeMap st !! d.
Proof.
  intros Hnone. unfold importStep, Rev2.importStep.
  destruct (missing_mapping e); [split; reflexivity|].
  pose proof (transformEntry_without_end tz e (dateEndTimeMap st) Hnone) as Hk.
  pose proof (transformEntry_map tz e (dateEndTimeMap st)) as Hm.
  destruct (transformEntry tz e (dateEndTimeMap st)) as [k m'].
  cbn [fst snd] in Hk, Hm. subst k.
  cbn [without_map Rev2.calls Rev2.db Rev2.imported Rev2.failed Rev2.log].
  assert (Hother : forall d, d <> TimeEntry.date (Pending.te e) ->
                             m' !! d = dateEndTimeMap st !! d).
  { intros d Hd. rewrite Hm. apply lookup_insert_ne. congruence. }
  destruct (createTimesheet (calls st) (Rev2.transformEntry tz e));
    [destruct (mark_fails (calls st))|];
    split; try reflexivity; exact Hother.
Qed.

Lemma importLoop_without_map tz createTimesheet mark_fails l :
  dates_increase l ->
  forall st,
    (forall e, In e l -> dateEndTimeMap st !! TimeEntry.date (Pending.te e) = None) ->
    without_map (importLoop tz createTimesheet mark_fails st l)
    = Rev2.importLoop tz createTimesheet mark_fails (without_map st) l.
Proof.
  unfold dates_increase. induction 1 as [|e l Hl IH He]; intros st Hst;
    [reflexivity|].
  cbn [importLoop Rev2.importLoop fold_left].
  destruct (importStep_without_map tz createTimesheet mark_fails st e
              (Hst e (or_introl eq_refl))) as [Hstep Hmap].
  rewrite <- Hstep. apply IH. intros e' He'.
  rewrite Hmap; [apply Hst; right; exact He'|].
  rewrite List.Forall_forall in He. specialize (He e' He'). lia.
Qed.

(** X25. The end-time map and the sort change nothing when the pending
    entries come in strictly increasing order of date, one entry for a
    date: the newest [importTimeEntries] then pushes the same objects,
    logs the same events, counts the same and leaves the same table as
    the revision before it. *)
Theorem importTimeEntries_as_before_on_increasing_dates
  (tz : Z) (createTimesheet : nat -> Kimai.entry -> option Z)
  (mark_fails : nat -> bool)
  (db0 : list TimeEntry.row) (tasks : list Task.row)
  (Hdates : dates_increase (getAllPendingEntries db0 tasks)) :
  without_map (importTimeEntries tz createTimesheet mark_fails db0 tasks)
  = Rev2.importTimeEntries tz createTimesheet mark_fails db0 tasks.
Proof.
  unfold importTimeEntries, Rev2.importTimeEntries. cbv zeta.
  destruct (Nat.eqb (length (getAllPendingEntries db0 tasks)) 0); [reflexivity|].
  rewrite (sort_by_date_sorted _ Hdates).
  apply (importLoop_without_map tz createTimesheet mark_fails _ Hdates).
  intros e _. apply lookup_empty.
Qed.

Lemma importTimeEntries_as_before_on_increasing_dates_witness :
  without_map (importTimeEntries tz_west kimai_accepts no_io_error
                 [row_10 1 0 None None "a" 2; row_11] tasks_mapped)
  = Rev2.importTimeEntries tz_west kimai_accepts no_io_error
      [row_10 1 0 None None "a" 2; row_11] tasks_mapped.
Proof.
  apply (importTimeEntries_as_before_on_increasing_dates tz_west kimai_accepts no_io_error
           [row_10 1 0 None None "a" 2; row_11] tasks_mapped).
  repeat (constructor; try reflexivity).
Defined.

(** The two catalogs of the samples: the two tasks are stored under row
    ids 1 and 2, the task without id and the task with id 0 are left out;
    [website: review] is mapped to project 3, activity 12; [ Review] is
    mapped to activity 13, which has no project. *)
Example extractTasks_sample :
  List.map (fun r => (Task.id r, Task.harvest_id r, Task.kimai_project_id r,
                      Task.kimai_activity_id r))
    (Extracted.tasks
       (extractTasks no_io_error no_io_error in_reverse fetched_tasks fetched_activities
          tasks_two activities_one))
  = [ (1, 900, None, Some "13"%string);
      (2, 901, Some "3"%string, Some "12"%string) ]
  /\ Extracted.matched
       (extractTasks no_io_error no_io_error in_reverse fetched_tasks fetched_activities
          tasks_two activities_one) = 2
  /\ Extracted.harvestTasks
       (extractTasks no_io_error no_io_error in_reverse fetched_tasks fetched_activities
          tasks_two activities_one) = 4%nat.
Proof. repeat split. Qed.
